(** * Caption normalization pipeline of the YouTube analyzer skill

    Shallow embedding of [skills/youtube-analyzer/scripts/analyze_youtube.py]:
    caption track selection, the WebVTT and SRT parsers, the scrolling-caption
    deduplicator, the transcript renderer, the metadata formatters and the
    caption section of the report; then the state-file migrations of
    [tools/wtm/migrations]; followed by the properties established for
    them. *)

From Stdlib Require Import List NArith ZArith Ascii String Bool Arith Lia.
From Stdlib Require Import DecimalPos DecimalZ PrimFloat Uint63.
From stdpp Require Import base option list gmap.
From Equations Require Import Equations.

(** ** Python strings

    A Python [str] is a sequence of Unicode code points; a code point is a
    natural number ([N]).  Indexing, [len] and slicing therefore count code
    points, as they do in Python. *)

Module Py.

Definition char : Type := N.
Definition str : Type := list N.

(** The code point of an ASCII character, and the [str] of an ASCII literal. *)
Definition chr (a : ascii) : char := N_of_ascii a.

Fixpoint lit (s : string) : str :=
  match s with
  | EmptyString => []
  | String a s' => chr a :: lit s'
  end.

(** [in_ranges c rs]: [c] lies in one of the closed intervals of [rs]. *)
Definition in_ranges (c : char) (rs : list (N * N)) : bool :=
  existsb (fun r => (fst r <=? c)%N && (c <=? snd r)%N) rs.

(** [str.isspace] for one code point (CPython's [_PyUnicode_IsWhitespace]). *)
Definition is_space (c : char) : bool :=
  in_ranges c [(9, 13); (28, 32); (133, 133); (160, 160); (5760, 5760);
               (8192, 8202); (8232, 8233); (8239, 8239); (8287, 8287);
               (12288, 12288)]%N.

(** Line boundaries recognised by [str.splitlines]. *)
Definition is_linebreak (c : char) : bool :=
  in_ranges c [(10, 13); (28, 30); (133, 133); (8232, 8233)]%N.

(** [\d] of the [re] module on [str] patterns: the decimal digits of
    Unicode 14.0 (general category Nd), as shipped with CPython 3.11. *)
Definition is_decimal (c : char) : bool :=
  in_ranges c
    [(48, 57); (1632, 1641); (1776, 1785); (1984, 1993); (2406, 2415);
     (2534, 2543); (2662, 2671); (2790, 2799); (2918, 2927); (3046, 3055);
     (3174, 3183); (3302, 3311); (3430, 3439); (3558, 3567); (3664, 3673);
     (3792, 3801); (3872, 3881); (4160, 4169); (4240, 4249); (6112, 6121);
     (6160, 6169); (6470, 6479); (6608, 6617); (6784, 6793); (6800, 6809);
     (6992, 7001); (7088, 7097); (7232, 7241); (7248, 7257); (42528, 42537);
     (43216, 43225); (43264, 43273); (43472, 43481); (43504, 43513);
     (43600, 43609); (44016, 44025); (65296, 65305); (66720, 66729);
     (68912, 68921); (69734, 69743); (69872, 69881); (69942, 69951);
     (70096, 70105); (70384, 70393); (70736, 70745); (70864, 70873);
     (71248, 71257); (71360, 71369); (71472, 71481); (71904, 71913);
     (72016, 72025); (72784, 72793); (73040, 73049); (73120, 73129);
     (92768, 92777); (92864, 92873); (93008, 93017); (120782, 120831);
     (123200, 123209); (123632, 123641); (125264, 125273);
     (130032, 130041)]%N.

(** [a == b] *)
Fixpoint str_eqb (a b : str) : bool :=
  match a, b with
  | [], [] => true
  | x :: a', y :: b' => (x =? y)%N && str_eqb a' b'
  | _, _ => false
  end.

(** Truthiness of a string: [if s:] *)
Definition nonempty (s : str) : bool :=
  match s with [] => false | _ :: _ => true end.

(** [s.startswith(p)] *)
Fixpoint startswith (s p : str) : bool :=
  match p, s with
  | [], _ => true
  | c :: p', d :: s' => (c =? d)%N && startswith s' p'
  | _ :: _, [] => false
  end.

(** [s.endswith(p)]: the last [len(p)] code points of [s] are [p]. *)
Definition endswith (s p : str) : bool :=
  (length p <=? length s) && str_eqb (drop (length s - length p) s) p.

(** [sub in s]: [sub] occurs in [s] as a contiguous substring. *)
Fixpoint contains (s sub : str) : bool :=
  startswith s sub ||
  match s with
  | [] => false
  | _ :: s' => contains s' sub
  end.

(** [s.count(c)] for a one-character needle. *)
Fixpoint count_char (s : str) (c : char) : nat :=
  match s with
  | [] => 0
  | d :: s' => (if (d =? c)%N then 1 else 0) + count_char s' c
  end.

Fixpoint lstrip (s : str) : str :=
  match s with
  | [] => []
  | c :: s' => if is_space c then lstrip s' else s
  end.

Definition rstrip (s : str) : str := rev (lstrip (rev s)).

(** [s.strip()] *)
Definition strip (s : str) : str := rstrip (lstrip s).

(** [s.splitlines()]: [cur] is the line being read.  A carriage return
    directly followed by a line feed is one boundary; a last line without
    terminator is kept unless it is empty. *)
Fixpoint splitlines_from (cur : str) (s : str) : list str :=
  match s with
  | [] => if nonempty cur then [cur] else []
  | c :: rest =>
      if is_linebreak c then
        match rest with
        | d :: rest' =>
            if (c =? 13)%N && (d =? 10)%N
            then cur :: splitlines_from [] rest'
            else cur :: splitlines_from [] rest
        | [] => [cur]
        end
      else splitlines_from (cur ++ [c]) rest
  end.

Definition splitlines (s : str) : list str := splitlines_from [] s.

(** [sep.join(parts)] *)
Fixpoint join (sep : str) (parts : list str) : str :=
  match parts with
  | [] => []
  | [p] => p
  | p :: rest => p ++ sep ++ join sep rest
  end.

End Py.

(** ** The fragment of the [re] module the script uses

    Patterns are built from literals, character classes, greedy bounded or
    unbounded repetition of a class, sequence and ordered alternation.  The
    matcher is the usual backtracking search in continuation-passing style:
    alternatives are tried left to right and repetitions longest first, which
    is the order in which [re] explores them. *)

Module Re.
Import Py.

Inductive cclass : Type :=
| CDigit                 (* \d *)
| CIs (c : char)         (* the character c *)
| CNot (c : char).       (* [^c] *)

Inductive regex : Type :=
| Lit (s : str)                                  (* literal text *)
| Rep (k : cclass) (lo : nat) (hi : option nat)  (* k{lo,hi}; hi = None: no bound *)
| Seq (r1 r2 : regex)
| Alt (r1 r2 : regex).

Definition in_class (k : cclass) (c : char) : bool :=
  match k with
  | CDigit => is_decimal c
  | CIs x => (c =? x)%N
  | CNot x => negb (c =? x)%N
  end.

(** Length of the longest prefix of [s] made of class [k], capped at [hi]. *)
Fixpoint run_length (k : cclass) (hi : option nat) (s : str) : nat :=
  match hi, s with
  | Some 0, _ => 0
  | _, [] => 0
  | _, c :: s' =>
      if in_class k c
      then S (run_length k (match hi with Some h => Some (pred h) | None => None end) s')
      else 0
  end.

(** Try to consume [n], then [n-1], ... down to [lo] characters. *)
Fixpoint greedy (lo n : nat) (s : str) (k : str -> option str) : option str :=
  if n <? lo then None
  else match k (drop n s) with
       | Some r => Some r
       | None => match n with
                 | 0 => None
                 | S n' => greedy lo n' s k
                 end
       end.

(** [run r s k]: match [r] at the start of [s], then continue with [k] on
    the rest; the result is what is left of [s] after the whole match. *)
Fixpoint run (r : regex) (s : str) (k : str -> option str) : option str :=
  match r with
  | Lit p => if startswith s p then k (drop (length p) s) else None
  | Rep c lo hi => greedy lo (run_length c hi s) s k
  | Seq r1 r2 => run r1 s (fun s' => run r2 s' k)
  | Alt r1 r2 => match run r1 s k with
                 | Some rest => Some rest
                 | None => run r2 s k
                 end
  end.

(** A sequence of patterns, and [k{n}]. *)
Fixpoint cat (rs : list regex) : regex :=
  match rs with
  | [] => Lit []
  | [r] => r
  | r :: rs' => Seq r (cat rs')
  end.

Definition times (k : cclass) (n : nat) : regex := Rep k n (Some n).

(** [re.match(r, s)]: the matched text ([group(0)]), if [r] matches at the
    start of [s]. *)
Definition re_match (r : regex) (s : str) : option str :=
  match run r s Some with
  | Some rest => Some (take (length s - length rest) s)
  | None => None
  end.

(** [re.sub(r, repl, s)] for a pattern that matches no empty string and a
    replacement without group references: scan left to right, replace each
    match and resume after it.  [skip] counts the characters of the current
    match still to be passed over. *)
Fixpoint re_sub_from (r : regex) (repl : str) (skip : nat) (s : str) : str :=
  match s with
  | [] => []
  | c :: rest =>
      match skip with
      | S n => re_sub_from r repl n rest
      | 0 =>
          match re_match r s with
          | Some (_ :: m) => repl ++ re_sub_from r repl (length m) rest
          | _ => c :: re_sub_from r repl 0 rest
          end
      end
  end.

Definition re_sub (r : regex) (repl : str) (s : str) : str :=
  re_sub_from r repl 0 s.

(** [re.split(r, s)] for a pattern without groups that matches no empty
    string: the pieces between the matches, the last one included. *)
Fixpoint re_split_from (r : regex) (cur : str) (skip : nat) (s : str) : list str :=
  match s with
  | [] => [cur]
  | c :: rest =>
      match skip with
      | S n => re_split_from r cur n rest
      | 0 =>
          match re_match r s with
          | Some (_ :: m) => cur :: re_split_from r [] (length m) rest
          | _ => re_split_from r (cur ++ [c]) 0 rest
          end
      end
  end.

Definition re_split (r : regex) (s : str) : list str :=
  re_split_from r [] 0 s.

End Re.

Import Py Re.

(** ** Caption Selector ([extract_subtitles], lines 89-113)

    [subtitles] and [automatic_captions] are the two dictionaries of the
    provider's answer, from language tag to track descriptors; a key that is
    absent from the answer reads as the empty dictionary. *)

Section Selector.
Context {track : Type}.

Record video_info : Type := {
  subtitles : option (gmap str track);
  automatic_captions : option (gmap str track)
}.

Definition preferred_langs : list str :=
  [lit "ko"; lit "ko-KR"; lit "en"; lit "en-US"; lit "en-orig"].

(** [for lang in langs: if lang in available: chosen_lang = lang; break] *)
Fixpoint first_available (langs : list str) (available : gmap str track) : option str :=
  match langs with
  | [] => None
  | lang :: rest =>
      if bool_decide (is_Some (available !! lang)) then Some lang
      else first_available rest available
  end.

(** The pair [(chosen_lang, is_auto)], or [None] when the function returns
    [None, None] for lack of a track. *)
Definition select_track (info : video_info) : option (str * bool) :=
  let available_subs := default ∅ (subtitles info) in
  let available_auto := default ∅ (automatic_captions info) in
  match first_available preferred_langs available_subs with
  | Some lang => Some (lang, false)
  | None =>
      match first_available preferred_langs available_auto with
      | Some lang => Some (lang, true)
      | None => None
      end
  end.

(** [lang] has a track in [available] and no language ranked before it in
    the preference list has one. *)
Definition highest_ranked (available : gmap str track) (lang : str) : Prop :=
  exists before after,
    preferred_langs = before ++ lang :: after /\
    is_Some (available !! lang) /\
    Forall (fun l => available !! l = None) before.

End Selector.
Arguments video_info : clear implicits.

(** ** Format parsers *)

Definition entry : Type := str * str.   (* (timestamp, text) *)

(** r"(\d{1,2}:\d{2}:\d{2}\.\d{3}|\d{2}:\d{2}\.\d{3})" *)
Definition VTT_TIMESTAMP : regex :=
  Alt (cat [Rep CDigit 1 (Some 2); Lit (lit ":"); times CDigit 2; Lit (lit ":");
            times CDigit 2; Lit (lit "."); times CDigit 3])
      (cat [times CDigit 2; Lit (lit ":"); times CDigit 2; Lit (lit ".");
            times CDigit 3]).

(** r"(\d{2}:\d{2}:\d{2})" *)
Definition SRT_TIMESTAMP : regex :=
  cat [times CDigit 2; Lit (lit ":"); times CDigit 2; Lit (lit ":"); times CDigit 2].

(** r"<[^>]+>" *)
Definition TAG : regex :=
  cat [Lit (lit "<"); Rep (CNot (chr ">")) 1 None; Lit (lit ">")].

(** r"\n\n+" *)
Definition BLANK_LINES : regex :=
  Seq (Lit [10%N]) (Rep (CIs 10%N) 1 None).

(** Lines 159-167 of [parse_vtt]: the display timestamp of a stripped line,
    when the line holds an arrow and starts with a timestamp. *)
Definition vtt_timestamp (line : str) : option str :=
  if contains line (lit "-->") then
    match re_match VTT_TIMESTAMP line with
    | Some timestamp =>
        let timestamp :=
          if count_char timestamp (chr ":") =? 1
          then lit "00:" ++ timestamp else timestamp in
        Some (take 8 timestamp)
    | None => None
    end
  else None.

(** Lines 175-179: tag removal, then the four entity substitutions. *)
Definition vtt_clean_line (text_line : str) : str :=
  let text_line := re_sub TAG [] text_line in
  let text_line := re_sub (Lit (lit "&amp;")) (lit "&") text_line in
  let text_line := re_sub (Lit (lit "&lt;")) (lit "<") text_line in
  let text_line := re_sub (Lit (lit "&gt;")) (lit ">") text_line in
  let text_line := re_sub (Lit (lit "&nbsp;")) (lit " ") text_line in
  text_line.

(** The inner loop (lines 172-182) on [lines[i:]]: the collected text lines
    and the lines left when it stops. *)
Fixpoint vtt_text_lines (lines : list str) (text_lines : list str)
  : list str * list str :=
  match lines with
  | [] => (text_lines, [])
  | l :: rest =>
      if nonempty (strip l) then
        let text_line := vtt_clean_line (strip l) in
        vtt_text_lines rest
          (if nonempty text_line then text_lines ++ [text_line] else text_lines)
      else (text_lines, lines)
  end.

(** The header loop (line 152) on [lines[i:]]. *)
Fixpoint vtt_skip_header (lines : list str) : list str :=
  match lines with
  | [] => []
  | l :: rest =>
      if negb (startswith (strip l) (lit "00:")) && negb (contains l (lit "-->"))
      then vtt_skip_header rest
      else lines
  end.

(** [inspect x] keeps the equation between [x] and the pattern it is matched
    against. *)
Definition inspect {A : Type} (x : A) : {y : A | x = y} := exist _ x eq_refl.

(** The main loop (lines 155-189) on [lines[i:]]. *)
Equations? vtt_cues (lines : list str) (entries : list entry) : list entry
  by wf (length lines) lt :=
vtt_cues [] entries := entries;
vtt_cues (l :: rest) entries with vtt_timestamp (strip l) := {
  | Some timestamp with inspect (vtt_text_lines rest []) := {
      | exist _ (text_lines, rest') _ :=
          vtt_cues rest'
            (match text_lines with
             | [] => entries
             | _ :: _ => entries ++ [(timestamp, join (lit " ") text_lines)]
             end) };
  | None := vtt_cues rest entries }.
Proof.
  assert (H : forall ls acc, length (snd (vtt_text_lines ls acc)) <= length ls).
  { induction ls as [|x ls IH]; intros acc; simpl; [lia|].
    destruct (nonempty (strip x)); simpl; [|lia].
    specialize (IH (if nonempty (vtt_clean_line (strip x))
                    then acc ++ [vtt_clean_line (strip x)] else acc)). lia. }
  specialize (H rest []). rewrite e in H. simpl in *. lia.
Qed.

Definition parse_vtt (content : str) : list entry :=
  vtt_cues (vtt_skip_header (splitlines content)) [].

(** One iteration of the loop of [parse_srt] (lines 199-218): the cue of a
    block, if it has one. *)
Definition srt_block (block : str) : option entry :=
  let lines := splitlines (strip block) in
  if length lines <? 3 then None
  else
    let timestamp_line := default [] (lines !! 1) in
    match re_match SRT_TIMESTAMP timestamp_line with
    | None => None
    | Some timestamp =>
        let text_lines := drop 2 lines in
        let text :=
          join (lit " ") (map strip (filter (fun t => nonempty (strip t) = true) text_lines)) in
        let text := re_sub TAG [] text in
        if nonempty text then Some (timestamp, text) else None
    end.

Definition parse_srt (content : str) : list entry :=
  let blocks := re_split BLANK_LINES (strip content) in
  fold_left (fun entries block =>
               match srt_block block with
               | Some e => entries ++ [e]
               | None => entries
               end) blocks [].

(** ** Dispatch ([parse_subtitle_file])

    The parsers that are called are recorded in call order next to the
    value, so that "which parser runs" is part of the result. *)

Inductive parser_call : Type := CallVTT | CallSRT.

Definition logged (A : Type) : Type := list parser_call * A.

Definition ret {A} (a : A) : logged A := ([], a).

Definition bind {A B} (m : logged A) (f : A -> logged B) : logged B :=
  let '(log1, a) := m in
  let '(log2, b) := f a in
  (log1 ++ log2, b).

Definition call_parse_vtt (content : str) : logged (list entry) :=
  ([CallVTT], parse_vtt content).

Definition call_parse_srt (content : str) : logged (list entry) :=
  ([CallSRT], parse_srt content).

(** [ext] is [Path(filepath).suffix.lower()] and [content] the text read from
    the file. *)
Definition parse_subtitle_file_logged (ext content : str) : logged (list entry) :=
  if str_eqb ext (lit ".vtt") then call_parse_vtt content
  else if str_eqb ext (lit ".srt") then call_parse_srt content
  else
    bind (call_parse_vtt content) (fun entries =>
      match entries with
      | [] => call_parse_srt content
      | _ :: _ => ret entries
      end).

Definition parse_subtitle_file (ext content : str) : list entry :=
  snd (parse_subtitle_file_logged ext content).

(** ** Deduplicator *)

(** The loop of [find_overlap]: [i] runs from [max_overlap] down to 1. *)
Fixpoint find_overlap_from (i : nat) (prev curr : str) : nat :=
  match i with
  | 0 => 0
  | S i' => if endswith prev (take i curr) then i
            else find_overlap_from i' prev curr
  end.

Definition find_overlap (prev curr : str) : nat :=
  let max_overlap := min (length prev) (length curr) in
  find_overlap_from max_overlap prev curr.

(** [l[-1]] and [l[-1] = x] on a list. *)
Definition last_item (l : list str) : str := List.last l [].

Definition set_last (l : list str) (x : str) : list str :=
  <[pred (length l) := x]> l.

(** The loop state: [(merged_parts, timestamps)]. *)
Definition dedup_state : Type := list str * list str.

(** One iteration of the loop of [deduplicate_entries] (lines 261-283). *)
Definition dedup_step (st : dedup_state) (e : entry) : dedup_state :=
  let '(merged_parts, timestamps) := st in
  let '(ts, text) := e in
  let prev_text := last_item merged_parts in
  if str_eqb text prev_text then st
  else if contains text prev_text then (set_last merged_parts text, timestamps)
  else if contains prev_text text then st
  else
    let overlap := find_overlap prev_text text in
    if 5 <? overlap then
      let new_part := strip (drop overlap text) in
      if nonempty new_part
      then (set_last merged_parts (prev_text ++ lit " " ++ new_part), timestamps)
      else st
    else (merged_parts ++ [text], timestamps ++ [ts]).

Definition deduplicate_entries (entries : list entry) : list entry :=
  match entries with
  | [] => entries
  | (ts0, text0) :: rest =>
      let '(merged_parts, timestamps) := fold_left dedup_step rest ([text0], [ts0]) in
      combine timestamps merged_parts
  end.

(** ** Transcript Renderer *)

(** "자막을 파싱할 수 없습니다." *)
Definition NO_CAPTIONS : str :=
  [51088; 47561; 51012; 32; 54028; 49905; 54624; 32; 49688; 32;
   50630; 49845; 45768; 45796; 46]%N.

(** "*언어: ", " (한국어)" and " (영어)" *)
Definition LANG_HEADER : str := [42; 50616; 50612; 58; 32]%N.
Definition LABEL_KO : str := [32; 40; 54620; 44397; 50612; 41]%N.
Definition LABEL_EN : str := [32; 40; 50689; 50612; 41]%N.

(** [lang] is a string or [None]. *)
Definition format_subtitle_output (entries : list entry) (lang : option str) : str :=
  match entries with
  | [] => NO_CAPTIONS
  | _ :: _ =>
      let lang_label :=
        match lang with
        | Some l =>
            if nonempty l then
              if startswith l (lit "ko") then LABEL_KO
              else if startswith l (lit "en") then LABEL_EN
              else []
            else []
        | None => []
        end in
      let lines :=
        [LANG_HEADER ++ default (lit "None") lang ++ lang_label ++ lit "*"; []] in
      let lines :=
        fold_left (fun lines e =>
                     lines ++ [lit "[" ++ fst e ++ lit "] " ++ snd e])
                  entries lines in
      join [10%N] lines
  end.

(** Lines 351-353 of [main]: parse, deduplicate, render. *)
Definition transcript (ext content : str) (lang : option str) : str :=
  let entries := parse_subtitle_file ext content in
  let entries := deduplicate_entries entries in
  format_subtitle_output entries lang.

(** ** Metadata formatting ([format_duration], [format_date]) *)

(** "알 수 없음" *)
Definition UNKNOWN : str := [50508; 32; 49688; 32; 50630; 51020]%N.

(** The decimal digits of a number, most significant first. *)
Fixpoint str_of_uint (u : Decimal.uint) : str :=
  match u with
  | Decimal.Nil => []
  | Decimal.D0 u' => 48%N :: str_of_uint u'
  | Decimal.D1 u' => 49%N :: str_of_uint u'
  | Decimal.D2 u' => 50%N :: str_of_uint u'
  | Decimal.D3 u' => 51%N :: str_of_uint u'
  | Decimal.D4 u' => 52%N :: str_of_uint u'
  | Decimal.D5 u' => 53%N :: str_of_uint u'
  | Decimal.D6 u' => 54%N :: str_of_uint u'
  | Decimal.D7 u' => 55%N :: str_of_uint u'
  | Decimal.D8 u' => 56%N :: str_of_uint u'
  | Decimal.D9 u' => 57%N :: str_of_uint u'
  end.

(** [f"{z}"] for an [int]: [str(z)]. *)
Definition format_d (z : Z) : str :=
  match Z.to_int z with
  | Decimal.Pos u => str_of_uint u
  | Decimal.Neg u => chr "-" :: str_of_uint u
  end.

(** [f"{z:02d}"]: the sign, then the digits filled with zeros on the left up
    to a total width of 2. *)
Definition format_02d (z : Z) : str :=
  match Z.to_int z with
  | Decimal.Pos u =>
      let digits := str_of_uint u in replicate (2 - length digits) 48%N ++ digits
  | Decimal.Neg u =>
      let digits := str_of_uint u in
      chr "-" :: replicate (1 - length digits) 48%N ++ digits
  end.

(** [seconds] is [None] or the integer [int(seconds)]; [//] and [%] are the
    floor division and its remainder, as [Z.div] and [Z.modulo] are for a
    positive divisor. *)
Definition format_duration (seconds : option Z) : str :=
  match seconds with
  | None => UNKNOWN
  | Some seconds =>
      let h := (seconds / 3600)%Z in
      let m := ((seconds mod 3600) / 60)%Z in
      let s := (seconds mod 60)%Z in
      if (0 <? h)%Z
      then format_d h ++ lit ":" ++ format_02d m ++ lit ":" ++ format_02d s
      else format_d m ++ lit ":" ++ format_02d s
  end.

(** [date_str] is [None] or a string. *)
Definition format_date (date_str : option str) : str :=
  match date_str with
  | None => UNKNOWN
  | Some d =>
      if nonempty d then
        if length d =? 8
        then take 4 d ++ lit "-" ++ take 2 (drop 4 d) ++ lit "-" ++ drop 6 d
        else d
      else UNKNOWN
  end.

(** ** Caption section of the report ([extract_subtitles] and lines 346-357, 376 of [main])

    The calls into yt-dlp and the file system are the fields of a
    [provider]: each one either returns or raises, and an exception leaves
    [extract_subtitles] at the call that raised it. *)

Inductive outcome (A : Type) : Type :=
| Returned (a : A)
| Raised (msg : str).        (* [str(e)] of the exception *)
Arguments Returned {A} a.
Arguments Raised {A} msg.

(** "이 영상에는 자막이 없습니다." *)
Definition NO_SUBTITLES : str :=
  [51060; 32; 50689; 49345; 50640; 45716; 32; 51088; 47561; 51060; 32;
   50630; 49845; 45768; 45796; 46]%N.

(** "*언어 " and "의 자막을 찾았으나 다운로드에 실패했습니다.*" *)
Definition DOWNLOAD_FAILED_1 : str := [42; 50616; 50612; 32]%N.
Definition DOWNLOAD_FAILED_2 : str :=
  [51032; 32; 51088; 47561; 51012; 32; 52286; 50520; 51004; 45208; 32;
   45796; 50868; 47196; 46300; 50640; 32; 49892; 54056; 54664; 49845;
   45768; 45796; 46; 42]%N.

(** "*자막 추출 중 오류 발생: " *)
Definition EXTRACT_ERROR : str :=
  [42; 51088; 47561; 32; 52628; 52636; 32; 51473; 32; 50724; 47448; 32;
   48156; 49373; 58; 32]%N.

Definition SUBTITLE_EXTS : list str := [lit "vtt"; lit "srt"; lit "srv3"; lit "ttml"].

(** Lines 132-137: [glob ext] is [list(Path(tmpdir).glob(f"*.{ext}"))] as
    strings; the first file of the first extension that has one. *)
Fixpoint first_candidate (exts : list str) (glob : str -> list str) : option str :=
  match exts with
  | [] => None
  | ext :: rest =>
      match glob ext with
      | f :: _ => Some f
      | [] => first_candidate rest glob
      end
  end.

Section CaptionSection.
Context {track : Type}.

Record provider : Type := {
  (** [import yt_dlp] succeeds *)
  yt_dlp_installed : bool;
  (** [ydl.extract_info(url, download=False)] of line 87 *)
  extract_info : outcome (video_info track);
  (** [ydl.download([url])] of line 129 for the chosen language and kind
      of track, and what the temporary directory holds afterwards *)
  download : str -> bool -> outcome (str -> list str);
  (** [f.read()] and [Path(filepath).suffix.lower()] of [parse_subtitle_file] *)
  read_text : str -> outcome str;
  suffix : str -> str
}.

(** The pair [(subtitle_file, chosen_lang)]. *)
Definition extract_subtitles (w : provider) : outcome (option str * option str) :=
  if negb (yt_dlp_installed w) then Returned (None, None)
  else
    match extract_info w with
    | Raised msg => Raised msg
    | Returned info =>
        match select_track info with
        | None => Returned (None, None)
        | Some (chosen_lang, is_auto) =>
            match download w chosen_lang is_auto with
            | Raised msg => Raised msg
            | Returned glob =>
                match first_candidate SUBTITLE_EXTS glob with
                | None => Returned (None, Some chosen_lang)
                | Some subtitle_file => Returned (Some subtitle_file, Some chosen_lang)
                end
            end
        end
    end.

(** Truthiness of [None] or a string. *)
Definition truthy (s : option str) : bool :=
  match s with Some (_ :: _) => true | _ => false end.

(** Lines 346-357: [subtitle_text]. *)
Definition subtitle_text (w : provider) : option str :=
  match extract_subtitles w with
  | Raised e => Some (EXTRACT_ERROR ++ e ++ lit "*")
  | Returned (subtitle_file, lang) =>
      if truthy subtitle_file then
        let filepath := default [] subtitle_file in
        match read_text w filepath with
        | Raised e => Some (EXTRACT_ERROR ++ e ++ lit "*")
        | Returned content => Some (transcript (suffix w filepath) content lang)
        end
      else if truthy lang then
        Some (DOWNLOAD_FAILED_1 ++ default [] lang ++ DOWNLOAD_FAILED_2)
      else None
  end.

(** Line 376: the text under the caption heading. *)
Definition caption_section (w : provider) : str :=
  let text := subtitle_text w in
  if truthy text then default [] text else NO_SUBTITLES.

End CaptionSection.
Arguments provider : clear implicits.

(** ** Sample inputs *)

(** The text of a file given by its lines, joined by line feeds. *)
Definition text_of_lines (ls : list string) : str := join [10%N] (map lit ls).

Definition sample_srt : str :=
  text_of_lines
    ["1"; "00:00:01,000 --> 00:00:02,500"; "Hello <i>there</i>"; ""]%string.

(** Two SRT blocks: the text of the first is a pair of tags, the second has
    words. *)
Definition sample_srt_tag_only : str :=
  text_of_lines
    ["1"; "00:00:01,000 --> 00:00:02,000"; "<i></i>"; "";
     "2"; "00:00:04,000 --> 00:00:05,000"; "<b>kept</b>"; ""]%string.

(** A WebVTT file whose only cue has a one-digit hour field. *)
Definition sample_vtt_one_digit_hour : str :=
  text_of_lines
    ["WEBVTT"; ""; "1:23:45.678 --> 1:23:47.000"; "hello"; ""]%string.

(** A WebVTT file whose cue text carries tags and an entity. *)
Definition sample_vtt_markup : str :=
  text_of_lines
    ["WEBVTT"; ""; "00:00:01.000 --> 00:00:02.000";
     "<c>Hello</c> &amp; World"; ""]%string.

(** A WebVTT file whose cue text is the escaped form of the text &lt;. *)
Definition sample_vtt_nested_entity : str :=
  text_of_lines
    ["WEBVTT"; ""; "00:00:01.000 --> 00:00:02.000"; "&amp;lt;"; ""]%string.

(** A WebVTT file and an SRT file whose cue text is a pair of tags around
    one space. *)
Definition sample_vtt_blank_markup : str :=
  text_of_lines
    ["WEBVTT"; ""; "00:00:01.000 --> 00:00:02.000"; "<c> </c>"; ""]%string.

Definition sample_srt_blank_markup : str :=
  text_of_lines
    ["1"; "00:00:01,000 --> 00:00:02,000"; "<i> </i>"; ""]%string.

(** An SRT file whose cue text is an opening tag on one line and the closing
    tag on the next. *)
Definition sample_srt_tag_lines : str :=
  text_of_lines
    ["1"; "00:00:01,000 --> 00:00:02,000"; "<i>"; "</i>"; ""]%string.

(** A WebVTT file and an SRT file whose first cue has a text of tags with
    white space around them. *)
Definition sample_vtt_padded_tags : str :=
  text_of_lines
    ["WEBVTT"; ""; "00:00:01.000 --> 00:00:02.000"; "  <c></c> "; " <b> "; "";
     "00:00:03.000 --> 00:00:04.000"; "kept"; ""]%string.

Definition sample_srt_padded_tags : str :=
  text_of_lines
    ["1"; "00:00:01,000 --> 00:00:02,000"; "  <i></i> "; "";
     "2"; "00:00:04,000 --> 00:00:05,000"; "<b>kept</b>"; ""]%string.

(** Two SRT cues whose separating line holds one space. *)
Definition sample_srt_spaced : str :=
  text_of_lines
    ["1"; "00:00:01,000 --> 00:00:02,000"; "Hello"; " ";
     "2"; "00:00:03,000 --> 00:00:04,000"; "World"; ""]%string.

(** A catalog with manual tracks for en-US and fr and automatic ones for ko
    and en: the manual en-US track wins over the higher-ranked automatic
    languages. *)
Definition sample_info : video_info nat :=
  {| subtitles := Some {[ lit "en-US" := 1; lit "fr" := 2 ]};
     automatic_captions := Some {[ lit "ko" := 3; lit "en" := 4 ]} |}.

(** A run in which the manual en-US track of [sample_info] is downloaded as
    one WebVTT file. *)
Definition sample_provider : provider nat :=
  {| yt_dlp_installed := true;
     extract_info := Returned sample_info;
     download := fun _ _ =>
       Returned (fun ext => if str_eqb ext (lit "vtt")
                            then [lit "/tmp/x/subtitle.en-US.vtt"] else []);
     read_text := fun _ => Returned sample_vtt_markup;
     suffix := fun _ => lit ".vtt" |}.

(** ** Specification vocabulary *)

(** [ts] reads HH:MM:SS: two digits, a colon, two digits, a colon, two
    digits. *)
Definition is_hhmmss (ts : str) : bool :=
  match ts with
  | [h1; h2; c1; m1; m2; c2; s1; s2] =>
      is_decimal h1 && is_decimal h2 && (c1 =? chr ":")%N &&
      is_decimal m1 && is_decimal m2 && (c2 =? chr ":")%N &&
      is_decimal s1 && is_decimal s2
  | _ => false
  end.

(** The text of a cue is not the empty string. *)
Definition has_text (e : entry) : Prop := snd e <> [].

(** [sub] occurs in [s]; [w] ends [prev] and starts [curr]. *)
Definition substr (sub s : str) : Prop := exists a b, s = a ++ sub ++ b.

Definition is_overlap (prev curr w : str) : Prop :=
  (exists a, prev = a ++ w) /\ (exists b, curr = w ++ b).

(** [n] is the length of the longest suffix of [prev] that is a prefix of
    [curr]. *)
Definition longest_overlap (prev curr : str) (n : nat) : Prop :=
  (exists w, is_overlap prev curr w /\ length w = n) /\
  (forall w, is_overlap prev curr w -> length w <= n).

(** The words of a pattern. *)
Fixpoint matches (r : regex) (w : str) : Prop :=
  match r with
  | Lit p => w = p
  | Rep c lo hi =>
      lo <= length w /\
      match hi with Some h => length w <= h | None => True end /\
      Forall (fun x => in_class c x = true) w
  | Seq r1 r2 => exists w1 w2, w = w1 ++ w2 /\ matches r1 w1 /\ matches r2 w2
  | Alt r1 r2 => matches r1 w \/ matches r2 w
  end.

(** [R] holds of every two neighbours of [l]. *)
Fixpoint adjacent {A : Type} (R : A -> A -> Prop) (l : list A) : Prop :=
  match l with
  | a :: t => match t with
              | b :: _ => R a b /\ adjacent R t
              | [] => True
              end
  | [] => True
  end.

(** What one loop iteration does to the open cue, seen from its text
    [prev_text] alone: [Some p] when the incoming [text] is absorbed and the
    open cue's text becomes [p], [None] when [text] opens a new cue. *)
Definition merge_text (prev_text text : str) : option str :=
  if str_eqb text prev_text then Some prev_text
  else if contains text prev_text then Some text
  else if contains prev_text text then Some prev_text
  else
    let overlap := find_overlap prev_text text in
    if 5 <? overlap then
      let new_part := strip (drop overlap text) in
      if nonempty new_part then Some (prev_text ++ lit " " ++ new_part)
      else Some prev_text
    else None.

(** The deduplicator as a recursion on the cues that follow the open cue
    [(t, p)]. *)
Fixpoint dedup_from (t p : str) (es : list entry) : list entry :=
  match es with
  | [] => [(t, p)]
  | (ts, text) :: es' =>
      match merge_text p text with
      | Some p' => dedup_from t p' es'
      | None => (t, p) :: dedup_from ts text es'
      end
  end.

(** The later of two neighbouring cues has a text that does not occur in the
    text of the earlier one. *)
Definition not_sub_of (a b : entry) : Prop := ~ substr (snd b) (snd a).

(** The two texts of a clean pair: different, neither inside the other, and
    no suffix of [prev] longer than 5 starts [curr]. *)
Definition clean_pair (prev curr : str) : Prop :=
  prev <> curr /\ ~ substr prev curr /\ ~ substr curr prev /\
  (forall w, is_overlap prev curr w -> length w <= 5).

(** A group of consecutive input cues and the output cue it collapses to:
    the group is not empty, the output cue has the timestamp of the group's
    first cue, and the group deduplicated on its own gives that cue. *)
Definition group_of (g : list entry) (out : entry) : Prop :=
  exists e rest, g = e :: rest /\ fst out = fst e /\ deduplicate_entries g = [out].

(** A [one_digit_hour] line starts H:MM:SS. with a single hour digit, and
    [ts] is those eight characters. *)
Definition one_digit_hour (line ts : str) : Prop :=
  exists h m1 m2 s1 s2 rest,
    line = [h; chr ":"; m1; m2; chr ":"; s1; s2; chr "."] ++ rest /\
    is_decimal h = true /\
    ts = [h; chr ":"; m1; m2; chr ":"; s1; s2; chr "."].

(** *** Marked-up text lines

    A text line seen as a sequence of tokens: plain characters, tags and
    the four entities. *)

Inductive entity : Type := EAmp | ELt | EGt | ENbsp.

Inductive token : Type :=
| Plain (c : char)
| Tag (body : str)       (* <body> *)
| Ent (e : entity).

Definition entity_text (e : entity) : str :=
  match e with
  | EAmp => lit "&amp;"
  | ELt => lit "&lt;"
  | EGt => lit "&gt;"
  | ENbsp => lit "&nbsp;"
  end.

Definition entity_char (e : entity) : char :=
  match e with
  | EAmp => chr "&"
  | ELt => chr "<"
  | EGt => chr ">"
  | ENbsp => chr " "
  end.

(** The substitution that decodes [e]: tags go first (substitution 0), then
    the entities in this order. *)
Definition entity_pass (e : entity) : nat :=
  match e with EAmp => 1 | ELt => 2 | EGt => 3 | ENbsp => 4 end.

(** The text of a token after the first [n] of the five substitutions. *)
Definition stage (n : nat) (t : token) : str :=
  match t with
  | Plain c => [c]
  | Tag body => if n =? 0 then chr "<" :: body ++ [chr ">"] else []
  | Ent e => if entity_pass e <? n then [entity_char e] else entity_text e
  end.

Definition text_at (n : nat) (toks : list token) : str := flat_map (stage n) toks.

(** The line as written, and the line with tags dropped and entities
    replaced by their characters. *)
Definition source (toks : list token) : str := text_at 0 toks.
Definition meaning (toks : list token) : str := text_at 5 toks.

(** A [<] that starts no tag: what follows it starts with [>] or holds no
    [>]. *)
Definition starts_no_tag (u : str) : Prop :=
  startswith u (lit ">") = true \/ Forall (fun c => c <> chr ">") u.

(** The tokens are the ones a reader of the line sees.  A plain [<] starts
    no tag.  After a plain [&], the decoded text does not read [amp;],
    [lt;], [gt;] or [nbsp;]: the [&] starts no entity, also once the tags
    are gone.  A tag body is not empty and holds no [>].  And what follows
    an [&amp;] does not read [lt;], [gt;] or [nbsp;] once decoded. *)
Fixpoint well_formed (toks : list token) : Prop :=
  match toks with
  | [] => True
  | t :: rest =>
      well_formed rest /\
      match t with
      | Plain c =>
          (c = chr "<" -> starts_no_tag (source rest)) /\
          (c = chr "&" ->
           startswith (meaning rest) (lit "amp;") = false /\
           startswith (meaning rest) (lit "lt;") = false /\
           startswith (meaning rest) (lit "gt;") = false /\
           startswith (meaning rest) (lit "nbsp;") = false)
      | Tag body => body <> [] /\ Forall (fun c => c <> chr ">") body
      | Ent EAmp =>
          startswith (meaning rest) (lit "lt;") = false /\
          startswith (meaning rest) (lit "gt;") = false /\
          startswith (meaning rest) (lit "nbsp;") = false
      | Ent _ => True
      end
  end.

(** What follows an [&amp;] does not read [lt;], [gt;] or [nbsp;] once
    decoded, and what follows a plain [&] reads none of these, nor [amp;]:
    the part of [well_formed] that is about the line and not about the way
    it is cut into tokens. *)
Fixpoint settled (toks : list token) : Prop :=
  match toks with
  | [] => True
  | t :: rest =>
      settled rest /\
      match t with
      | Plain c =>
          c = chr "&" ->
          startswith (meaning rest) (lit "amp;") = false /\
          startswith (meaning rest) (lit "lt;") = false /\
          startswith (meaning rest) (lit "gt;") = false /\
          startswith (meaning rest) (lit "nbsp;") = false
      | Tag _ => True
      | Ent EAmp =>
          startswith (meaning rest) (lit "lt;") = false /\
          startswith (meaning rest) (lit "gt;") = false /\
          startswith (meaning rest) (lit "nbsp;") = false
      | Ent _ => True
      end
  end.

(** The entity written at the start of [s]. *)
Definition entity_at (s : str) : option entity :=
  if startswith s (lit "&amp;") then Some EAmp
  else if startswith s (lit "&lt;") then Some ELt
  else if startswith s (lit "&gt;") then Some EGt
  else if startswith s (lit "&nbsp;") then Some ENbsp
  else None.

(** The tokens of a line, read from left to right: a tag where the tag
    pattern matches, an entity where one is written, a plain character
    elsewhere.  [skip] counts the characters of the current token still to
    be passed over. *)
Fixpoint tokens_from (skip : nat) (s : str) : list token :=
  match s with
  | [] => []
  | c :: rest =>
      match skip with
      | S n => tokens_from n rest
      | 0 =>
          match re_match TAG s with
          | Some (_ :: m) => Tag (removelast m) :: tokens_from (length m) rest
          | _ =>
              match entity_at s with
              | Some e => Ent e :: tokens_from (length (entity_text e) - 1) rest
              | None => Plain c :: tokens_from 0 rest
              end
          end
      end
  end.

Definition tokens (s : str) : list token := tokens_from 0 s.

(** The tokens of the line <c>Hello</c> &amp; World. *)
Definition sample_tokens : list token :=
  [Tag (lit "c")] ++ map Plain (lit "Hello") ++
  [Tag (lit "/c"); Plain (chr " "); Ent EAmp] ++ map Plain (lit " World").

(** The tokens of the line &amp;lt;: the entity of [&], then the plain
    characters [lt;]. *)
Definition nested_tokens : list token :=
  Ent EAmp :: map Plain (lit "lt;").

(** The tokens of the line &<c>amp;: a plain [&], a tag, and the plain
    characters [amp;]. *)
Definition split_tokens : list token :=
  Plain (chr "&") :: Tag (lit "c") :: map Plain (lit "amp;").

(** The tokens of the line <c> </c>: one space between two tags. *)
Definition blank_tokens : list token :=
  [Tag (lit "c"); Plain (chr " "); Tag (lit "/c")].

(** *** Lines without text

    White space only; tags only; tags only with white space around. *)

Definition blank (s : str) : Prop := Forall (fun c => is_space c = true) s.

Definition is_tag (t : token) : Prop :=
  match t with
  | Tag body => body <> [] /\ Forall (fun c => c <> chr ">") body
  | _ => False
  end.

Definition tags_only (s : str) : Prop :=
  exists toks, s = source toks /\ Forall is_tag toks.

Definition markup_only (line : str) : Prop :=
  exists pad1 tags pad2,
    line = pad1 ++ tags ++ pad2 /\ blank pad1 /\ blank pad2 /\
    tags <> [] /\ tags_only tags.

(** *** Shapes of cue texts and of the rendered transcript *)

(** [s] holds a tag: a [<], a non-empty body without [>], and a [>]. *)
Definition has_tag (s : str) : Prop :=
  exists a body b,
    s = a ++ chr "<" :: body ++ chr ">" :: b /\
    body <> [] /\ Forall (fun c => c <> chr ">") body.

(** [s] holds no line boundary of [str.splitlines]; a cue whose timestamp
    and text are such strings. *)
Definition no_linebreak (s : str) : Prop := Forall (fun c => is_linebreak c = false) s.

Definition single_line (e : entry) : Prop := no_linebreak (fst e) /\ no_linebreak (snd e).

(** The lines of a rendered transcript: the header with the language and
    its label, and the line of a cue. *)
Definition lang_label (lang : option str) : str :=
  match lang with
  | Some l =>
      if startswith l (lit "ko") then LABEL_KO
      else if startswith l (lit "en") then LABEL_EN
      else []
  | None => []
  end.

Definition header_line (lang : option str) : str :=
  LANG_HEADER ++ default (lit "None") lang ++ lang_label lang ++ lit "*".

Definition cue_line (e : entry) : str := lit "[" ++ fst e ++ lit "] " ++ snd e.

(** *** Reading a printed duration

    The fields of a clock text between its colons, read as decimal numbers,
    and the number of seconds they stand for. *)

Fixpoint split_on (c : char) (cur s : str) : list str :=
  match s with
  | [] => [cur]
  | x :: s' => if (x =? c)%N then cur :: split_on c [] s' else split_on c (cur ++ [x]) s'
  end.

Fixpoint uint_of_str (s : str) : option Decimal.uint :=
  match s with
  | [] => Some Decimal.Nil
  | c :: s' =>
      match uint_of_str s' with
      | None => None
      | Some u =>
          match c with
          | 48 => Some (Decimal.D0 u) | 49 => Some (Decimal.D1 u)
          | 50 => Some (Decimal.D2 u) | 51 => Some (Decimal.D3 u)
          | 52 => Some (Decimal.D4 u) | 53 => Some (Decimal.D5 u)
          | 54 => Some (Decimal.D6 u) | 55 => Some (Decimal.D7 u)
          | 56 => Some (Decimal.D8 u) | 57 => Some (Decimal.D9 u)
          | _ => None
          end%N
      end
  end.

Definition read_number (s : str) : option Z :=
  match s with
  | [] => None
  | _ :: _ => option_map Z.of_uint (uint_of_str s)
  end.

Definition clock_seconds (s : str) : option Z :=
  match map read_number (split_on (chr ":") [] s) with
  | [Some m; Some s] => Some (60 * m + s)%Z
  | [Some h; Some m; Some s] => Some (3600 * h + 60 * m + s)%Z
  | _ => None
  end.

(** *** What a caption section reports *)

Inductive report : Type :=
| Transcript          (* header and cue lines *)
| NoCues              (* a file was read and holds no cue *)
| DownloadFailed      (* a track was chosen and no file appeared *)
| NoCaptions          (* no track in a preferred language, or no yt-dlp *)
| ExtractError.       (* a call raised *)

(** The report that a section text stands for, read off its first
    characters. *)
Definition report_of_text (s : str) : option report :=
  if startswith s LANG_HEADER then Some Transcript
  else if str_eqb s NO_CAPTIONS then Some NoCues
  else if startswith s DOWNLOAD_FAILED_1 then Some DownloadFailed
  else if str_eqb s NO_SUBTITLES then Some NoCaptions
  else if startswith s EXTRACT_ERROR then Some ExtractError
  else None.

(** What happened in a run. *)
Inductive run_of {track : Type} (w : provider track) : report -> Prop :=
| run_not_installed :
    yt_dlp_installed w = false -> run_of w NoCaptions
| run_info_raised msg :
    yt_dlp_installed w = true -> extract_info w = Raised msg -> run_of w ExtractError
| run_no_track info :
    yt_dlp_installed w = true -> extract_info w = Returned info ->
    select_track info = None -> run_of w NoCaptions
| run_download_raised info lang is_auto msg :
    yt_dlp_installed w = true -> extract_info w = Returned info ->
    select_track info = Some (lang, is_auto) ->
    download w lang is_auto = Raised msg -> run_of w ExtractError
| run_no_file info lang is_auto glob :
    yt_dlp_installed w = true -> extract_info w = Returned info ->
    select_track info = Some (lang, is_auto) ->
    download w lang is_auto = Returned glob ->
    Forall (fun ext => glob ext = []) SUBTITLE_EXTS -> run_of w DownloadFailed
| run_read_raised info lang is_auto glob f msg :
    yt_dlp_installed w = true -> extract_info w = Returned info ->
    select_track info = Some (lang, is_auto) ->
    download w lang is_auto = Returned glob ->
    first_candidate SUBTITLE_EXTS glob = Some f -> f <> [] ->
    read_text w f = Raised msg -> run_of w ExtractError
| run_parsed info lang is_auto glob f content :
    yt_dlp_installed w = true -> extract_info w = Returned info ->
    select_track info = Some (lang, is_auto) ->
    download w lang is_auto = Returned glob ->
    first_candidate SUBTITLE_EXTS glob = Some f -> f <> [] ->
    read_text w f = Returned content ->
    run_of w (match deduplicate_entries (parse_subtitle_file (suffix w f) content) with
              | [] => NoCues
              | _ :: _ => Transcript
              end).

(** * State-file migrations of the worktree manager

    Shallow embedding of the five scripts of [tools/wtm/migrations].  Each
    script loads a JSON file, returns early or upgrades the data in place,
    and writes the file back; the embedding is a function from the loaded
    data to what the run does. *)

Module Wtm.

(** ** JSON data as [json.load] returns it

    An object is a [dict] keyed by strings, a number an [int] of any size
    or a binary64 [float].  A dictionary is a finite map: the order in which
    [json.dump] writes the keys is not part of the data. *)

Local Set Warnings "-register-all".

Inductive json : Type :=
| JNull
| JBool (b : bool)
| JInt (z : Z)
| JFloat (f : float)
| JStr (s : str)
| JList (l : list json)
| JDict (d : gmap str json).

Abbreviation dict := (gmap str json).

(** Truthiness of a value: [bool(v)], as in [if v:] *)
Definition py_bool (v : json) : bool :=
  match v with
  | JNull => false
  | JBool b => b
  | JInt z => negb (z =? 0)%Z
  | JFloat f => negb (PrimFloat.eqb f 0)
  | JStr s => nonempty s
  | JList l => match l with [] => false | _ :: _ => true end
  | JDict d => negb (size d =? 0)
  end.

(** [a or b] *)
Definition py_or (a b : json) : json := if py_bool a then a else b.

(** [v >= n] and [v < n] for an [int] literal [n] between 0 and 2^53: a
    [bool] compares as 0 or 1, a [float] by value (both comparisons are
    false for a NaN), and [None] stands for the TypeError raised for any
    other value. *)
Definition float_of_int (n : Z) : float := PrimFloat.of_uint63 (Uint63.of_Z n).

Definition ge_int (v : json) (n : Z) : option bool :=
  match v with
  | JBool b => Some (n <=? (if b then 1 else 0))%Z
  | JInt z => Some (n <=? z)%Z
  | JFloat f => Some (PrimFloat.leb (float_of_int n) f)
  | _ => None
  end.

Definition lt_int (v : json) (n : Z) : option bool :=
  match v with
  | JBool b => Some ((if b then 1 else 0) <? n)%Z
  | JInt z => Some (z <? n)%Z
  | JFloat f => Some (PrimFloat.ltb f (float_of_int n))
  | _ => None
  end.

(** [d.get(k, v)] and [d.setdefault(k, v)] (the dictionary afterwards) *)
Definition dict_get (k : string) (v : json) (d : dict) : json := default v (d !! lit k).

Definition setdefault (k : string) (v : json) (d : dict) : dict :=
  match d !! lit k with
  | Some _ => d
  | None => <[lit k := v]> d
  end.

Definition is_dict (v : json) : bool :=
  match v with JDict _ => true | _ => false end.

Definition jstr (s : string) : json := JStr (lit s).

(** [for key, item in items.items(): body(item)], where the body updates
    the dictionary [item] in place and raises on anything that is not a
    dictionary: the items afterwards, or [None] when the loop raised. *)
Definition for_each_dict (body : dict -> dict) (items : dict) : option dict :=
  if forallb (fun kv => is_dict (snd kv)) (map_to_list items)
  then Some ((fun item => match item with
                          | JDict d => JDict (body d)
                          | _ => item
                          end) <$> items)
  else None.

(** ** What a run does *)

Inductive result : Type :=
| Written (data : json)     (* the file is rewritten with [data], exit status 0 *)
| AlreadyCurrent            (* [sys.exit(0)] before any change *)
| Refused                   (* message on stderr and [sys.exit(1)] *)
| Crashed.                  (* uncaught exception; the file is not touched *)

(** ** 001: sessions v1 to v2 *)

Definition session_v1_to_v2 (session : dict) : dict :=
  let session := setdefault "last_activity_at" (dict_get "created_at" JNull session) session in
  let session := setdefault "ttl_hours" (JInt 168) session in
  let session := setdefault "tags" (JList []) session in
  let session := setdefault "template" JNull session in
  let session := setdefault "parent_session" JNull session in
  let session :=
    setdefault "metrics"
      (JDict (list_to_map
         [(lit "commits", JInt 0); (lit "files_changed", JInt 0);
          (lit "lines_added", JInt 0); (lit "lines_removed", JInt 0);
          (lit "duration_minutes", JInt 0)])) session in
  let session :=
    setdefault "health"
      (JDict (list_to_map
         [(lit "worktree_ok", JBool true); (lit "tmux_ok", JBool true);
          (lit "watcher_ok", JBool true); (lit "symlinks_ok", JBool true);
          (lit "last_check", JNull)])) session in
  session.

(** The common frame of scripts 001 and 003: the version guard, the loop
    over [data.get("sessions", {})], and the new version. *)
Definition migrate_sessions (version : Z) (body : dict -> dict) (data : json) : result :=
  match data with
  | JDict data =>
      match ge_int (dict_get "version" (JInt 0) data) version with
      | None => Crashed
      | Some true => AlreadyCurrent
      | Some false =>
          match data !! lit "sessions" with
          | None => Written (JDict (<[lit "version" := JInt version]> data))
          | Some (JDict sessions) =>
              match for_each_dict body sessions with
              | Some sessions =>
                  Written (JDict (<[lit "version" := JInt version]>
                                    (<[lit "sessions" := JDict sessions]> data)))
              | None => Crashed
              end
          | Some _ => Crashed
          end
      end
  | _ => Crashed
  end.

Definition migrate_001 (data : json) : result := migrate_sessions 2 session_v1_to_v2 data.

(** ** 003: sessions v2 to v3

    [machine_id] is the value of
    [socket.gethostname().lower().replace(" ", "-")]. *)

Definition session_v2_to_v3 (machine_id : str) (session : dict) : dict :=
  let session := setdefault "child_sessions" (JList []) session in
  let session := setdefault "session_group" JNull session in
  let session :=
    setdefault "session_chain"
      (JDict (list_to_map [(lit "previous", JNull); (lit "next", JNull)])) session in
  let session :=
    setdefault "context"
      (JDict (list_to_map
         [(lit "journal_path", JNull); (lit "last_handoff", JNull);
          (lit "conversation_refs", JList [])])) session in
  let session :=
    setdefault "cross_project"
      (JDict (list_to_map
         [(lit "depends_on", JList []); (lit "depended_by", JList []);
          (lit "shared_group", JNull)])) session in
  let session :=
    setdefault "machine"
      (JDict (list_to_map
         [(lit "origin_machine", JStr machine_id); (lit "last_sync", JNull);
          (lit "sync_branch", JNull)])) session in
  session.

Definition migrate_003 (machine_id : str) (data : json) : result :=
  migrate_sessions 3 (session_v2_to_v3 machine_id) data.

(** ** 002 and 004: projects *)

Definition project_v0_to_v2 (default_cleanup : json) (project : dict) : dict :=
  let project := setdefault "branch_naming" (jstr "{type}/{name}") project in
  let project := setdefault "conventional_commits" (JBool true) project in
  let project := setdefault "pr_template" (JBool true) project in
  let project := setdefault "auto_cleanup_days" default_cleanup project in
  let project :=
    setdefault "symlink_patterns"
      (JList [jstr "node_modules:dir"; jstr "frontend/node_modules:dir";
              jstr ".env:file"]) project in
  let project :=
    setdefault "hooks"
      (JDict (list_to_map
         [(lit "post_create", JList []); (lit "pre_kill", JList []);
          (lit "post_kill", JList [])])) project in
  project.

Definition defaults_v0_to_v2 (defaults : dict) : dict :=
  let defaults := setdefault "worktree_root" (jstr "~/.wtm/worktrees") defaults in
  let defaults := setdefault "cleanup_after_days" (JInt 14) defaults in
  let defaults := setdefault "health_check_interval_minutes" (JInt 30) defaults in
  let defaults := setdefault "max_sessions_per_project" (JInt 10) defaults in
  let defaults := setdefault "disk_warning_gb" (JInt 5) defaults in
  defaults.

Definition project_v2_to_v3 (project : dict) : dict :=
  let project := setdefault "dependencies" (JList []) project in
  let project := setdefault "monorepo_packages" (JList []) project in
  let project := setdefault "discovery_paths" (JList []) project in
  project.

Definition defaults_v2_to_v3 (defaults : dict) : dict :=
  let defaults := setdefault "auto_discover" (JBool false) defaults in
  let defaults :=
    setdefault "discovery_paths"
      (JList [jstr "~/Projects"; jstr "~/work"; jstr "~/repos"]) defaults in
  let defaults := setdefault "sync_remote" (jstr "origin") defaults in
  let defaults := setdefault "sync_branch_prefix" (jstr "wtm-state") defaults in
  defaults.

(** The common frame of scripts 002 and 004.  [project_body] gets the
    dictionary under ["defaults"] as it is before the run ([{}] when the
    key is absent); a value under ["defaults"] that is not a dictionary
    makes [defaults.setdefault] raise. *)
Definition migrate_projects (version : Z) (project_body : dict -> dict -> dict)
    (defaults_body : dict -> dict) (extra_key : string) (data : json) : result :=
  match data with
  | JDict data =>
      match ge_int (dict_get "version" (JInt 0) data) version with
      | None => Crashed
      | Some true => AlreadyCurrent
      | Some false =>
          match dict_get "defaults" (JDict ∅) data, dict_get "aliases" (JDict ∅) data with
          | JDict defaults, JDict aliases =>
              match for_each_dict (project_body defaults) aliases with
              | Some aliases' =>
                  let data :=
                    match data !! lit "aliases" with
                    | Some _ => <[lit "aliases" := JDict aliases']> data
                    | None => data
                    end in
                  let data := <[lit "defaults" := JDict (defaults_body defaults)]> data in
                  let data := setdefault extra_key (JDict ∅) data in
                  Written (JDict (<[lit "version" := JInt version]> data))
              | None => Crashed
              end
          | _, _ => Crashed
          end
      end
  | _ => Crashed
  end.

Definition migrate_002 (data : json) : result :=
  migrate_projects 2
    (fun defaults => project_v0_to_v2 (dict_get "cleanup_after_days" (JInt 14) defaults))
    defaults_v0_to_v2 "templates" data.

Definition migrate_004 (data : json) : result :=
  migrate_projects 3 (fun _ => project_v2_to_v3) defaults_v2_to_v3 "machines" data.

(** ** 005: sessions v3 to v4 *)

Definition TMUX_TERMINAL (tmux_name : json) : json :=
  JDict (list_to_map
    [(lit "type", jstr "tmux"); (lit "session_name", tmux_name); (lit "pid", JNull);
     (lit "capabilities",
      JList [jstr "launch"; jstr "send_command"; jstr "check_alive"; jstr "kill"])]).

Definition UNKNOWN_TERMINAL : json :=
  JDict (list_to_map
    [(lit "type", jstr "unknown"); (lit "session_name", JNull); (lit "pid", JNull);
     (lit "capabilities", JList [jstr "launch"])]).

Definition migrate_session (session : dict) : dict :=
  if is_dict (dict_get "terminal" JNull session) then session
  else
    let tmux_name :=
      py_or (py_or (dict_get "tmux" JNull session) (dict_get "tmux_session" JNull session))
            (JStr []) in
    let session :=
      if py_bool tmux_name
      then <[lit "terminal" := TMUX_TERMINAL tmux_name]> session
      else <[lit "terminal" := UNKNOWN_TERMINAL]> session in
    match session !! lit "health" with
    | Some (JDict health) =>
        match health !! lit "tmux_ok" with
        | Some tmux_ok =>
            <[lit "health" := JDict (<[lit "terminal_ok" := tmux_ok]> health)]> session
        | None => session
        end
    | _ => session
    end.

(** [main], after the argument check and [json.load]. *)
Definition migrate_005 (data : json) : result :=
  match data with
  | JDict data =>
      let current_version := dict_get "version" (JInt 0) data in
      match ge_int current_version 4 with
      | None => Crashed
      | Some true => AlreadyCurrent
      | Some false =>
          match lt_int current_version 3 with
          | None => Crashed
          | Some true => Refused
          | Some false =>
              match dict_get "sessions" (JDict ∅) data with
              | JDict sessions =>
                  match for_each_dict migrate_session sessions with
                  | Some sessions =>
                      Written (JDict (<[lit "sessions" := JDict sessions]>
                                        (<[lit "version" := JInt 4]> data)))
                  | None => Crashed
                  end
              | _ => Crashed
              end
          end
      end
  | _ => Crashed
  end.

(** ** Reading a state file

    The value under a top-level key, and the dictionary under it (the
    sessions, the projects or the defaults), empty when there is none. *)

Definition field (k : string) (data : json) : option json :=
  match data with
  | JDict d => d !! lit k
  | _ => None
  end.

Definition entries_of (k : string) (data : json) : dict :=
  match field k data with
  | Some (JDict entries) => entries
  | _ => ∅
  end.

(** The top-level keys outside [keys] have in [data'] the value they have
    in [data]. *)
Definition untouched (keys : list string) (data data' : json) : Prop :=
  forall key, Forall (fun k => key <> lit k) keys ->
    match data' with JDict d' => d' !! key | _ => None end =
    match data with JDict d => d !! key | _ => None end.

(** The collection under [k] has the same members in [data'] as in [data],
    each one a dictionary that kept every key it had with its value. *)
Definition members_grow (k : string) (data data' : json) : Prop :=
  (forall id, is_Some (entries_of k data' !! id) <-> is_Some (entries_of k data !! id)) /\
  (forall id item, entries_of k data !! id = Some item ->
     exists d d', item = JDict d /\ entries_of k data' !! id = Some (JDict d') /\ d ⊆ d').

(** The value under key [k] of the session [id] of a sessions file. *)
Definition session_field (id k : string) (data : json) : option json :=
  match entries_of "sessions" data !! lit id with
  | Some (JDict session) => session !! lit k
  | _ => None
  end.

(** Every key of [keys] is present in [d]. *)
Definition has_keys (keys : list string) (d : dict) : Prop :=
  Forall (fun k => is_Some (d !! lit k)) keys.

(** A version-1 sessions file with two sessions. *)
Definition sample_sessions : json :=
  JDict (list_to_map
    [(lit "version", JInt 1);
     (lit "sessions",
      JDict (list_to_map
        [(lit "feature-a",
          JDict (list_to_map
            [(lit "created_at", jstr "2024-05-01T10:00:00");
             (lit "tmux", jstr "wtm_feature-a");
             (lit "tags", JList [jstr "urgent"])]));
         (lit "feature-b", JDict ∅)]))]).

End Wtm.

(** * Properties *)

(** ** Strings *)

Section StringFacts.

Lemma str_eqb_eq (a b : str) : str_eqb a b = true <-> a = b.
Proof.
  revert b. induction a as [|x a IH]; intros [|y b]; simpl; try (split; congruence).
  rewrite andb_true_iff, N.eqb_eq, IH. split.
  - intros [-> ->]. reflexivity.
  - intros H. injection H. auto.
Qed.

Lemma str_eqb_refl (a : str) : str_eqb a a = true.
Proof. apply str_eqb_eq. reflexivity. Qed.

Lemma str_eqb_neq (a b : str) : str_eqb a b = false <-> a <> b.
Proof.
  rewrite <- str_eqb_eq. destruct (str_eqb a b); split; congruence.
Qed.

Lemma startswith_spec (s p : str) :
  startswith s p = true <-> exists r, s = p ++ r.
Proof.
  revert s. induction p as [|c p IH]; intros [|d s]; simpl.
  - split; [intros _; exists []; reflexivity | reflexivity].
  - split; [intros _; exists (d :: s); reflexivity | reflexivity].
  - split; [discriminate | intros [r Hr]; discriminate].
  - rewrite andb_true_iff, N.eqb_eq, IH. split.
    + intros [-> [r ->]]. exists r. reflexivity.
    + intros [r Hr]. injection Hr as -> ->. eauto.
Qed.

Lemma endswith_spec (s p : str) :
  endswith s p = true <-> exists r, s = r ++ p.
Proof.
  unfold endswith. rewrite andb_true_iff, Nat.leb_le, str_eqb_eq. split.
  - intros [Hlen Hdrop]. exists (take (length s - length p) s).
    set (n := length s - length p) in *.
    transitivity (take n s ++ drop n s); [symmetry; apply take_drop|].
    f_equal. exact Hdrop.
  - intros [r ->]. rewrite length_app. split; [lia|].
    replace (length r + length p - length p) with (length r) by lia.
    apply drop_app_length.
Qed.

Lemma contains_spec (s sub : str) : contains s sub = true <-> substr sub s.
Proof.
  unfold substr. induction s as [|c s IH]; cbn [contains].
  - rewrite orb_false_r, startswith_spec. split.
    + intros [r Hr]. exists [], r. exact Hr.
    + intros (a & b & H). destruct a; [|discriminate]. exists b. exact H.
  - rewrite orb_true_iff, startswith_spec, IH. split.
    + intros [[r Hr] | (a & b & ->)].
      * exists [], r. exact Hr.
      * exists (c :: a), b. reflexivity.
    + intros (a & b & H). destruct a as [|x a].
      * left. exists b. exact H.
      * right. injection H as -> ->. eauto.
Qed.

Lemma substr_refl (s : str) : substr s s.
Proof. exists [], []. simpl. rewrite app_nil_r. reflexivity. Qed.

Lemma substr_trans (a b c : str) : substr a b -> substr b c -> substr a c.
Proof.
  intros (x & y & ->) (u & v & ->). exists (u ++ x), (y ++ v).
  rewrite <- !app_assoc. reflexivity.
Qed.

Lemma substr_app_l (a b : str) : substr a (a ++ b).
Proof. exists [], b. reflexivity. Qed.

Lemma startswith_nil (s : str) : startswith s [] = true.
Proof. destruct s; reflexivity. Qed.

Lemma startswith_app (p u : str) : startswith (p ++ u) p = true.
Proof. apply startswith_spec. eauto. Qed.

Lemma substr_app_r (l a b : str) : substr l b -> substr l (a ++ b).
Proof.
  intros (x & y & ->). exists (a ++ x), y. rewrite <- app_assoc. reflexivity.
Qed.

Lemma substr_elem (a b : str) x : substr a b -> x ∈ a -> x ∈ b.
Proof.
  intros (u & v & ->) Hx. rewrite !elem_of_app. auto.
Qed.

Lemma nonempty_true (s : str) : nonempty s = true <-> s <> [].
Proof. destruct s; simpl; split; congruence. Qed.

Lemma lstrip_suffix (s : str) : exists a, s = a ++ lstrip s.
Proof.
  induction s as [|c s [a IH]]; [exists []; reflexivity|].
  cbn [lstrip]. destruct (is_space c).
  - exists (c :: a). simpl. f_equal. exact IH.
  - exists []. reflexivity.
Qed.

Lemma rstrip_prefix (s : str) : exists b, s = rstrip s ++ b.
Proof.
  unfold rstrip. destruct (lstrip_suffix (rev s)) as [a Ha].
  exists (rev a). rewrite <- rev_app_distr, <- Ha, rev_involutive. reflexivity.
Qed.

Lemma strip_substr (s : str) : substr (strip s) s.
Proof.
  unfold strip. destruct (lstrip_suffix s) as [a Ha].
  destruct (rstrip_prefix (lstrip s)) as [b Hb].
  exists a, b. rewrite <- Hb. exact Ha.
Qed.

(** Every line of [splitlines] is a piece of the text. *)
Lemma splitlines_from_substr n : forall (s cur l : str),
  length s <= n -> l ∈ splitlines_from cur s -> substr l (cur ++ s).
Proof.
  induction n as [|n IH]; intros s cur l Hlen.
  - destruct s; [|simpl in Hlen; lia]. cbn [splitlines_from].
    destruct (nonempty cur); intros Hin; [|inversion Hin].
    apply list_elem_of_singleton in Hin as ->. apply substr_app_l.
  - destruct s as [|c rest]; cbn [splitlines_from].
    + destruct (nonempty cur); intros Hin; [|inversion Hin].
      apply list_elem_of_singleton in Hin as ->. apply substr_app_l.
    + simpl in Hlen. destruct (is_linebreak c).
      * destruct rest as [|d rest'].
        { intros Hin. apply list_elem_of_singleton in Hin as ->. apply substr_app_l. }
        destruct ((c =? 13)%N && (d =? 10)%N); intros Hin;
          apply elem_of_cons in Hin as [-> | Hin]; try apply substr_app_l.
        -- apply (IH rest' [] l) in Hin; [|simpl in Hlen; lia].
           apply substr_app_r. apply (substr_app_r l [c; d]). exact Hin.
        -- apply (IH (d :: rest') [] l) in Hin; [|lia].
           apply substr_app_r. apply (substr_app_r l [c]). exact Hin.
      * intros Hin. apply (IH rest (cur ++ [c]) l) in Hin; [|lia].
        rewrite <- app_assoc in Hin. exact Hin.
Qed.

Lemma splitlines_substr (s l : str) : l ∈ splitlines s -> substr l s.
Proof. apply (splitlines_from_substr (length s) s [] l). lia. Qed.

End StringFacts.

(** ** Regular expressions: what a successful match looks like *)

Section RegexFacts.

Lemma run_length_le k hi s : run_length k hi s <= length s.
Proof.
  revert hi. induction s as [|c s IH]; intros [[|h]|]; simpl; try lia;
    destruct (in_class k c); simpl; try lia.
  - specialize (IH (Some h)). lia.
  - specialize (IH None). lia.
Qed.

Lemma run_length_bound k h s : run_length k (Some h) s <= h.
Proof.
  revert h. induction s as [|c s IH]; intros [|h]; simpl; try lia.
  destruct (in_class k c); [|lia]. specialize (IH h). lia.
Qed.

Lemma run_length_class k hi s :
  Forall (fun c => in_class k c = true) (take (run_length k hi s) s).
Proof.
  revert hi. induction s as [|c s IH]; intros [[|h]|]; simpl;
    try (constructor; fail);
    destruct (in_class k c) eqn:E; simpl; constructor; auto.
Qed.

Lemma greedy_sound lo n s k rest :
  greedy lo n s k = Some rest ->
  exists m, lo <= m <= n /\ k (drop m s) = Some rest.
Proof.
  induction n as [|n IH]; cbn [greedy].
  - destruct (0 <? lo) eqn:E; [discriminate|]. apply Nat.ltb_ge in E.
    destruct (k (drop 0 s)) eqn:Ek; [|discriminate].
    intros [= <-]. exists 0. split; [lia | exact Ek].
  - destruct (S n <? lo) eqn:E; [discriminate|]. apply Nat.ltb_ge in E.
    destruct (k (drop (S n) s)) eqn:Ek.
    + intros [= <-]. exists (S n). split; [lia | exact Ek].
    + intros H. destruct (IH H) as (m & Hm & Hk). exists m. split; [lia | exact Hk].
Qed.

Lemma run_sound r : forall s k rest,
  run r s k = Some rest ->
  exists w s', s = w ++ s' /\ matches r w /\ k s' = Some rest.
Proof.
  induction r as [p | c lo hi | r1 IH1 r2 IH2 | r1 IH1 r2 IH2];
    intros s k rest; cbn [run matches].
  - destruct (startswith s p) eqn:E; [|discriminate].
    apply startswith_spec in E as [s' ->]. rewrite drop_app_length.
    intros Hk. exists p, s'. auto.
  - intros H. apply greedy_sound in H as (m & [Hlo Hm] & Hk).
    exists (take m s), (drop m s).
    pose proof (run_length_le c hi s) as Hlen.
    split; [symmetry; apply take_drop|]. split; [|exact Hk].
    rewrite length_take. split; [lia|]. split.
    + destruct hi as [h|]; [|exact I].
      pose proof (run_length_bound c h s). lia.
    + pose proof (run_length_class c hi s) as Hall.
      apply (Forall_take _ m) in Hall. rewrite take_take in Hall.
      replace (min m (run_length c hi s)) with m in Hall by lia. exact Hall.
  - intros H. apply IH1 in H as (w1 & s1 & -> & Hm1 & H).
    apply IH2 in H as (w2 & s2 & -> & Hm2 & Hk).
    exists (w1 ++ w2), s2. rewrite <- app_assoc. eauto 8.
  - destruct (run r1 s k) eqn:E1.
    + intros [= <-]. apply IH1 in E1 as (w & s' & -> & Hm & Hk). eauto 8.
    + intros H. apply IH2 in H as (w & s' & -> & Hm & Hk). eauto 8.
Qed.

(** [re.match] returns a prefix of the subject that is a word of the
    pattern. *)
Lemma re_match_sound r s w :
  re_match r s = Some w -> matches r w /\ exists s', s = w ++ s'.
Proof.
  unfold re_match. destruct (run r s Some) as [rest|] eqn:E; [|discriminate].
  apply run_sound in E as (w0 & s' & -> & Hm & [= ->]).
  rewrite length_app. replace (length w0 + length rest - length rest) with (length w0) by lia.
  rewrite take_app_length. intros [= <-]. eauto.
Qed.

(** Matching a literal is a prefix test. *)
Lemma re_match_lit p s : re_match (Lit p) s = if startswith s p then Some p else None.
Proof.
  unfold re_match. cbn [run]. destruct (startswith s p) eqn:E; [|reflexivity].
  apply startswith_spec in E as [u ->]. rewrite drop_app_length, length_app.
  replace (length p + length u - length u) with (length p) by lia.
  rewrite take_app_length. reflexivity.
Qed.

Lemma re_match_lit_self p u : re_match (Lit p) (p ++ u) = Some p.
Proof. rewrite re_match_lit, startswith_app. reflexivity. Qed.

Lemma re_match_lit_other c d p u : c <> d -> re_match (Lit (d :: p)) (c :: u) = None.
Proof.
  intros H. rewrite re_match_lit. cbn [startswith].
  destruct (N.eqb_spec d c); [congruence | reflexivity].
Qed.

Lemma re_match_lit_second c1 c2 d1 d2 p u :
  c2 <> d2 -> re_match (Lit (d1 :: d2 :: p)) (c1 :: c2 :: u) = None.
Proof.
  intros H. rewrite re_match_lit. cbn [startswith].
  destruct (N.eqb_spec d2 c2); [congruence|]. rewrite andb_false_r. reflexivity.
Qed.

Lemma re_match_lit_tail c x u :
  startswith u x = false -> re_match (Lit (c :: x)) (c :: u) = None.
Proof.
  intros H. rewrite re_match_lit. cbn [startswith]. rewrite H, andb_false_r. reflexivity.
Qed.

(** The tag pattern matches nothing that does not start with [<], and
    matches a whole tag. *)
Lemma re_match_tag_other c u : c <> chr "<" -> re_match TAG (c :: u) = None.
Proof.
  intros H. unfold re_match, TAG. cbn [cat run]. change (lit "<") with [60%N].
  change (chr "<") with 60%N in H. cbn [startswith].
  destruct (N.eqb_spec 60 c); [congruence | reflexivity].
Qed.

Lemma run_length_not b c u :
  Forall (fun x => x <> c) b -> run_length (CNot c) None (b ++ c :: u) = length b.
Proof.
  induction 1 as [|x b Hx _ IH]; cbn [run_length app in_class length].
  - rewrite N.eqb_refl. reflexivity.
  - destruct (N.eqb_spec x c); [congruence|]. cbn [negb]. rewrite IH. reflexivity.
Qed.

Lemma re_match_tag body u :
  body <> [] -> Forall (fun c => c <> chr ">") body ->
  re_match TAG (chr "<" :: body ++ chr ">" :: u) = Some (chr "<" :: body ++ [chr ">"]).
Proof.
  intros Hne Hbody. unfold re_match, TAG. cbn [cat run].
  change (lit "<") with [chr "<"]. change (lit ">") with [chr ">"].
  cbn [startswith length drop skipn]. rewrite N.eqb_refl. cbn [andb].
  rewrite startswith_nil, !drop_0.
  rewrite run_length_not by exact Hbody.
  destruct body as [|x body]; [congruence|]. cbn [length greedy Nat.ltb Nat.leb].
  change (drop (S (length body)) ((x :: body) ++ chr ">" :: u))
    with (drop (length (x :: body)) ((x :: body) ++ chr ">" :: u)).
  rewrite drop_app_length. cbn [startswith]. rewrite N.eqb_refl, startswith_nil.
  cbn [andb]. change (drop 1 (chr ">" :: u)) with u.
  replace (chr "<" :: (x :: body) ++ chr ">" :: u)
    with ((chr "<" :: (x :: body) ++ [chr ">"]) ++ u)
    by (cbn [app]; rewrite <- app_assoc; reflexivity).
  f_equal. apply take_app_length'.
  cbn [length app]. rewrite !length_app. cbn [length]. unfold char. lia.
Qed.

(** [u] cut at its first [c], if it has one. *)
Lemma split_at_first (c : char) (u : str) :
  Forall (fun x => x <> c) u \/
  exists body u', u = body ++ c :: u' /\ Forall (fun x => x <> c) body.
Proof.
  induction u as [|x u IH]; [left; constructor|].
  destruct (N.eq_dec x c) as [->|Hne].
  - right. exists [], u. split; [reflexivity|constructor].
  - destruct IH as [IH | (body & u' & -> & Hb)].
    + left. constructor; assumption.
    + right. exists (x :: body), u'. split; [reflexivity|constructor; assumption].
Qed.

Lemma re_match_tag_inv s w :
  re_match TAG s = Some w ->
  exists body u, s = chr "<" :: body ++ chr ">" :: u /\ body <> [] /\
                 Forall (fun c => c <> chr ">") body.
Proof.
  intros [Hm [s' ->]]%re_match_sound.
  change TAG with (Seq (Lit [chr "<"]) (Seq (Rep (CNot (chr ">")) 1 None) (Lit [chr ">"])))
    in Hm.
  cbn [matches] in Hm.
  destruct Hm as (? & ? & -> & -> & body & ? & -> & (Hlo & _ & Hall) & ->).
  exists body, s'. split.
  - cbn [app]. rewrite <- !app_assoc. reflexivity.
  - split; [intros ->; simpl in Hlo; lia|].
    eapply Forall_impl; [exact Hall|]. intros x Hx. cbn in Hx.
    intros ->. rewrite N.eqb_refl in Hx. discriminate.
Qed.

(** [re.sub] step by step: a position without match keeps its character, a
    match is replaced and passed over. *)
Section Substitution.
Variables (r : regex) (repl : str).

Lemma re_sub_from_skip m u :
  re_sub_from r repl (length m) (m ++ u) = re_sub_from r repl 0 u.
Proof. induction m as [|c m IH]; [destruct u; reflexivity | exact IH]. Qed.

Lemma re_sub_from_nomatch c u :
  re_match r (c :: u) = None ->
  re_sub_from r repl 0 (c :: u) = c :: re_sub_from r repl 0 u.
Proof. intros H. cbn [re_sub_from]. rewrite H. reflexivity. Qed.

Lemma re_sub_from_match c m u :
  re_match r (c :: m ++ u) = Some (c :: m) ->
  re_sub_from r repl 0 (c :: m ++ u) = repl ++ re_sub_from r repl 0 u.
Proof. intros H. cbn [re_sub_from]. rewrite H, re_sub_from_skip. reflexivity. Qed.

End Substitution.

Lemma re_sub_from_self p repl u :
  p <> [] ->
  re_sub_from (Lit p) repl 0 (p ++ u) = repl ++ re_sub_from (Lit p) repl 0 u.
Proof.
  destruct p as [|c m]; [congruence|]. intros _.
  apply (re_sub_from_match _ _ c m u). apply (re_match_lit_self (c :: m)).
Qed.

End RegexFacts.

(** ** Caption Selector *)

Section SelectorFacts.
Context {track : Type}.
Implicit Types (info : video_info track) (available : gmap str track).

Lemma first_available_ranked langs available lang :
  first_available langs available = Some lang ->
  exists before after,
    langs = before ++ lang :: after /\ is_Some (available !! lang) /\
    Forall (fun l => available !! l = None) before.
Proof.
  induction langs as [|l langs IH]; cbn [first_available]; [discriminate|].
  case_bool_decide as Hl.
  - intros [= <-]. exists [], langs. repeat split; [exact Hl | constructor].
  - intros Hrest. destruct (IH Hrest) as (before & after & -> & Hin & Hnone).
    exists (l :: before), after. repeat split; [exact Hin|].
    constructor; [|exact Hnone]. apply eq_None_not_Some. exact Hl.
Qed.

Lemma first_available_none langs available :
  first_available langs available = None <->
  Forall (fun l => available !! l = None) langs.
Proof.
  induction langs as [|l langs IH]; cbn [first_available].
  - split; [constructor | reflexivity].
  - case_bool_decide as Hl.
    + split; [discriminate|]. intros H. inversion H as [|? ? Hnone _]; subst.
      rewrite Hnone in Hl. destruct Hl as [? ?]. discriminate.
    + rewrite IH. split.
      * intros H. constructor; [apply eq_None_not_Some; exact Hl | exact H].
      * intros H. inversion H; assumption.
Qed.

(** C3: if some preferred language has a manual track, the selector returns
    a manual track ([is_auto] false) in the first such language of the
    preference list, whatever the automatic captions are; it returns an
    automatic track only when no preferred language has a manual track, and
    then in the first preferred language that has an automatic one. *)
Theorem manual_track_preferred info :
  let available_subs := default ∅ (subtitles info) in
  let available_auto := default ∅ (automatic_captions info) in
  ((exists lang, lang ∈ preferred_langs /\ is_Some (available_subs !! lang)) ->
   exists lang, select_track info = Some (lang, false) /\
                highest_ranked available_subs lang) /\
  (forall lang, select_track info = Some (lang, true) ->
     Forall (fun l => available_subs !! l = None) preferred_langs /\
     highest_ranked available_auto lang) /\
  (Forall (fun l => available_subs !! l = None) preferred_langs ->
   select_track info =
   match first_available preferred_langs available_auto with
   | Some lang => Some (lang, true)
   | None => None
   end).
Proof.
  intros available_subs available_auto. unfold select_track.
  fold available_subs available_auto.
  destruct (first_available preferred_langs available_subs) as [lang|] eqn:Esubs.
  - split; [|split].
    + intros _. exists lang. split; [reflexivity|].
      apply first_available_ranked. exact Esubs.
    + intros l [=].
    + intros Hnone. apply first_available_none in Hnone. congruence.
  - pose proof (proj1 (first_available_none _ _) Esubs) as Hnone.
    split; [|split].
    + intros (lang & Hin & Hsome). exfalso.
      rewrite Forall_forall in Hnone. specialize (Hnone lang Hin).
      rewrite Hnone in Hsome. destruct Hsome as [? ?]. discriminate.
    + intros lang Hsel. split; [exact Hnone|].
      destruct (first_available preferred_langs available_auto) as [l|] eqn:Eauto;
        [|discriminate].
      injection Hsel as ->. apply first_available_ranked. exact Eauto.
    + intros _. reflexivity.
Qed.

End SelectorFacts.

Lemma manual_track_preferred_witness :
  (exists lang, lang ∈ preferred_langs /\
                is_Some (default ∅ (subtitles sample_info) !! lang)) /\
  (exists lang, select_track sample_info = Some (lang, false) /\
                highest_ranked (default ∅ (subtitles sample_info)) lang) /\
  select_track sample_info = Some (lit "en-US", false).
Proof.
  assert (H : exists lang, lang ∈ preferred_langs /\
                is_Some (default ∅ (subtitles sample_info) !! lang)).
  { exists (lit "en-US"). split.
    - apply list_elem_of_In. vm_compute. tauto.
    - exists 1. vm_compute. reflexivity. }
  split; [exact H|]. split.
  - exact (proj1 (manual_track_preferred sample_info) H).
  - vm_compute. reflexivity.
Defined.

(** ** Parsers: every cue has text *)

Section ParserFacts.

Lemma vtt_cues_cons l rest entries :
  vtt_cues (l :: rest) entries =
  match vtt_timestamp (strip l) with
  | Some timestamp =>
      let '(text_lines, rest') := vtt_text_lines rest [] in
      vtt_cues rest'
        (match text_lines with
         | [] => entries
         | _ :: _ => entries ++ [(timestamp, join (lit " ") text_lines)]
         end)
  | None => vtt_cues rest entries
  end.
Proof.
  simp vtt_cues. destruct (vtt_timestamp (strip l)); simpl; [|reflexivity].
  destruct (vtt_text_lines rest []) as [text_lines rest'] eqn:E. reflexivity.
Qed.

Lemma join_nonempty sep p rest : p <> [] -> join sep (p :: rest) <> [].
Proof. destruct p; [congruence|]. destruct rest; simpl; discriminate. Qed.

Lemma vtt_text_lines_nonempty ls : forall acc,
  Forall (fun t => t <> []) acc ->
  Forall (fun t => t <> []) (fst (vtt_text_lines ls acc)).
Proof.
  induction ls as [|l ls IH]; intros acc Hacc; cbn [vtt_text_lines]; [exact Hacc|].
  destruct (nonempty (strip l)); [|exact Hacc].
  apply IH. destruct (nonempty (vtt_clean_line (strip l))) eqn:E; [|exact Hacc].
  apply Forall_app. split; [exact Hacc|].
  constructor; [apply nonempty_true; exact E | constructor].
Qed.

Lemma vtt_cues_has_text lines entries :
  Forall has_text entries -> Forall has_text (vtt_cues lines entries).
Proof.
  funelim (vtt_cues lines entries); simp vtt_cues.
  intros Hent. apply H. destruct text_lines as [|t text_lines]; [exact Hent|].
  apply Forall_app. split; [exact Hent|]. constructor; [|constructor].
  assert (Hall : Forall (fun t : str => t <> []) (fst (t :: text_lines, rest')))
    by (rewrite <- e; apply vtt_text_lines_nonempty; constructor).
  cbn [fst] in Hall. inversion Hall; subst.
  apply join_nonempty. assumption.
Qed.

Lemma srt_block_has_text block e : srt_block block = Some e -> has_text e.
Proof.
  unfold srt_block. destruct (_ <? 3); [discriminate|].
  destruct (re_match SRT_TIMESTAMP _); [|discriminate].
  destruct (nonempty _) eqn:E; [|discriminate].
  intros [= <-]. apply nonempty_true. exact E.
Qed.

Lemma parse_srt_has_text content : Forall has_text (parse_srt content).
Proof.
  unfold parse_srt. generalize (re_split BLANK_LINES (strip content)).
  intros blocks.
  assert (H : forall acc, Forall has_text acc ->
    Forall has_text
      (fold_left (fun entries block =>
                    match srt_block block with
                    | Some e => entries ++ [e]
                    | None => entries
                    end) blocks acc)).
  { induction blocks as [|b blocks IH]; intros acc Hacc; cbn [fold_left]; [exact Hacc|].
    apply IH. destruct (srt_block b) as [e|] eqn:E; [|exact Hacc].
    apply Forall_app. split; [exact Hacc|].
    constructor; [eapply srt_block_has_text; exact E | constructor]. }
  apply H. constructor.
Qed.

(** A WebVTT block whose text lines all clean to nothing adds no cue: the
    loop resumes after the block with the entries it had. *)
Lemma vtt_text_lines_blank body rest acc :
  Forall (fun t => nonempty (strip t) = true /\ vtt_clean_line (strip t) = []) body ->
  match rest with [] => True | b :: _ => strip b = [] end ->
  vtt_text_lines (body ++ rest) acc = (acc, rest).
Proof.
  intros Hbody Hrest. induction Hbody as [|t body [Ht Hclean] _ IH]; simpl.
  - destruct rest as [|b rest]; [reflexivity|]. simpl. rewrite Hrest. reflexivity.
  - rewrite Ht, Hclean. simpl. exact IH.
Qed.

(** The text lines of a block: the cleaned lines that are not empty. *)
Lemma vtt_text_lines_body body : forall rest acc,
  Forall (fun t => nonempty (strip t) = true) body ->
  match rest with [] => True | b :: _ => strip b = [] end ->
  vtt_text_lines (body ++ rest) acc =
  (acc ++ filter (fun t => nonempty t = true)
            (map (fun t => vtt_clean_line (strip t)) body), rest).
Proof.
  induction body as [|t body IH]; intros rest acc Hbody Hrest.
  - cbn [app map]. rewrite filter_nil, app_nil_r.
    destruct rest as [|b rest]; [reflexivity|].
    cbn [vtt_text_lines]. rewrite Hrest. reflexivity.
  - inversion Hbody as [|? ? Ht Hbody']; subst.
    cbn [app map vtt_text_lines]. rewrite Ht.
    rewrite IH by assumption. rewrite filter_cons.
    destruct (nonempty (vtt_clean_line (strip t))) eqn:E.
    + destruct (decide (true = true)) as [_|Hn]; [|congruence].
      rewrite <- app_assoc. reflexivity.
    + destruct (decide (false = true)) as [Hn|_]; [congruence|]. reflexivity.
Qed.

(** Lines without a timestamp leave the entries as they are. *)
Lemma vtt_cues_no_timestamp lines entries :
  Forall (fun l => vtt_timestamp (strip l) = None) lines ->
  vtt_cues lines entries = entries.
Proof.
  induction 1 as [|l lines Hl _ IH]; [simp vtt_cues; reflexivity|].
  rewrite vtt_cues_cons, Hl. exact IH.
Qed.

Lemma vtt_skip_header_Forall (P : str -> Prop) lines :
  Forall P lines -> Forall P (vtt_skip_header lines).
Proof.
  induction 1 as [|l lines Hl Hall IH]; cbn [vtt_skip_header]; [constructor|].
  destruct (_ && _); [exact IH | constructor; assumption].
Qed.

(** A text without an arrow holds no WebVTT cue. *)
Lemma parse_vtt_no_arrow content :
  ~ substr (lit "-->") content -> parse_vtt content = [].
Proof.
  intros Hno. unfold parse_vtt. apply vtt_cues_no_timestamp.
  apply vtt_skip_header_Forall. apply Forall_forall. intros l Hl.
  unfold vtt_timestamp.
  destruct (contains (strip l) (lit "-->")) eqn:E; [|reflexivity].
  exfalso. apply Hno. apply contains_spec in E.
  eapply substr_trans; [exact E|].
  eapply substr_trans; [apply strip_substr|].
  apply splitlines_substr. exact Hl.
Qed.

Lemma re_split_from_elem r : forall (s cur : str) skip piece x,
  piece ∈ re_split_from r cur skip s -> x ∈ piece -> x ∈ cur \/ x ∈ s.
Proof.
  induction s as [|c rest IH]; intros cur skip piece x; cbn [re_split_from].
  - intros Hin Hx. apply list_elem_of_singleton in Hin as ->. left. exact Hx.
  - destruct skip as [|n].
    + destruct (re_match r (c :: rest)) as [[|m0 m]|];
        try (intros Hin Hx; destruct (IH _ _ _ _ Hin Hx) as [H|H];
             [apply elem_of_app in H as [H|H];
              [left; exact H | apply list_elem_of_singleton in H as ->; right; left]
             | right; right; exact H]).
      intros Hin Hx. apply elem_of_cons in Hin as [-> | Hin]; [left; exact Hx|].
      destruct (IH _ _ _ _ Hin Hx) as [H|H]; [inversion H | right; right; exact H].
    + intros Hin Hx. destruct (IH _ _ _ _ Hin Hx) as [H|H];
        [left; exact H | right; right; exact H].
Qed.

(** A word of the SRT timestamp pattern starts with a decimal digit. *)
Lemma srt_timestamp_starts_with_digit w :
  matches SRT_TIMESTAMP w -> exists d w', w = d :: w' /\ is_decimal d = true.
Proof.
  cbn [SRT_TIMESTAMP cat times matches].
  intros (w1 & w2 & -> & (Hlo & _ & Hall) & _).
  destruct w1 as [|d w1]; [simpl in Hlo; lia|].
  inversion Hall; subst. exists d, (w1 ++ w2). split; [reflexivity | assumption].
Qed.

(** A block without any decimal digit holds no SRT cue. *)
Lemma srt_block_no_digit block :
  Forall (fun c => is_decimal c = false) block -> srt_block block = None.
Proof.
  intros Hno. unfold srt_block.
  destruct (length (splitlines (strip block)) <? 3) eqn:Elen; [reflexivity|].
  apply Nat.ltb_ge in Elen.
  destruct (splitlines (strip block)) as [|l0 [|l1 ls]] eqn:Elines;
    try (simpl in Elen; lia).
  cbn [lookup list_lookup default from_option id].
  destruct (re_match SRT_TIMESTAMP l1) as [w|] eqn:Em; [exfalso|reflexivity].
  apply re_match_sound in Em as [Hm [s' ->]].
  apply srt_timestamp_starts_with_digit in Hm as (d & w' & -> & Hd).
  rewrite Forall_forall in Hno. rewrite (Hno d) in Hd; [discriminate|].
  eapply substr_elem; [apply strip_substr|].
  eapply substr_elem; [apply splitlines_substr; rewrite Elines; right; left|].
  left.
Qed.

Lemma parse_srt_no_digit content :
  Forall (fun c => is_decimal c = false) content -> parse_srt content = [].
Proof.
  intros Hno. unfold parse_srt.
  assert (Hblocks : Forall (fun b => srt_block b = None)
                      (re_split BLANK_LINES (strip content))).
  { apply Forall_forall. intros b Hb. apply srt_block_no_digit.
    apply Forall_forall. intros x Hx. rewrite Forall_forall in Hno. apply Hno.
    destruct (re_split_from_elem _ _ _ _ _ _ Hb Hx) as [H|H]; [inversion H|].
    eapply substr_elem; [apply strip_substr | exact H]. }
  induction Hblocks as [|b blocks Hb _ IH]; [reflexivity|].
  cbn [fold_left]. rewrite Hb. exact IH.
Qed.

End ParserFacts.

(** ** WebVTT timestamps *)

Section TimestampFacts.

Lemma decimal_not_colon d : is_decimal d = true -> (d =? 58)%N = false.
Proof.
  intros H. destruct (N.eqb_spec d 58) as [->|];
    [vm_compute in H; discriminate | reflexivity].
Qed.

Lemma matches_digits n w :
  matches (times CDigit n) w ->
  length w = n /\ Forall (fun c => is_decimal c = true) w.
Proof. cbn. intros (H1 & H2 & H3). split; [lia | exact H3]. Qed.

Ltac explode_digits :=
  repeat match goal with
  | H : matches (times CDigit _) ?w |- _ =>
      apply matches_digits in H; destruct H as [? ?]
  | H : length ?w = S _ |- _ =>
      destruct w; simpl in H; [discriminate | injection H as H]
  | H : length ?w = 0 |- _ => destruct w; simpl in H; [clear H | discriminate]
  | H : Forall _ (_ :: _) |- _ => inversion H; subst; clear H
  | H : Forall _ [] |- _ => clear H
  end.

Ltac count_colons :=
  repeat match goal with
  | H : in_class CDigit ?x = true |- _ => change (is_decimal x = true) in H
  end;
  repeat match goal with
  | H : is_decimal ?x = true |- _ => pose proof (decimal_not_colon x H); revert H
  end;
  intros; cbn [count_char app];
  repeat match goal with
  | H : (_ =? 58)%N = false |- _ => rewrite H; clear H
  end;
  change (58 =? 58)%N with true; change (46 =? 58)%N with false;
  cbn [Nat.add Nat.eqb take firstn app].

(** Every stored timestamp reads HH:MM:SS, except when the hour field of
    the line has one digit: then it is H:MM:SS followed by the dot. *)
Lemma vtt_timestamp_shape line ts :
  vtt_timestamp line = Some ts -> is_hhmmss ts = true \/ one_digit_hour line ts.
Proof.
  unfold vtt_timestamp. destruct (contains line (lit "-->")); [|discriminate].
  destruct (re_match VTT_TIMESTAMP line) as [w|] eqn:E; [|discriminate].
  apply re_match_sound in E as [Hm [s' ->]]. intros Heq.
  assert (Hts : ts = take 8 (if count_char w (chr ":") =? 1 then lit "00:" ++ w else w))
    by congruence.
  clear Heq. subst ts.
  change VTT_TIMESTAMP with
    (Alt (Seq (Rep CDigit 1 (Some 2)) (Seq (Lit [58%N]) (Seq (times CDigit 2)
            (Seq (Lit [58%N]) (Seq (times CDigit 2) (Seq (Lit [46%N]) (times CDigit 3)))))))
         (Seq (times CDigit 2) (Seq (Lit [58%N]) (Seq (times CDigit 2)
            (Seq (Lit [46%N]) (times CDigit 3)))))) in Hm.
  unfold one_digit_hour, is_hhmmss.
  change (chr ":") with 58%N. change (chr ".") with 46%N.
  change (lit "00:") with [48; 48; 58]%N.
  cbn [matches] in Hm. destruct Hm as [Hm | Hm].
  - destruct Hm as (h & ? & -> & (Hlo & Hhi & Hh) & ? & ? & -> & -> & m & ? & -> & Hmm
                    & ? & ? & -> & -> & s & ? & -> & Hs & ? & f & -> & -> & Hf).
    explode_digits.
    destruct h as [|h1 [|h2 [|h3 h]]]; simpl in Hlo, Hhi; try lia;
      explode_digits; count_colons.
    + right. exists h1. do 5 eexists.
      split; [reflexivity|]. split; [assumption | reflexivity].
    + left.
      repeat match goal with H : is_decimal _ = true |- _ => rewrite H; clear H end.
      reflexivity.
  - destruct Hm as (m & ? & -> & Hmm & ? & ? & -> & -> & s & ? & -> & Hs
                    & ? & f & -> & -> & Hf).
    explode_digits. count_colons. left.
    repeat match goal with H : is_decimal _ = true |- _ => rewrite H; clear H end.
    reflexivity.
Qed.

Lemma one_digit_hour_not_hhmmss line ts : one_digit_hour line ts -> is_hhmmss ts = false.
Proof.
  intros (h & m1 & m2 & s1 & s2 & rest & _ & _ & ->). unfold is_hhmmss.
  change (is_decimal (chr ":")) with false. rewrite andb_false_r. reflexivity.
Qed.

End TimestampFacts.

(** C2: a timestamp line with a one-digit hour field is accepted, and the
    stored timestamp is then the first eight characters of H:MM:SS.mmm,
    that is H:MM:SS followed by the dot of the fraction, not HH:MM:SS.  This
    is the only way a stored timestamp fails to read HH:MM:SS: the
    two-digit and the MM:SS.mmm forms do come out as HH:MM:SS. *)
Theorem one_digit_hour_keeps_dot :
  re_match VTT_TIMESTAMP (lit "1:23:45.678 --> 1:23:47.000") = Some (lit "1:23:45.678") /\
  vtt_timestamp (lit "1:23:45.678 --> 1:23:47.000") = Some (lit "1:23:45.") /\
  is_hhmmss (lit "1:23:45.") = false /\
  parse_vtt sample_vtt_one_digit_hour = [(lit "1:23:45.", lit "hello")] /\
  vtt_timestamp (lit "01:23:45.678 --> 01:23:47.000") = Some (lit "01:23:45") /\
  vtt_timestamp (lit "23:45.678 --> 23:47.000") = Some (lit "00:23:45") /\
  (forall line ts, vtt_timestamp line = Some ts ->
                   is_hhmmss ts = true \/ one_digit_hour line ts) /\
  (forall line ts, one_digit_hour line ts -> is_hhmmss ts = false).
Proof.
  do 6 (split; [vm_compute; reflexivity|]).
  split; [exact vtt_timestamp_shape | exact one_digit_hour_not_hhmmss].
Qed.

(** ** Markup of WebVTT text lines *)

Section MarkupFacts.

Ltac numerals :=
  change (entity_text EAmp) with [38; 97; 109; 112; 59]%N in *;
  change (entity_text ELt) with [38; 108; 116; 59]%N in *;
  change (entity_text EGt) with [38; 103; 116; 59]%N in *;
  change (entity_text ENbsp) with [38; 110; 98; 115; 112; 59]%N in *;
  change (entity_char EAmp) with 38%N in *;
  change (entity_char ELt) with 60%N in *;
  change (entity_char EGt) with 62%N in *;
  change (entity_char ENbsp) with 32%N in *;
  change (lit "amp;") with [97; 109; 112; 59]%N in *;
  change (lit "lt;") with [108; 116; 59]%N in *;
  change (lit "gt;") with [103; 116; 59]%N in *;
  change (lit "nbsp;") with [110; 98; 115; 112; 59]%N in *;
  change (chr "<") with 60%N in *;
  change (chr ">") with 62%N in *;
  change (chr "&") with 38%N in *.

Lemma well_formed_tail t rest : well_formed (t :: rest) -> well_formed rest.
Proof. intros [H _]. exact H. Qed.

(** A substitution that maps the text of each token, in front of what
    follows it, to the token's next text does so for the whole line. *)
Lemma re_sub_tokens r repl (f g : token -> str) :
  (forall t rest, well_formed (t :: rest) ->
     re_sub_from r repl 0 (f t ++ flat_map f rest) =
     g t ++ re_sub_from r repl 0 (flat_map f rest)) ->
  forall toks, well_formed toks -> re_sub r repl (flat_map f toks) = flat_map g toks.
Proof.
  intros Hstep. unfold re_sub.
  induction toks as [|t rest IH]; intros Hwf; [reflexivity|].
  cbn [flat_map]. rewrite (Hstep _ _ Hwf), (IH (well_formed_tail _ _ Hwf)).
  reflexivity.
Qed.

(** A [<] that starts no tag is kept by the tag pattern. *)
Lemma re_match_tag_none u : starts_no_tag u -> re_match TAG (chr "<" :: u) = None.
Proof.
  intros Hu. destruct (re_match TAG (chr "<" :: u)) as [w|] eqn:E; [exfalso|reflexivity].
  apply re_match_tag_inv in E as (body & u' & H & Hne & Hall).
  assert (Hu' : u = body ++ chr ">" :: u') by congruence. subst u.
  destruct Hu as [Hu | Hu].
  - destruct body as [|y body]; [congruence|].
    inversion Hall as [|? ? Hy _]; subst. apply Hy.
    change (lit ">") with [chr ">"] in Hu. cbn [app startswith] in Hu.
    apply andb_true_iff in Hu as [Hu _]. apply N.eqb_eq in Hu. congruence.
  - rewrite Forall_forall in Hu. apply (Hu (chr ">")); [|reflexivity].
    apply elem_of_app. right. left.
Qed.

(** The first substitution removes the tags. *)
Lemma pass_tags toks :
  well_formed toks -> re_sub TAG [] (text_at 0 toks) = text_at 1 toks.
Proof.
  apply (re_sub_tokens TAG [] (stage 0) (stage 1)).
  intros t rest [_ Ht].
  destruct t as [c | body | e]; cbn [stage Nat.eqb Nat.ltb Nat.leb entity_pass].
  - destruct Ht as [Hlt _]. apply re_sub_from_nomatch.
    destruct (N.eq_dec c (chr "<")) as [->|Hc].
    + apply re_match_tag_none, Hlt. reflexivity.
    + apply re_match_tag_other, Hc.
  - destruct Ht as [Hne Hbody].
    replace ((chr "<" :: body ++ [chr ">"]) ++ flat_map (stage 0) rest)
      with (chr "<" :: (body ++ [chr ">"]) ++ flat_map (stage 0) rest) by reflexivity.
    apply re_sub_from_match. rewrite <- app_assoc. apply re_match_tag; assumption.
  - destruct e; cbn [entity_pass Nat.ltb Nat.leb]; numerals; cbn [app];
      repeat (rewrite re_sub_from_nomatch
                by (apply re_match_tag_other; vm_compute; discriminate));
      reflexivity.
Qed.

(** Past the tag removal, a word without [&], [<], [>] and space starts the
    text at any stage exactly when it starts the decoded text. *)
Lemma startswith_text_at k toks : forall x,
  1 <= k ->
  Forall (fun c => c <> 38 /\ c <> 60 /\ c <> 62 /\ c <> 32)%N x ->
  startswith (text_at k toks) x = startswith (text_at 5 toks) x.
Proof.
  intros x Hk. revert x. unfold text_at.
  induction toks as [|t rest IH]; intros x Hx; [reflexivity|].
  cbn [flat_map]. destruct x as [|a x]; [rewrite !startswith_nil; reflexivity|].
  inversion Hx as [|? ? (Ha1 & Ha2 & Ha3 & Ha4) Hx']; subst.
  destruct t as [c | body | e]; cbn [stage].
  - cbn [app startswith]. rewrite (IH x Hx'). reflexivity.
  - destruct k; [lia|]. cbn [Nat.eqb app]. apply IH. exact Hx.
  - destruct e; cbn [entity_pass]; numerals;
      destruct (_ <? k); cbn [Nat.ltb Nat.leb app startswith];
      repeat match goal with |- context [(a =? ?q)%N] =>
        destruct (N.eqb_spec a q); [congruence|] end;
      reflexivity.
Qed.

(** The substitution of one entity. *)
Lemma pass_entity ek toks :
  well_formed toks ->
  re_sub (Lit (entity_text ek)) [entity_char ek] (text_at (entity_pass ek) toks) =
  text_at (S (entity_pass ek)) toks.
Proof.
  apply (re_sub_tokens _ _ (stage (entity_pass ek)) (stage (S (entity_pass ek)))).
  intros t rest [_ Ht]. destruct t as [c | body | e]; cbn [stage].
  - destruct Ht as [_ Hamp]. apply re_sub_from_nomatch.
    fold (text_at (entity_pass ek) rest).
    destruct (N.eq_dec c (chr "&")) as [->|Hc].
    + destruct (Hamp eq_refl) as (H0 & H1 & H2 & H3). unfold meaning in *.
      destruct ek; cbn [entity_pass]; numerals; apply re_match_lit_tail;
        (rewrite startswith_text_at;
           [assumption | lia | repeat constructor; discriminate]).
    + destruct ek; numerals; apply re_match_lit_other; exact Hc.
  - destruct ek; reflexivity.
  - fold (text_at (entity_pass ek) rest).
    destruct ek, e; cbn [entity_pass Nat.ltb Nat.leb];
      try (apply re_sub_from_self; vm_compute; discriminate);
      numerals; cbn [app].
    all: try (rewrite re_sub_from_nomatch by (apply re_match_lit_second; discriminate);
              repeat (rewrite re_sub_from_nomatch
                        by (apply re_match_lit_other; discriminate));
              reflexivity).
    all: try (rewrite re_sub_from_nomatch by (apply re_match_lit_other; discriminate);
              reflexivity).
    all: destruct Ht as (H1 & H2 & H3); unfold meaning in *;
      apply re_sub_from_nomatch, re_match_lit_tail;
      rewrite startswith_text_at; [assumption | lia | repeat constructor; discriminate].
Qed.

(** The four entity substitutions, one after the other, on a text whose
    tags are gone. *)
Lemma pass_entities toks :
  well_formed toks ->
  re_sub (Lit (lit "&nbsp;")) (lit " ")
    (re_sub (Lit (lit "&gt;")) (lit ">")
       (re_sub (Lit (lit "&lt;")) (lit "<")
          (re_sub (Lit (lit "&amp;")) (lit "&") (text_at 1 toks)))) = text_at 5 toks.
Proof.
  intros Hwf.
  pose proof (pass_entity EAmp toks Hwf) as H1.
  pose proof (pass_entity ELt toks Hwf) as H2.
  pose proof (pass_entity EGt toks Hwf) as H3.
  pose proof (pass_entity ENbsp toks Hwf) as H4.
  change (re_sub (Lit (lit "&amp;")) (lit "&") (text_at 1 toks) = text_at 2 toks) in H1.
  change (re_sub (Lit (lit "&lt;")) (lit "<") (text_at 2 toks) = text_at 3 toks) in H2.
  change (re_sub (Lit (lit "&gt;")) (lit ">") (text_at 3 toks) = text_at 4 toks) in H3.
  change (re_sub (Lit (lit "&nbsp;")) (lit " ") (text_at 4 toks) = text_at 5 toks) in H4.
  rewrite H1, H2, H3, H4. reflexivity.
Qed.

Lemma clean_line_tokens toks :
  well_formed toks -> vtt_clean_line (source toks) = meaning toks.
Proof.
  intros Hwf. unfold vtt_clean_line, source, meaning.
  rewrite (pass_tags toks Hwf). apply pass_entities. exact Hwf.
Qed.

(** Reading the tokens of a line: the first token and the rest of the
    line. *)
Lemma tokens_from_skip m u : tokens_from (length m) (m ++ u) = tokens_from 0 u.
Proof. induction m as [|c m IH]; [destruct u; reflexivity | exact IH]. Qed.

Lemma tokens_step c u0 :
  exists t u,
    tokens (c :: u0) = t :: tokens u /\ c :: u0 = stage 0 t ++ u /\
    length u <= length u0 /\
    match t with
    | Plain x => x = chr "<" -> starts_no_tag u
    | Tag body => body <> [] /\ Forall (fun x => x <> chr ">") body
    | Ent _ => True
    end.
Proof.
  unfold tokens. cbn [tokens_from].
  destruct (re_match TAG (c :: u0)) as [w|] eqn:E.
  - pose proof E as E0.
    apply re_match_tag_inv in E0 as (body & u' & H & Hne & Hall).
    assert (Hc : c = chr "<") by congruence.
    assert (Hu : u0 = body ++ chr ">" :: u') by congruence. subst c u0.
    assert (Hw : w = chr "<" :: body ++ [chr ">"]).
    { pose proof (re_match_tag body u' Hne Hall) as E'.
      unfold str, char in *. congruence. }
    subst w. exists (Tag body), u'. rewrite removelast_last.
    replace (body ++ chr ">" :: u') with ((body ++ [chr ">"]) ++ u')
      by (rewrite <- app_assoc; reflexivity).
    rewrite tokens_from_skip. split; [reflexivity|]. split; [reflexivity|].
    split; [|split; assumption].
    rewrite !length_app. cbn [length]. unfold str, char in *. lia.
  - unfold entity_at.
    destruct (startswith (c :: u0) (lit "&amp;")) eqn:E1;
      [|destruct (startswith (c :: u0) (lit "&lt;")) eqn:E2;
        [|destruct (startswith (c :: u0) (lit "&gt;")) eqn:E3;
          [|destruct (startswith (c :: u0) (lit "&nbsp;")) eqn:E4]]].
    1-4: cbv beta match;
         match goal with
         | H : startswith _ _ = true |- context [Ent ?e] =>
             apply startswith_spec in H as [u H]; exists (Ent e), u;
             assert (Hu : u0 = drop 1 (entity_text e) ++ u)
               by (cbn in H |- *; congruence);
             split;
               [rewrite Hu;
                change (length (entity_text e) - 1)
                  with (length (drop 1 (entity_text e)));
                rewrite tokens_from_skip; reflexivity|];
             split; [exact H|]; split; [|exact I];
             rewrite Hu, length_app; unfold str, char in *; lia
         end.
    exists (Plain c), u0. split; [reflexivity|]. split; [reflexivity|].
    split; [lia|]. intros ->.
    destruct (split_at_first (chr ">") u0) as [Hno | (body & u' & -> & Hb)].
    + right. exact Hno.
    + destruct body as [|b0 body];
        [left; apply startswith_spec; exists u'; reflexivity|].
      rewrite re_match_tag in E by (discriminate || exact Hb). discriminate.
Qed.

Lemma tokens_spec n : forall s,
  length s <= n ->
  source (tokens s) = s /\ (settled (tokens s) -> well_formed (tokens s)).
Proof.
  induction n as [|n IH]; intros s Hlen.
  { destruct s; [|simpl in Hlen; lia]. split; [reflexivity | auto]. }
  destruct s as [|c u0]; [split; [reflexivity | auto]|].
  cbn [length] in Hlen.
  destruct (tokens_step c u0) as (t & u & Ht & Hs & Hu & Hproper).
  destruct (IH u ltac:(lia)) as [Hsrc Hwf].
  rewrite Ht. split.
  - unfold source, text_at in *. cbn [flat_map]. rewrite Hsrc. symmetry. exact Hs.
  - intros [Hrest Hhead]. split; [exact (Hwf Hrest)|].
    destruct t as [x|body|e]; [|exact Hproper | exact Hhead].
    split; [|exact Hhead]. rewrite Hsrc. exact Hproper.
Qed.

(** The tokens read from a line are those of the line, and they are well
    formed as soon as they are settled. *)
Lemma source_tokens s : source (tokens s) = s.
Proof. apply (tokens_spec (length s)). lia. Qed.

Lemma tokens_well_formed s : settled (tokens s) -> well_formed (tokens s).
Proof. apply (tokens_spec (length s)). lia. Qed.

Lemma clean_line_settled s :
  settled (tokens s) -> vtt_clean_line s = meaning (tokens s).
Proof.
  intros H. rewrite <- (source_tokens s) at 1.
  apply clean_line_tokens, tokens_well_formed, H.
Qed.

Lemma text_at_plain k (s : str) : text_at k (map Plain s) = s.
Proof.
  unfold text_at. induction s as [|c s IH]; [reflexivity|].
  cbn [map flat_map stage app]. rewrite IH. reflexivity.
Qed.

Lemma text_at_app k toks rest :
  text_at k (toks ++ rest) = text_at k toks ++ text_at k rest.
Proof. apply flat_map_app. Qed.

(** Characters other than [<] and [&] are plain text in front of any
    line. *)
Lemma well_formed_plain (s : str) rest :
  Forall (fun c => c <> chr "<" /\ c <> chr "&") s ->
  well_formed rest -> well_formed (map Plain s ++ rest).
Proof.
  intros Hs Hrest. induction Hs as [|c s [Hlt Hamp] _ IH]; [exact Hrest|].
  cbn [map app well_formed]. split; [exact IH|]. split; intros ->; congruence.
Qed.

(** An escaped entity in front of a line: the second substitution leaves
    the text of the entity itself behind, and the later ones decode it. *)
Lemma escaped_entity_clean e rest :
  e <> EAmp -> well_formed rest ->
  vtt_clean_line (lit "&amp;" ++ drop 1 (entity_text e) ++ source rest) =
  entity_char e :: meaning rest.
Proof.
  intros He Hrest.
  assert (Hwf : well_formed (Ent e :: rest)).
  { split; [exact Hrest|]. destruct e; [congruence | exact I ..]. }
  transitivity (meaning (Ent e :: rest)).
  2: { unfold meaning, text_at. destruct e; [congruence | reflexivity ..]. }
  unfold meaning. rewrite <- (pass_entities _ Hwf).
  unfold vtt_clean_line, source. do 3 f_equal.
  assert (Htags :
    re_sub TAG [] (lit "&amp;" ++ drop 1 (entity_text e) ++ text_at 0 rest) =
    lit "&amp;" ++ drop 1 (entity_text e) ++ text_at 1 rest).
  { rewrite <- (pass_tags rest Hrest). unfold re_sub.
    destruct e; [congruence | ..]; numerals;
      change (lit "&amp;") with [38; 97; 109; 112; 59]%N; cbn [drop app];
      repeat (rewrite re_sub_from_nomatch
                by (apply re_match_tag_other; vm_compute; discriminate));
      reflexivity. }
  rewrite Htags. unfold re_sub, text_at. cbn [flat_map].
  rewrite (re_sub_from_self (lit "&amp;")) by (vm_compute; discriminate).
  destruct e; [congruence | ..];
    cbn [stage entity_pass Nat.ltb Nat.leb]; numerals;
    change (lit "&amp;") with [38; 97; 109; 112; 59]%N;
    change (lit "&") with [38%N]; cbn [drop app];
    repeat first
      [ rewrite re_sub_from_nomatch by (apply re_match_lit_other; discriminate)
      | rewrite re_sub_from_nomatch by (apply re_match_lit_second; discriminate) ];
    reflexivity.
Qed.

End MarkupFacts.

(** ** Lines without text *)

Section BlankFacts.

Lemma lstrip_blank a y : blank a -> lstrip (a ++ y) = lstrip y.
Proof.
  induction 1 as [|c a Hc _ IH]; [reflexivity|].
  cbn [app lstrip]. rewrite Hc. exact IH.
Qed.

Lemma blank_lstrip x : blank x -> lstrip x = [].
Proof.
  intros H. rewrite <- (app_nil_r x), lstrip_blank by exact H. reflexivity.
Qed.

Lemma lstrip_nil_blank x : lstrip x = [] -> blank x.
Proof.
  induction x as [|c x IH]; cbn [lstrip]; [constructor|].
  destruct (is_space c) eqn:E; [|discriminate]. intros H.
  constructor; [exact E | exact (IH H)].
Qed.

Lemma lstrip_pad s : exists a, s = a ++ lstrip s /\ blank a.
Proof.
  induction s as [|c s (a & IH & Ha)]; [exists []; split; [reflexivity|constructor]|].
  cbn [lstrip]. destruct (is_space c) eqn:E.
  - exists (c :: a). split; [cbn [app]; f_equal; exact IH | constructor; assumption].
  - exists []. split; [reflexivity | constructor].
Qed.

Lemma lstrip_fixed c s : is_space c = false -> lstrip (c :: s) = c :: s.
Proof. intros H. cbn [lstrip]. rewrite H. reflexivity. Qed.

Lemma lstrip_app x b : lstrip x <> [] -> lstrip (x ++ b) = lstrip x ++ b.
Proof.
  induction x as [|c x IH]; cbn [lstrip app]; [congruence|].
  destruct (is_space c); [exact IH | reflexivity].
Qed.

Lemma rstrip_blank y b : blank b -> rstrip (y ++ b) = rstrip y.
Proof.
  intros H. unfold rstrip.
  rewrite rev_app_distr, lstrip_blank by (apply Forall_rev; exact H). reflexivity.
Qed.

Lemma rstrip_pad s : exists b, s = rstrip s ++ b /\ blank b.
Proof.
  unfold rstrip. destruct (lstrip_pad (rev s)) as (a & Ha & Hb).
  exists (rev a). split; [|apply Forall_rev; exact Hb].
  rewrite <- rev_app_distr, <- Ha, rev_involutive. reflexivity.
Qed.

(** White space around a text does not change what trimming leaves. *)
Lemma strip_pad a x b : blank a -> blank b -> strip (a ++ x ++ b) = strip x.
Proof.
  intros Ha Hb. unfold strip. rewrite lstrip_blank by exact Ha.
  destruct (lstrip x) as [|c y] eqn:E.
  - rewrite lstrip_blank by (apply lstrip_nil_blank; exact E).
    rewrite blank_lstrip by exact Hb. reflexivity.
  - rewrite lstrip_app by (rewrite E; discriminate). rewrite E.
    apply rstrip_blank. exact Hb.
Qed.

(** Trimming cuts white space only. *)
Lemma strip_decompose s : exists a b, s = a ++ strip s ++ b /\ blank a /\ blank b.
Proof.
  destruct (lstrip_pad s) as (a & Ha & Hba).
  destruct (rstrip_pad (lstrip s)) as (b & Hb & Hbb).
  exists a, b. unfold strip. rewrite <- Hb. auto.
Qed.

Lemma blank_strip s : blank s <-> strip s = [].
Proof.
  split.
  - intros H. rewrite <- (app_nil_r s).
    apply (strip_pad s [] []); [exact H | constructor].
  - intros H. destruct (strip_decompose s) as (a & b & Hs & Ha & Hb).
    rewrite H in Hs. rewrite Hs. apply Forall_app. auto.
Qed.

Lemma strip_trimmed c y d :
  is_space c = false -> is_space d = false ->
  strip (c :: y ++ [d]) = c :: y ++ [d].
Proof.
  intros Hc Hd. unfold strip, rstrip. rewrite lstrip_fixed by exact Hc.
  change (c :: y ++ [d]) with ((c :: y) ++ [d]).
  rewrite rev_app_distr. cbn [rev app]. rewrite lstrip_fixed by exact Hd.
  change (d :: rev y ++ [c]) with (rev [d] ++ rev (c :: y)).
  rewrite <- rev_app_distr, rev_involutive. reflexivity.
Qed.

Lemma tags_well_formed toks : Forall is_tag toks -> well_formed toks.
Proof.
  induction 1 as [|t toks Ht _ IH]; [exact I|].
  destruct t; try contradiction. split; assumption.
Qed.

Lemma tags_text_at k toks : 1 <= k -> Forall is_tag toks -> text_at k toks = [].
Proof.
  intros Hk. induction 1 as [|t toks Ht _ IH]; [reflexivity|].
  destruct t; try contradiction. unfold text_at in *. cbn [flat_map stage].
  destruct k; [lia|]. exact IH.
Qed.

(** The tag removal leaves nothing of a sequence of tags, and nothing else
    comes out empty. *)
Lemma re_sub_tags_only s : tags_only s -> re_sub TAG [] s = [].
Proof.
  intros (toks & -> & Htags). unfold source.
  rewrite pass_tags by (apply tags_well_formed; exact Htags).
  apply tags_text_at; [lia | exact Htags].
Qed.

Lemma re_sub_tag_nil_aux n : forall s,
  length s <= n -> re_sub_from TAG [] 0 s = [] -> tags_only s.
Proof.
  induction n as [|n IH]; intros s Hlen.
  { destruct s; [|simpl in Hlen; lia]. intros _. exists []. split; [reflexivity|constructor]. }
  destruct s as [|c u]; [intros _; exists []; split; [reflexivity|constructor]|].
  cbn [length] in Hlen.
  destruct (re_match TAG (c :: u)) as [w|] eqn:E.
  - apply re_match_tag_inv in E as (body & u' & H & Hne & Hall).
    assert (Hc : c = chr "<") by congruence.
    assert (Hu : u = body ++ chr ">" :: u') by congruence. subst c u.
    assert (Hsub : re_sub_from TAG [] 0 (chr "<" :: body ++ chr ">" :: u') =
                   re_sub_from TAG [] 0 u').
    { etrans; [|apply (re_sub_from_match TAG [] (chr "<") (body ++ [chr ">"]) u');
                rewrite <- app_assoc; apply re_match_tag; assumption].
      rewrite <- app_assoc. reflexivity. }
    intros H0.
    assert (H1 : re_sub_from TAG [] 0 u' = [])
      by (etrans; [symmetry; exact Hsub | exact H0]).
    apply IH in H1 as (toks & Htoks & Htags).
    + exists (Tag body :: toks). split; [|constructor; [split; assumption | exact Htags]].
      unfold source, text_at in *. cbn [flat_map stage Nat.eqb].
      rewrite <- Htoks. cbn [app]. rewrite <- app_assoc. reflexivity.
    + rewrite length_app in Hlen. cbn [length] in Hlen. unfold str, char in *. lia.
  - rewrite (re_sub_from_nomatch _ _ _ _ E). discriminate.
Qed.

Lemma re_sub_tag_nil s : re_sub TAG [] s = [] <-> tags_only s.
Proof.
  split; [|apply re_sub_tags_only].
  apply (re_sub_tag_nil_aux (length s)). lia.
Qed.

(** A substitution with a replacement that is not empty leaves something of
    every text that is not empty. *)
Lemma re_sub_nil r repl s : repl <> [] -> re_sub r repl s = [] -> s = [].
Proof.
  intros Hrepl. destruct s as [|c rest]; [reflexivity|].
  unfold re_sub. cbn [re_sub_from].
  destruct (re_match r (c :: rest)) as [[|m0 m]|]; try discriminate.
  intros H. apply app_eq_nil in H as [H _]. congruence.
Qed.

(** The cleaning of a text line leaves nothing exactly of a sequence of
    tags. *)
Lemma vtt_clean_line_nil s : vtt_clean_line s = [] <-> tags_only s.
Proof.
  rewrite <- re_sub_tag_nil. unfold vtt_clean_line. cbv zeta. split.
  - intros H. do 4 (apply re_sub_nil in H; [|vm_compute; discriminate]). exact H.
  - intros ->. reflexivity.
Qed.

(** A sequence of tags that is not empty starts with [<] and ends with
    [>]. *)
Lemma tags_only_shape s :
  tags_only s -> s <> [] -> exists y, s = chr "<" :: y ++ [chr ">"].
Proof.
  intros (toks & -> & Htags).
  induction Htags as [|t toks Ht _ IH]; [intros H; exfalso; apply H; reflexivity|].
  destruct t as [|body|]; try contradiction. intros _.
  unfold source, text_at in *. cbn [flat_map stage Nat.eqb].
  destruct (decide (flat_map (stage 0) toks = [])) as [E|E].
  - rewrite E, app_nil_r. exists body. reflexivity.
  - destruct (IH E) as [y Hy]. rewrite Hy.
    exists (body ++ chr ">" :: chr "<" :: y).
    cbn [app]. rewrite <- !app_assoc. reflexivity.
Qed.

Lemma strip_tags_only s : tags_only s -> strip s = s.
Proof.
  intros Hs. destruct s as [|c s']; [reflexivity|].
  destruct (tags_only_shape _ Hs) as [y Hy]; [discriminate|].
  rewrite Hy. apply strip_trimmed; reflexivity.
Qed.

Lemma strip_markup_only line :
  markup_only line -> exists tags, strip line = tags /\ tags <> [] /\ tags_only tags.
Proof.
  intros (pad1 & tags & pad2 & -> & H1 & H2 & Hne & Htags).
  exists tags. rewrite strip_pad by assumption.
  rewrite strip_tags_only by exact Htags. auto.
Qed.

(** A trimmed text line is emptied by the cleaning exactly when the line
    is blank or holds tags only. *)
Lemma clean_strip_nil line :
  vtt_clean_line (strip line) = [] <-> blank line \/ markup_only line.
Proof.
  rewrite vtt_clean_line_nil. split.
  - intros Htags. destruct (strip_decompose line) as (a & b & Hs & Ha & Hb).
    destruct (decide (strip line = [])) as [E|E].
    + left. apply blank_strip. exact E.
    + right. exists a, (strip line), b. auto.
  - intros [Hb | Hm].
    + apply blank_strip in Hb. rewrite Hb. exists []. split; [reflexivity|constructor].
    + apply strip_markup_only in Hm as (tags & -> & _ & Htags). exact Htags.
Qed.

Lemma markup_only_text_line line :
  markup_only line ->
  nonempty (strip line) = true /\ vtt_clean_line (strip line) = [].
Proof.
  intros Hm. split.
  - apply strip_markup_only in Hm as (tags & -> & Hne & _).
    apply nonempty_true. exact Hne.
  - apply clean_strip_nil. right. exact Hm.
Qed.

End BlankFacts.

(** C7: the cleaning decodes an escaped entity twice.  In the line &amp;lt;
    the entity is &amp; and the text it stands for is &lt;, but the five
    substitutions run one after the other, the one for &amp; first, and the
    one for &lt; rewrites what the one for &amp; produced: the cue text is
    <.  The same happens to &amp;lt;, &amp;gt; and &amp;nbsp; in front of
    any well-formed line.  A tag between & and amp; has a like effect: the
    tag removal joins the two, and the line &<c>amp; comes out as &.  Every
    line is the text of the tokens read from it, and on every line whose
    tokens are settled (no &amp; and no plain & is followed by text that
    reads as the rest of an entity once decoded) the cleaning drops every
    tag and puts the character of each entity in its place: a line without
    < and & is left as it is, so are other entities, a lone & and a < that
    starts no tag, and the line <c>Hello</c> &amp; World of a WebVTT file
    parses to Hello & World. *)
Theorem escaped_entity_decoded_twice :
  (tokens (lit "&amp;lt;") = nested_tokens /\
   source nested_tokens = lit "&amp;lt;" /\
   meaning nested_tokens = lit "&lt;" /\
   vtt_clean_line (lit "&amp;lt;") = lit "<" /\
   parse_vtt sample_vtt_nested_entity = [(lit "00:00:01", lit "<")]) /\
  (forall e rest,
     e <> EAmp -> well_formed rest ->
     let toks := Ent EAmp :: map Plain (drop 1 (entity_text e)) ++ rest in
     meaning toks = lit "&" ++ drop 1 (entity_text e) ++ meaning rest /\
     vtt_clean_line (source toks) = entity_char e :: meaning rest) /\
  (tokens (lit "&<c>amp;") = split_tokens /\
   source split_tokens = lit "&<c>amp;" /\
   meaning split_tokens = lit "&amp;" /\
   vtt_clean_line (lit "&<c>amp;") = lit "&") /\
  (forall s, source (tokens s) = s) /\
  (forall s, settled (tokens s) -> vtt_clean_line s = meaning (tokens s)) /\
  (forall toks, well_formed toks -> vtt_clean_line (source toks) = meaning toks) /\
  (forall toks timestamp_line timestamp,
     well_formed toks ->
     vtt_timestamp (strip timestamp_line) = Some timestamp ->
     strip (source toks) = source toks -> source toks <> [] -> meaning toks <> [] ->
     vtt_cues [timestamp_line; source toks] [] = [(timestamp, meaning toks)]) /\
  (forall s, Forall (fun c => c <> chr "<" /\ c <> chr "&") s -> vtt_clean_line s = s) /\
  vtt_clean_line (lit "&quot;x&#39; AT&T a < b") = lit "&quot;x&#39; AT&T a < b" /\
  parse_vtt sample_vtt_markup = [(lit "00:00:01", lit "Hello & World")].
Proof.
  split; [repeat split; vm_compute; reflexivity|].
  split.
  { intros e rest He Hrest toks. subst toks. split.
    - unfold meaning. change (Ent EAmp :: ?l) with ([Ent EAmp] ++ l).
      rewrite !text_at_app, text_at_plain. reflexivity.
    - unfold source. change (Ent EAmp :: ?l) with ([Ent EAmp] ++ l).
      rewrite !text_at_app, text_at_plain.
      exact (escaped_entity_clean e rest He Hrest). }
  split; [repeat split; vm_compute; reflexivity|].
  split; [exact source_tokens|].
  split; [exact clean_line_settled|].
  split; [exact clean_line_tokens|].
  split.
  { intros toks timestamp_line timestamp Hwf Hts Hstrip Hsrc Hmean.
    rewrite vtt_cues_cons, Hts. cbn [vtt_text_lines].
    rewrite Hstrip, (clean_line_tokens toks Hwf).
    apply nonempty_true in Hsrc, Hmean. rewrite Hsrc, Hmean.
    cbn [app join]. simp vtt_cues. reflexivity. }
  split; [|split; vm_compute; reflexivity].
  intros s Hs.
  pose proof (clean_line_tokens (map Plain s ++ [])
                (well_formed_plain s [] Hs I)) as H.
  unfold source, meaning in H. rewrite !text_at_app, !text_at_plain, !app_nil_r in H.
  exact H.
Qed.

Lemma escaped_entity_decoded_twice_witness :
  tokens (lit "<c>Hello</c> &amp; World") = sample_tokens /\
  settled (tokens (lit "<c>Hello</c> &amp; World")) /\
  well_formed sample_tokens /\
  meaning sample_tokens = lit "Hello & World" /\
  vtt_clean_line (lit "<c>Hello</c> &amp; World") = lit "Hello & World" /\
  vtt_clean_line (source sample_tokens) = lit "Hello & World" /\
  vtt_cues [lit "00:00:01.000 --> 00:00:02.000"; source sample_tokens] [] =
    [(lit "00:00:01", meaning sample_tokens)] /\
  vtt_clean_line (lit "&amp;gt;") = lit ">" /\
  vtt_clean_line (lit "1 > 0") = lit "1 > 0".
Proof.
  assert (Hset : settled (tokens (lit "<c>Hello</c> &amp; World"))).
  { vm_compute. repeat split; try reflexivity; intros H; discriminate H. }
  assert (Hwf : well_formed sample_tokens).
  { vm_compute. repeat split; try discriminate; repeat constructor; discriminate. }
  assert (Hts : vtt_timestamp (strip (lit "00:00:01.000 --> 00:00:02.000")) =
                Some (lit "00:00:01")) by (vm_compute; reflexivity).
  assert (Hstrip : strip (source sample_tokens) = source sample_tokens)
    by (vm_compute; reflexivity).
  assert (Hsrc : source sample_tokens <> []) by (vm_compute; discriminate).
  assert (Hmean : meaning sample_tokens <> []) by (vm_compute; discriminate).
  assert (He : EGt <> EAmp) by discriminate.
  assert (Hplain : Forall (fun c => c <> chr "<" /\ c <> chr "&") (lit "1 > 0"))
    by (repeat constructor; discriminate).
  destruct escaped_entity_decoded_twice
    as (_ & Htwice & _ & _ & Hline & Hclean & Hcue & Hkeep & _).
  split; [vm_compute; reflexivity|]. split; [exact Hset|]. split; [exact Hwf|].
  split; [reflexivity|].
  split; [etrans; [exact (Hline _ Hset) | vm_compute; reflexivity]|].
  split; [exact (Hclean sample_tokens Hwf)|].
  split; [exact (Hcue sample_tokens _ _ Hwf Hts Hstrip Hsrc Hmean)|].
  split; [exact (proj2 (Htwice EGt [] He I)) | exact (Hkeep _ Hplain)].
Defined.

(** ** Empty and unparsable input *)

(** C8: neither parser fails on the empty text or on a text without cues
    (no arrow for WebVTT, no decimal digit for SRT): both return the empty
    sequence; the renderer turns the empty sequence into the fixed message,
    which is not the empty string, for every language argument; and the
    whole parse-deduplicate-render chain gives that message whenever the
    parse finds no cue. *)
Theorem empty_input_gives_message :
  parse_vtt [] = [] /\ parse_srt [] = [] /\
  (forall content, ~ substr (lit "-->") content -> parse_vtt content = []) /\
  (forall content, Forall (fun c => is_decimal c = false) content ->
                   parse_srt content = []) /\
  (forall lang, format_subtitle_output [] lang = NO_CAPTIONS) /\
  NO_CAPTIONS <> [] /\
  (forall ext content lang,
     parse_subtitle_file ext content = [] ->
     transcript ext content lang = NO_CAPTIONS) /\
  (forall ext lang, transcript ext [] lang = NO_CAPTIONS).
Proof.
  assert (Hchain : forall ext content lang,
    parse_subtitle_file ext content = [] ->
    transcript ext content lang = NO_CAPTIONS).
  { intros ext content lang H. unfold transcript. rewrite H. reflexivity. }
  repeat split.
  - apply parse_vtt_no_arrow.
  - apply parse_srt_no_digit.
  - discriminate.
  - exact Hchain.
  - intros ext lang. apply Hchain.
    unfold parse_subtitle_file, parse_subtitle_file_logged.
    destruct (str_eqb ext (lit ".vtt")); [reflexivity|].
    destruct (str_eqb ext (lit ".srt")); reflexivity.
Qed.

Lemma empty_input_gives_message_witness :
  ~ substr (lit "-->") (lit "no captions here") /\
  Forall (fun c => is_decimal c = false) (lit "no captions here") /\
  parse_vtt (lit "no captions here") = [] /\
  parse_srt (lit "no captions here") = [] /\
  transcript (lit ".txt") (lit "no captions here") (Some (lit "en")) = NO_CAPTIONS.
Proof.
  assert (H1 : ~ substr (lit "-->") (lit "no captions here")).
  { intros H. apply contains_spec in H. vm_compute in H. discriminate. }
  assert (H2 : Forall (fun c => is_decimal c = false) (lit "no captions here")).
  { apply Forall_forall. intros x Hx. apply list_elem_of_In in Hx.
    vm_compute in Hx. intuition (subst; reflexivity). }
  destruct empty_input_gives_message as (_ & _ & Hv & Hs & _ & _ & Hchain & _).
  pose proof (Hv _ H1) as Ev. pose proof (Hs _ H2) as Es.
  split; [exact H1|]. split; [exact H2|]. split; [exact Ev|]. split; [exact Es|].
  apply Hchain. unfold parse_subtitle_file, parse_subtitle_file_logged.
  replace (str_eqb (lit ".txt") (lit ".vtt")) with false by (vm_compute; reflexivity).
  replace (str_eqb (lit ".txt") (lit ".srt")) with false by (vm_compute; reflexivity).
  unfold bind, call_parse_vtt, call_parse_srt. rewrite Ev. simpl. exact Es.
Defined.

(** ** Blocks without text *)

Section OmissionFacts.

Lemma blank_not_markup c : is_space c = true -> c <> chr "<" /\ c <> chr "&".
Proof. intros Hc. split; intros ->; vm_compute in Hc; discriminate. Qed.

(** White space between two tags is what the cleaning leaves of the
    line. *)
Lemma tagged_space_kept body1 body2 ws :
  is_tag (Tag body1) -> is_tag (Tag body2) -> blank ws ->
  vtt_clean_line
    (strip (chr "<" :: body1 ++ chr ">" :: ws ++ chr "<" :: body2 ++ [chr ">"])) = ws.
Proof.
  intros H1 H2 Hws.
  set (toks := Tag body1 :: map Plain ws ++ [Tag body2]).
  assert (Hwf : well_formed toks).
  { split; [|exact H1]. apply well_formed_plain.
    - eapply Forall_impl; [exact Hws|]. intros c Hc. apply blank_not_markup, Hc.
    - split; [exact I | exact H2]. }
  assert (Hsrc : chr "<" :: body1 ++ chr ">" :: ws ++ chr "<" :: body2 ++ [chr ">"] =
                 source toks).
  { unfold source, toks. change (Tag body1 :: ?l) with ([Tag body1] ++ l).
    rewrite !text_at_app, text_at_plain. unfold text_at.
    cbn [flat_map stage Nat.eqb]. rewrite !app_nil_r. cbn [app].
    rewrite <- !app_assoc. reflexivity. }
  assert (Hmean : meaning toks = ws).
  { unfold meaning, toks. change (Tag body1 :: ?l) with ([Tag body1] ++ l).
    rewrite !text_at_app, text_at_plain. unfold text_at.
    cbn [flat_map stage Nat.eqb app]. apply app_nil_r. }
  assert (Hstrip : strip (source toks) = source toks).
  { rewrite <- Hsrc.
    replace (chr "<" :: body1 ++ chr ">" :: ws ++ chr "<" :: body2 ++ [chr ">"])
      with (chr "<" :: (body1 ++ chr ">" :: ws ++ chr "<" :: body2) ++ [chr ">"]).
    - apply strip_trimmed; reflexivity.
    - f_equal. rewrite <- app_assoc. cbn [app]. rewrite <- app_assoc. reflexivity. }
  rewrite Hsrc, Hstrip, <- Hmean. apply clean_line_tokens. exact Hwf.
Qed.

Lemma blank_rest (rest : list str) :
  match rest with [] => True | b :: _ => blank b end ->
  match rest with [] => True | b :: _ => strip b = [] end.
Proof. destruct rest as [|b rest]; [auto|]. apply blank_strip. Qed.

(** A WebVTT block whose text lines hold tags only adds no cue. *)
Lemma vtt_block_omitted l body rest entries timestamp :
  vtt_timestamp (strip l) = Some timestamp ->
  Forall markup_only body ->
  match rest with [] => True | b :: _ => blank b end ->
  vtt_cues (l :: body ++ rest) entries = vtt_cues rest entries.
Proof.
  intros Hts Hbody Hrest.
  rewrite vtt_cues_cons, Hts, (vtt_text_lines_blank body rest []); [reflexivity | |].
  - eapply Forall_impl; [exact Hbody|]. intros t Ht. apply markup_only_text_line, Ht.
  - apply blank_rest, Hrest.
Qed.

(** A WebVTT block with a text line that holds more than tags adds a
    cue. *)
Lemma vtt_block_kept l body rest entries timestamp :
  vtt_timestamp (strip l) = Some timestamp ->
  Forall (fun t => ~ blank t) body ->
  Exists (fun t => ~ markup_only t) body ->
  match rest with [] => True | b :: _ => blank b end ->
  exists text, text <> [] /\
    vtt_cues (l :: body ++ rest) entries =
    vtt_cues rest (entries ++ [(timestamp, text)]).
Proof.
  intros Hts Hnb Hex Hrest.
  assert (Hbody : Forall (fun t => nonempty (strip t) = true) body).
  { eapply Forall_impl; [exact Hnb|]. intros t Ht. apply nonempty_true.
    intros E. apply Ht, blank_strip, E. }
  rewrite vtt_cues_cons, Hts,
    (vtt_text_lines_body body rest [] Hbody (blank_rest rest Hrest)).
  cbn [app].
  destruct (filter (fun t => nonempty t = true)
              (map (fun t => vtt_clean_line (strip t)) body)) as [|x xs] eqn:E.
  - exfalso. apply Exists_exists in Hex as (t & Hin & Ht).
    rewrite Forall_forall in Hnb.
    assert (Hx : vtt_clean_line (strip t) ∈
                 filter (fun t => nonempty t = true)
                   (map (fun t => vtt_clean_line (strip t)) body)).
    { apply list_elem_of_filter. split.
      - apply nonempty_true. intros Hnil. apply clean_strip_nil in Hnil as [Hb | Hm].
        + exact (Hnb t Hin Hb).
        + exact (Ht Hm).
      - apply list_elem_of_fmap. exists t. split; [reflexivity | exact Hin]. }
    rewrite E in Hx. inversion Hx.
  - exists (join (lit " ") (x :: xs)). split; [|reflexivity].
    apply join_nonempty. apply nonempty_true.
    assert (Hx : x ∈ filter (fun t => nonempty t = true)
                   (map (fun t => vtt_clean_line (strip t)) body))
      by (rewrite E; left).
    apply list_elem_of_filter in Hx as [Hx _]. exact Hx.
Qed.

(** The cue of an SRT block with a timestamp line and text lines. *)
Lemma srt_block_lines block l0 l1 body timestamp :
  splitlines (strip block) = l0 :: l1 :: body -> body <> [] ->
  re_match SRT_TIMESTAMP l1 = Some timestamp ->
  srt_block block =
  let text :=
    re_sub TAG []
      (join (lit " ")
         (map strip (filter (fun t => nonempty (strip t) = true) body))) in
  if nonempty text then Some (timestamp, text) else None.
Proof.
  intros Hl Hb Hm. unfold srt_block. rewrite Hl.
  destruct body as [|t body]; [congruence|].
  cbn [length Nat.ltb Nat.leb lookup list_lookup default from_option id].
  rewrite Hm. reflexivity.
Qed.

Lemma srt_block_text block l0 l1 body timestamp :
  splitlines (strip block) = l0 :: l1 :: body -> body <> [] ->
  re_match SRT_TIMESTAMP l1 = Some timestamp ->
  let text :=
    join (lit " ") (map strip (filter (fun t => nonempty (strip t) = true) body)) in
  (tags_only text -> srt_block block = None) /\
  (~ tags_only text -> srt_block block = Some (timestamp, re_sub TAG [] text)).
Proof.
  intros Hl Hb Hm text. rewrite (srt_block_lines _ _ _ _ _ Hl Hb Hm). cbv zeta.
  fold text. split.
  - intros Htags. apply re_sub_tag_nil in Htags. rewrite Htags. reflexivity.
  - intros Htags. destruct (re_sub TAG [] text) as [|c u] eqn:E; [|reflexivity].
    exfalso. apply Htags, re_sub_tag_nil, E.
Qed.

Lemma filter_blank (ls : list str) :
  Forall blank ls -> filter (fun t => nonempty (strip t) = true) ls = [].
Proof.
  induction 1 as [|t ls Ht _ IH]; [reflexivity|]. rewrite filter_cons.
  apply blank_strip in Ht.
  destruct (decide (nonempty (strip t) = true)) as [Hn|_]; [|exact IH].
  rewrite Ht in Hn. discriminate.
Qed.

(** An SRT block whose one text line that is not blank holds tags only
    adds no cue. *)
Lemma srt_block_omitted block l0 l1 blanks1 line blanks2 timestamp :
  splitlines (strip block) = l0 :: l1 :: blanks1 ++ line :: blanks2 ->
  re_match SRT_TIMESTAMP l1 = Some timestamp ->
  Forall blank blanks1 -> Forall blank blanks2 -> markup_only line ->
  srt_block block = None.
Proof.
  intros Hl Hm H1 H2 Hline.
  assert (Hne : blanks1 ++ line :: blanks2 <> []) by (destruct blanks1; discriminate).
  apply (proj1 (srt_block_text _ _ _ _ _ Hl Hne Hm)).
  rewrite filter_app, filter_cons, !filter_blank by assumption.
  destruct (markup_only_text_line _ Hline) as [Hn _].
  destruct (decide (nonempty (strip line) = true)) as [_|Hd]; [|congruence].
  cbn [app map join].
  apply strip_markup_only in Hline as (tags & -> & _ & Htags). exact Htags.
Qed.

(** Whatever parser runs, the cues of a file have text. *)
Lemma parse_subtitle_file_has_text ext content :
  Forall has_text (parse_subtitle_file ext content).
Proof.
  unfold parse_subtitle_file, parse_subtitle_file_logged.
  destruct (str_eqb ext (lit ".vtt")); [apply vtt_cues_has_text; constructor|].
  destruct (str_eqb ext (lit ".srt")); [apply parse_srt_has_text|].
  unfold bind, call_parse_vtt, call_parse_srt.
  destruct (parse_vtt content) as [|e es] eqn:E; cbn [snd].
  - apply parse_srt_has_text.
  - rewrite <- E. apply vtt_cues_has_text. constructor.
Qed.

End OmissionFacts.

(** C10 as stated fails on tags around white space.  The line <c> </c>
    holds nothing but white space once its tags are dropped, and nothing at
    all once that is trimmed; but each line is trimmed first and cleaned of
    its tags second, and what is left is not trimmed again: a text of one
    space is left, which is not the empty string, and the block gives a cue
    with that text.  The same goes for an SRT block with the text line
    <i> </i>, or with <i> on one line and </i> on the next. *)
Lemma blank_markup_cue_is_kept :
  tokens (lit "<c> </c>") = blank_tokens /\
  source blank_tokens = lit "<c> </c>" /\
  strip (meaning blank_tokens) = [] /\
  vtt_clean_line (strip (lit "<c> </c>")) = lit " " /\
  parse_vtt sample_vtt_blank_markup = [(lit "00:00:01", lit " ")] /\
  parse_srt sample_srt_blank_markup = [(lit "00:00:01", lit " ")] /\
  parse_srt sample_srt_tag_lines = [(lit "00:00:01", lit " ")].
Proof. repeat split; vm_compute; reflexivity. Qed.

(** C10 (amended): every cue of either parser, and so every cue of a parsed
    file, has a text that is not the empty string; the text may be white
    space.  A text line is trimmed and then cleaned, and it gives nothing to
    the cue exactly when it is blank or holds tags only, with or without
    white space around them.  A WebVTT block whose text lines all hold tags
    only adds no cue for its timestamp, and a block with a text line that
    holds more does add one.  White space between two tags is more: it is
    the cleaned text of its line.  An SRT block of three lines or more with
    a timestamp on its second line adds no cue exactly when its text lines,
    trimmed and joined by single spaces without the blank ones, make a
    sequence of tags: so it is when its one text line that is not blank
    holds tags only. *)
Theorem parsed_cues_have_text :
  (forall content, Forall has_text (parse_vtt content)) /\
  (forall content, Forall has_text (parse_srt content)) /\
  (forall ext content, Forall has_text (parse_subtitle_file ext content)) /\
  (forall block e, srt_block block = Some e -> has_text e) /\
  (forall line, vtt_clean_line (strip line) = [] <-> blank line \/ markup_only line) /\
  (forall l body rest entries timestamp,
     vtt_timestamp (strip l) = Some timestamp ->
     Forall markup_only body ->
     match rest with [] => True | b :: _ => blank b end ->
     vtt_cues (l :: body ++ rest) entries = vtt_cues rest entries) /\
  (forall l body rest entries timestamp,
     vtt_timestamp (strip l) = Some timestamp ->
     Forall (fun t => ~ blank t) body ->
     Exists (fun t => ~ markup_only t) body ->
     match rest with [] => True | b :: _ => blank b end ->
     exists text, text <> [] /\
       vtt_cues (l :: body ++ rest) entries =
       vtt_cues rest (entries ++ [(timestamp, text)])) /\
  (forall body1 body2 ws,
     is_tag (Tag body1) -> is_tag (Tag body2) -> blank ws ->
     vtt_clean_line
       (strip (chr "<" :: body1 ++ chr ">" :: ws ++ chr "<" :: body2 ++ [chr ">"])) =
     ws) /\
  (forall block l0 l1 body timestamp,
     splitlines (strip block) = l0 :: l1 :: body -> body <> [] ->
     re_match SRT_TIMESTAMP l1 = Some timestamp ->
     let text :=
       join (lit " ") (map strip (filter (fun t => nonempty (strip t) = true) body)) in
     (tags_only text -> srt_block block = None) /\
     (~ tags_only text -> srt_block block = Some (timestamp, re_sub TAG [] text))) /\
  (forall block l0 l1 blanks1 line blanks2 timestamp,
     splitlines (strip block) = l0 :: l1 :: blanks1 ++ line :: blanks2 ->
     re_match SRT_TIMESTAMP l1 = Some timestamp ->
     Forall blank blanks1 -> Forall blank blanks2 -> markup_only line ->
     srt_block block = None).
Proof.
  split; [intros content; apply vtt_cues_has_text; constructor|].
  split; [exact parse_srt_has_text|].
  split; [exact parse_subtitle_file_has_text|].
  split; [exact srt_block_has_text|].
  split; [exact clean_strip_nil|].
  split; [exact vtt_block_omitted|].
  split; [exact vtt_block_kept|].
  split; [exact tagged_space_kept|].
  split; [exact srt_block_text | exact srt_block_omitted].
Qed.

Lemma parsed_cues_have_text_witness :
  vtt_timestamp (strip (lit "00:00:01.000 --> 00:00:02.000")) = Some (lit "00:00:01") /\
  Forall markup_only (map lit ["  <c></c> "; " <b> "]%string) /\
  vtt_cues (lit "00:00:01.000 --> 00:00:02.000" ::
            map lit ["  <c></c> "; " <b> "]%string ++
            map lit [""; "00:00:03.000 --> 00:00:04.000"; "kept"]%string) [] =
    [(lit "00:00:03", lit "kept")] /\
  (exists text, text <> [] /\
     vtt_cues (lit "00:00:01.000 --> 00:00:02.000" ::
               map lit [" <b> "; "<c>x</c>"]%string ++ []) [] =
     vtt_cues [] ([] ++ [(lit "00:00:01", text)])) /\
  vtt_clean_line (strip (lit "<c> </c>")) = lit " " /\
  srt_block (text_of_lines ["1"; "00:00:01,000 --> 00:00:02,000"; ""; "  <i></i> "; ""]%string) =
    None /\
  parse_vtt sample_vtt_padded_tags = [(lit "00:00:03", lit "kept")] /\
  parse_srt sample_srt_padded_tags = [(lit "00:00:04", lit "kept")] /\
  parse_srt sample_srt_tag_only = [(lit "00:00:04", lit "kept")].
Proof.
  assert (Hts : vtt_timestamp (strip (lit "00:00:01.000 --> 00:00:02.000")) =
                Some (lit "00:00:01")) by (vm_compute; reflexivity).
  assert (H1 : markup_only (lit "  <c></c> ")).
  { exists (lit "  "), (lit "<c></c>"), (lit " ").
    split; [reflexivity|]. split; [repeat constructor|]. split; [repeat constructor|].
    split; [discriminate|].
    exists [Tag (lit "c"); Tag (lit "/c")]. split; [reflexivity|].
    repeat constructor; discriminate. }
  assert (H2 : markup_only (lit " <b> ")).
  { exists (lit " "), (lit "<b>"), (lit " ").
    split; [reflexivity|]. split; [repeat constructor|]. split; [repeat constructor|].
    split; [discriminate|].
    exists [Tag (lit "b")]. split; [reflexivity|].
    repeat constructor; discriminate. }
  assert (H3 : markup_only (lit "  <i></i>")).
  { exists (lit "  "), (lit "<i></i>"), [].
    split; [reflexivity|]. split; [repeat constructor|]. split; [constructor|].
    split; [discriminate|].
    exists [Tag (lit "i"); Tag (lit "/i")]. split; [reflexivity|].
    repeat constructor; discriminate. }
  assert (Hbody : Forall markup_only (map lit ["  <c></c> "; " <b> "]%string))
    by (repeat constructor; assumption).
  assert (Hnb : Forall (fun t => ~ blank t) (map lit [" <b> "; "<c>x</c>"]%string)).
  { repeat constructor; intros H; apply blank_strip in H; vm_compute in H;
      discriminate. }
  assert (Hex : Exists (fun t => ~ markup_only t) (map lit [" <b> "; "<c>x</c>"]%string)).
  { right. left. intros H.
    assert (E : vtt_clean_line (strip (lit "<c>x</c>")) = [])
      by (apply clean_strip_nil; right; exact H).
    vm_compute in E. discriminate. }
  assert (Hlines :
    splitlines (strip (text_of_lines
      ["1"; "00:00:01,000 --> 00:00:02,000"; ""; "  <i></i> "; ""]%string)) =
    lit "1" :: lit "00:00:01,000 --> 00:00:02,000" :: [lit ""] ++ lit "  <i></i>" :: [])
    by (vm_compute; reflexivity).
  assert (Hm : re_match SRT_TIMESTAMP (lit "00:00:01,000 --> 00:00:02,000") =
               Some (lit "00:00:01")) by (vm_compute; reflexivity).
  destruct parsed_cues_have_text
    as (_ & _ & _ & _ & _ & Homit & Hkept & Hspace & _ & Hsrt).
  split; [exact Hts|]. split; [exact Hbody|]. split.
  { etrans;
      [exact (Homit _ _ (map lit [""; "00:00:03.000 --> 00:00:04.000"; "kept"]%string)
                [] _ Hts Hbody (Forall_nil_2 _))|].
    vm_compute. reflexivity. }
  split; [exact (Hkept _ _ [] [] _ Hts Hnb Hex I)|].
  split.
  { apply (Hspace (lit "c") (lit "/c") (lit " "));
      [split; [discriminate | repeat constructor; discriminate] ..
      | repeat constructor]. }
  split.
  { apply (Hsrt _ _ _ _ _ _ _ Hlines Hm); [repeat constructor | constructor | exact H3]. }
  split; [vm_compute; reflexivity|]. split; vm_compute; reflexivity.
Defined.

(** ** Dispatch *)

(** C9: with an extension other than .vtt and .srt the WebVTT parser is
    called first and the SRT parser is called after it exactly when the
    WebVTT parser found no cue; with .vtt or .srt only that format's parser
    is called, whatever it finds. *)
Theorem dispatch_fallback_chain (ext content : str) :
  (ext = lit ".vtt" ->
   parse_subtitle_file_logged ext content = ([CallVTT], parse_vtt content)) /\
  (ext = lit ".srt" ->
   parse_subtitle_file_logged ext content = ([CallSRT], parse_srt content)) /\
  (ext <> lit ".vtt" -> ext <> lit ".srt" ->
   (parse_vtt content = [] /\
    parse_subtitle_file_logged ext content = ([CallVTT; CallSRT], parse_srt content)) \/
   (parse_vtt content <> [] /\
    parse_subtitle_file_logged ext content = ([CallVTT], parse_vtt content))).
Proof.
  unfold parse_subtitle_file_logged. split; [|split].
  - intros ->. reflexivity.
  - intros ->. reflexivity.
  - intros Hv Hs. apply str_eqb_neq in Hv, Hs. rewrite Hv, Hs.
    unfold bind, call_parse_vtt, call_parse_srt, ret.
    destruct (parse_vtt content) as [|e es].
    + left. split; reflexivity.
    + right. split; [discriminate | reflexivity].
Qed.

Lemma dispatch_fallback_chain_witness :
  lit ".txt" <> lit ".vtt" /\ lit ".txt" <> lit ".srt" /\
  parse_subtitle_file_logged (lit ".txt") sample_srt =
    ([CallVTT; CallSRT], [(lit "00:00:01", lit "Hello there")]).
Proof.
  assert (Hv : lit ".txt" <> lit ".vtt") by (vm_compute; discriminate).
  assert (Hs : lit ".txt" <> lit ".srt") by (vm_compute; discriminate).
  split; [exact Hv|]. split; [exact Hs|].
  destruct (proj2 (proj2 (dispatch_fallback_chain (lit ".txt") sample_srt)) Hv Hs)
    as [[_ ->] | [Hne _]].
  - vm_compute. reflexivity.
  - exfalso. apply Hne. vm_compute. reflexivity.
Defined.

(** ** Deduplicator: overlap search *)

Section OverlapFacts.
Variables prev curr : str.

Lemma find_overlap_from_le i : find_overlap_from i prev curr <= i.
Proof.
  induction i as [|i IH]; cbn [find_overlap_from]; [lia|].
  destruct (endswith prev (take (S i) curr)); lia.
Qed.

Lemma find_overlap_from_hit i :
  find_overlap_from i prev curr = 0 \/
  endswith prev (take (find_overlap_from i prev curr) curr) = true.
Proof.
  induction i as [|i IH]; cbn [find_overlap_from]; [left; reflexivity|].
  destruct (endswith prev (take (S i) curr)) eqn:E; [right; exact E | exact IH].
Qed.

Lemma find_overlap_from_max i j :
  find_overlap_from i prev curr < j <= i ->
  endswith prev (take j curr) = false.
Proof.
  induction i as [|i IH]; cbn [find_overlap_from]; [lia|].
  destruct (endswith prev (take (S i) curr)) eqn:E; [lia|].
  intros [Hlt Hle]. destruct (Nat.eq_dec j (S i)) as [->|Hne]; [exact E|].
  apply IH. lia.
Qed.

Lemma find_overlap_longest : longest_overlap prev curr (find_overlap prev curr).
Proof.
  unfold find_overlap. set (m := min (length prev) (length curr)).
  pose proof (find_overlap_from_le m) as Hle. split.
  - destruct (find_overlap_from_hit m) as [H0 | Hhit].
    + exists []. rewrite H0. split; [|reflexivity].
      split; [exists prev; symmetry; apply app_nil_r | exists curr; reflexivity].
    + exists (take (find_overlap_from m prev curr) curr). split.
      * split; [apply endswith_spec; exact Hhit|].
        exists (drop (find_overlap_from m prev curr) curr).
        symmetry. apply take_drop.
      * rewrite length_take. lia.
  - intros w [[a Ha] [b Hb]].
    destruct (Nat.le_gt_cases (length w) (find_overlap_from m prev curr)) as [|Hgt];
      [assumption|exfalso].
    assert (Hm : length w <= m).
    { pose proof (f_equal length Ha) as Ha'. pose proof (f_equal length Hb) as Hb'.
      rewrite length_app in Ha', Hb'. subst m. lia. }
    pose proof (find_overlap_from_max m (length w) (conj Hgt Hm)) as Hfalse.
    assert (Htake : take (length w) curr = w).
    { rewrite Hb. apply take_app_length. }
    rewrite Htake in Hfalse.
    assert (endswith prev w = true) by (apply endswith_spec; eauto).
    congruence.
Qed.

Lemma longest_overlap_unique n : longest_overlap prev curr n -> n = find_overlap prev curr.
Proof.
  intros [(w & Hw & Hn) Hmax].
  destruct find_overlap_longest as [(w' & Hw' & Hn') Hmax'].
  specialize (Hmax w' Hw'). specialize (Hmax' w Hw). lia.
Qed.

End OverlapFacts.

(** ** Deduplicator: the loop as a recursion on the open cue *)

Section LoopFacts.

Lemma last_item_snoc ps p : last_item (ps ++ [p]) = p.
Proof. apply List.last_last. Qed.

Lemma set_last_snoc ps p x : set_last (ps ++ [p]) x = ps ++ [x].
Proof.
  unfold set_last. rewrite length_app. simpl.
  replace (pred (length ps + 1)) with (length ps + 0) by lia.
  rewrite insert_app_r. reflexivity.
Qed.

Lemma dedup_step_snoc ps p tss ts text :
  dedup_step (ps ++ [p], tss) (ts, text) =
  match merge_text p text with
  | Some p' => (ps ++ [p'], tss)
  | None => (ps ++ [p; text], tss ++ [ts])
  end.
Proof.
  unfold dedup_step, merge_text. rewrite last_item_snoc.
  destruct (str_eqb text p) eqn:E1; [reflexivity|].
  destruct (contains text p); [rewrite set_last_snoc; reflexivity|].
  destruct (contains p text); [reflexivity|].
  destruct (5 <? find_overlap p text).
  - destruct (nonempty (strip (drop (find_overlap p text) text)));
      [rewrite set_last_snoc|]; reflexivity.
  - rewrite <- app_assoc. reflexivity.
Qed.

Lemma combine_snoc (tss ps : list str) t p :
  length tss = length ps ->
  combine (tss ++ [t]) (ps ++ [p]) = combine tss ps ++ [(t, p)].
Proof.
  revert ps. induction tss as [|x tss IH]; intros [|y ps] Hlen; simpl in *;
    try discriminate; [reflexivity|].
  rewrite IH by lia. reflexivity.
Qed.

Lemma fold_dedup_from es : forall ps p tss t,
  length tss = length ps ->
  (let '(merged_parts, timestamps) :=
     fold_left dedup_step es (ps ++ [p], tss ++ [t]) in
   combine timestamps merged_parts) = combine tss ps ++ dedup_from t p es.
Proof.
  induction es as [|[ts text] es IH]; intros ps p tss t Hlen.
  - simpl. apply combine_snoc. exact Hlen.
  - cbn [fold_left dedup_from]. rewrite dedup_step_snoc.
    destruct (merge_text p text) as [p'|].
    + apply IH. exact Hlen.
    + replace (ps ++ [p; text]) with ((ps ++ [p]) ++ [text])
        by (rewrite <- app_assoc; reflexivity).
      rewrite IH by (rewrite !length_app; simpl; lia).
      rewrite combine_snoc by exact Hlen.
      rewrite <- app_assoc. reflexivity.
Qed.

Lemma deduplicate_entries_cons t p es :
  deduplicate_entries ((t, p) :: es) = dedup_from t p es.
Proof.
  unfold deduplicate_entries.
  exact (fold_dedup_from es [] p [] t eq_refl).
Qed.

(** [merged_parts] is never empty inside the loop, so [merged_parts[-1]]
    always exists. *)
Lemma merged_parts_nonempty rest ts0 text0 :
  fst (fold_left dedup_step rest ([text0], [ts0])) <> [].
Proof.
  assert (H : forall (st : dedup_state), fst st <> [] ->
            fst (fold_left dedup_step rest st) <> []).
  { induction rest as [|[ts text] rest IH]; intros st Hst; [exact Hst|].
    cbn [fold_left]. apply IH. destruct st as [parts tss]. cbn [fst] in Hst.
    destruct parts as [|p parts _] using rev_ind; [congruence|].
    rewrite dedup_step_snoc. destruct (merge_text p text); cbn [fst];
      intros Hnil; apply app_eq_nil in Hnil as [_ Hnil]; discriminate. }
  apply H. discriminate.
Qed.

(** An absorbed cue leaves a text that still contains the previous one. *)
Lemma merge_text_extends p text p' : merge_text p text = Some p' -> substr p p'.
Proof.
  unfold merge_text.
  destruct (str_eqb text p); [intros [= <-]; apply substr_refl|].
  destruct (contains text p) eqn:E2;
    [intros [= <-]; apply contains_spec; exact E2|].
  destruct (contains p text); [intros [= <-]; apply substr_refl|].
  destruct (5 <? find_overlap p text); [|discriminate].
  destruct (nonempty _); intros [= <-];
    [apply substr_app_l | apply substr_refl].
Qed.

(** A cue opens a new entry only when none of the first three rules applies
    and the overlap is at most 5. *)
Lemma merge_text_None p text :
  merge_text p text = None <->
  text <> p /\ ~ substr p text /\ ~ substr text p /\ find_overlap p text <= 5.
Proof.
  unfold merge_text. rewrite <- !contains_spec, <- str_eqb_neq.
  destruct (str_eqb text p); [split; [discriminate | intros [? _]; discriminate]|].
  destruct (contains text p);
    [split; [discriminate | intros (_ & H & _); exfalso; auto]|].
  destruct (contains p text);
    [split; [discriminate | intros (_ & _ & H & _); exfalso; auto]|].
  destruct (5 <? find_overlap p text) eqn:E.
  - apply Nat.ltb_lt in E.
    destruct (nonempty _); (split; [discriminate | intros (_ & _ & _ & H); lia]).
  - apply Nat.ltb_ge in E. split; [|reflexivity]. intros _.
    repeat split; congruence.
Qed.

End LoopFacts.

(** ** Deduplicator: the output *)

Lemma dedup_from_not_sub es : forall t p,
  exists p' rest,
    dedup_from t p es = (t, p') :: rest /\ substr p p' /\
    adjacent not_sub_of ((t, p') :: rest).
Proof.
  induction es as [|[ts text] es IH]; intros t p; cbn [dedup_from].
  - exists p, []. repeat split. apply substr_refl.
  - destruct (merge_text p text) as [p1|] eqn:E.
    + destruct (IH t p1) as (p' & rest & -> & Hsub & Hadj).
      exists p', rest. repeat split; [|exact Hadj].
      eapply substr_trans; [eapply merge_text_extends; exact E | exact Hsub].
    + destruct (IH ts text) as (p' & rest & -> & Hsub & Hadj).
      exists p, ((ts, p') :: rest). split; [reflexivity|].
      split; [apply substr_refl|]. split; [|exact Hadj].
      apply merge_text_None in E as (_ & _ & Hno & _).
      intros Hin. apply Hno. eapply substr_trans; [exact Hsub | exact Hin].
Qed.

Lemma adjacent_impl {A} (R S : A -> A -> Prop) (l : list A) :
  (forall a b, R a b -> S a b) -> adjacent R l -> adjacent S l.
Proof.
  intros HRS. induction l as [|a [|b l] IH]; simpl; auto.
  intros [H1 H2]. split; [apply HRS; exact H1 | apply IH; exact H2].
Qed.

(** C4: in the output of the deduplicator no two neighbouring cues have the
    same text, whatever the input; replacing or extending the text of the
    open cue after its predecessor was closed never makes the two equal. *)
Theorem dedup_no_adjacent_identical (entries : list entry) :
  adjacent (fun a b => snd a <> snd b) (deduplicate_entries entries).
Proof.
  destruct entries as [|[t p] es]; [exact I|].
  rewrite deduplicate_entries_cons.
  destruct (dedup_from_not_sub es t p) as (p' & rest & -> & _ & Hadj).
  revert Hadj. apply adjacent_impl.
  intros a b Hno Heq. apply Hno. rewrite Heq. apply substr_refl.
Qed.

Lemma clean_pair_new_entry prev curr : clean_pair prev curr -> merge_text prev curr = None.
Proof.
  intros (Hne & H1 & H2 & Hov). apply merge_text_None.
  repeat split; try assumption; [congruence|].
  destruct (find_overlap_longest prev curr) as [(w & Hw & <-) _]. auto.
Qed.

Lemma dedup_from_clean es : forall t p,
  adjacent clean_pair (p :: map snd es) -> dedup_from t p es = (t, p) :: es.
Proof.
  induction es as [|[ts text] es IH]; intros t p Hadj; cbn [dedup_from]; [reflexivity|].
  cbn in Hadj. destruct Hadj as [Hpair Hadj].
  rewrite (clean_pair_new_entry _ _ Hpair). f_equal. apply IH. exact Hadj.
Qed.

(** C5: a cue sequence whose neighbouring texts are pairwise different, not
    contained in one another, and overlap in at most 5 characters comes back
    from the deduplicator unchanged. *)
Theorem dedup_identity_on_clean (entries : list entry) :
  adjacent clean_pair (map snd entries) ->
  deduplicate_entries entries = entries.
Proof.
  destruct entries as [|[t p] es]; [reflexivity|].
  intros Hadj. rewrite deduplicate_entries_cons. apply dedup_from_clean. exact Hadj.
Qed.

Lemma dedup_identity_on_clean_witness :
  adjacent clean_pair
    (map snd [(lit "00:00:01", lit "hello there"); (lit "00:00:05", lit "general kenobi");
              (lit "00:00:09", lit "there he is")]) /\
  deduplicate_entries
    [(lit "00:00:01", lit "hello there"); (lit "00:00:05", lit "general kenobi");
     (lit "00:00:09", lit "there he is")] =
    [(lit "00:00:01", lit "hello there"); (lit "00:00:05", lit "general kenobi");
     (lit "00:00:09", lit "there he is")].
Proof.
  assert (H : adjacent clean_pair
    (map snd [(lit "00:00:01", lit "hello there"); (lit "00:00:05", lit "general kenobi");
              (lit "00:00:09", lit "there he is")])).
  { assert (Hpair : forall a b : str,
      str_eqb a b = false -> contains b a = false -> contains a b = false ->
      (find_overlap a b <=? 5) = true -> clean_pair a b).
    { intros a b E1 E2 E3 E4. unfold clean_pair.
      rewrite <- !contains_spec, <- str_eqb_neq.
      repeat split; try congruence.
      intros w Hw. apply Nat.leb_le in E4.
      destruct (find_overlap_longest a b) as [_ Hmax]. specialize (Hmax w Hw). lia. }
    cbn [map snd adjacent]. repeat split; apply Hpair; vm_compute; reflexivity. }
  split; [exact H | exact (dedup_identity_on_clean _ H)].
Defined.

Lemma dedup_from_groups es : forall t p,
  exists g gs out outs,
    es = g ++ concat gs /\
    dedup_from t p es = out :: outs /\
    fst out = t /\ dedup_from t p g = [out] /\
    Forall2 group_of gs outs.
Proof.
  induction es as [|[ts text] es IH]; intros t p.
  - exists [], [], (t, p), []. repeat split. constructor.
  - cbn [dedup_from]. destruct (merge_text p text) as [p1|] eqn:E.
    + destruct (IH t p1) as (g & gs & out & outs & -> & Hout & Hts & Hg & Hgs).
      exists ((ts, text) :: g), gs, out, outs. repeat split; try assumption.
      cbn [dedup_from]. rewrite E. exact Hg.
    + destruct (IH ts text) as (g & gs & out & outs & -> & Hout & Hts & Hg & Hgs).
      exists [], (((ts, text) :: g) :: gs), (t, p), (out :: outs).
      rewrite Hout. repeat split. constructor; [|exact Hgs].
      exists (ts, text), g. repeat split; [exact Hts|].
      rewrite deduplicate_entries_cons. exact Hg.
Qed.

(** C6: the input splits into consecutive groups, one per output cue; each
    output cue carries the timestamp of the first cue of its group, and the
    cues absorbed after it (exact repeat, containment, overlap) change its
    text only.  A cue contained in its successor keeps its own timestamp and
    takes the successor's text. *)
Theorem dedup_keeps_first_timestamp :
  (forall entries : list entry,
     exists groups : list (list entry),
       concat groups = entries /\
       Forall2 group_of groups (deduplicate_entries entries)) /\
  (forall t1 t2 : str,
     deduplicate_entries [(t1, lit "hello"); (t2, lit "hello world")] =
     [(t1, lit "hello world")]).
Proof.
  split.
  - intros [|[t p] es]; [exists []; split; [reflexivity | constructor]|].
    rewrite deduplicate_entries_cons.
    destruct (dedup_from_groups es t p) as (g & gs & out & outs & -> & -> & Hts & Hg & Hgs).
    exists (((t, p) :: g) :: gs). split; [reflexivity|].
    constructor; [|exact Hgs].
    exists (t, p), g. repeat split; [exact Hts|].
    rewrite deduplicate_entries_cons. exact Hg.
  - intros t1 t2. reflexivity.
Qed.

(** C1 as stated fails on its own example: "brown" is an overlap of exactly
    5 characters, which is not above the threshold, so the two cues are
    returned as they are and not merged. *)
Lemma overlap_of_five_not_merged :
  deduplicate_entries
    [(lit "00:00:01", lit "the quick brown"); (lit "00:00:03", lit "brown fox jumps")] =
    [(lit "00:00:01", lit "the quick brown"); (lit "00:00:03", lit "brown fox jumps")] /\
  find_overlap (lit "the quick brown") (lit "brown fox jumps") = 5 /\
  deduplicate_entries
    [(lit "00:00:01", lit "the quick brown"); (lit "00:00:03", lit "brown fox jumps")] <>
    [(lit "00:00:01", lit "the quick brown fox jumps")].
Proof.
  repeat split; try (vm_compute; reflexivity).
  vm_compute. discriminate.
Qed.

(** C1 (amended): for two cues that are neither equal nor contained in one
    another and whose longest suffix-of-prev / prefix-of-curr overlap has
    length [n]: when [n] exceeds 5 the second cue is dropped and the trimmed
    remainder [curr[n:]] is appended to the first cue's text after a single
    space (nothing is appended when that remainder is blank); when [n] is at
    most 5 both cues are kept unchanged. *)
Theorem overlap_merge_threshold (t1 prev t2 curr : str) (n : nat) :
  longest_overlap prev curr n ->
  curr <> prev -> ~ substr prev curr -> ~ substr curr prev ->
  deduplicate_entries [(t1, prev); (t2, curr)] =
  if 5 <? n then
    [(t1, let new_part := strip (drop n curr) in
          if nonempty new_part then prev ++ lit " " ++ new_part else prev)]
  else [(t1, prev); (t2, curr)].
Proof.
  intros Hn Hne H1 H2. apply longest_overlap_unique in Hn. subst n.
  rewrite deduplicate_entries_cons. cbn [dedup_from]. unfold merge_text.
  apply str_eqb_neq in Hne. rewrite Hne.
  destruct (contains curr prev) eqn:E1; [apply contains_spec in E1; contradiction|].
  destruct (contains prev curr) eqn:E2; [apply contains_spec in E2; contradiction|].
  destruct (5 <? find_overlap prev curr); [|reflexivity].
  cbv zeta. destruct (nonempty _); reflexivity.
Qed.

Lemma overlap_merge_threshold_witness :
  longest_overlap (lit "the quick brown fox") (lit "brown fox jumps") 9 /\
  deduplicate_entries
    [(lit "00:00:01", lit "the quick brown fox"); (lit "00:00:03", lit "brown fox jumps")] =
    [(lit "00:00:01", lit "the quick brown fox jumps")].
Proof.
  assert (H : longest_overlap (lit "the quick brown fox") (lit "brown fox jumps") 9).
  { exact (find_overlap_longest (lit "the quick brown fox") (lit "brown fox jumps")). }
  split; [exact H|].
  rewrite (overlap_merge_threshold (lit "00:00:01") _ (lit "00:00:03") _ 9 H).
  - vm_compute. reflexivity.
  - vm_compute. discriminate.
  - intros Hc. apply contains_spec in Hc. vm_compute in Hc. discriminate.
  - intros Hc. apply contains_spec in Hc. vm_compute in Hc. discriminate.
Defined.

(** * Further properties of the caption pipeline *)

(** ** Overlap search *)

(** X1: [find_overlap] returns the length of the longest suffix of [prev]
    that is a prefix of [curr]: the result is at most both lengths, the
    prefix of [curr] of that length does end [prev], no longer prefix of
    [curr] does, and it is the only number that is the longest overlap. *)
Theorem find_overlap_is_longest_overlap (prev curr : str) :
  find_overlap prev curr <= length prev /\
  find_overlap prev curr <= length curr /\
  endswith prev (take (find_overlap prev curr) curr) = true /\
  (forall n, longest_overlap prev curr n <-> n = find_overlap prev curr) /\
  (forall i, find_overlap prev curr < i <= length curr ->
             endswith prev (take i curr) = false).
Proof.
  pose proof (find_overlap_longest prev curr) as HL.
  assert (Hle : find_overlap prev curr <= Nat.min (length prev) (length curr))
    by apply find_overlap_from_le.
  split; [lia|]. split; [lia|]. split.
  { destruct HL as [(w & [[a Ha] [b Hb]] & Hlen) _].
    apply endswith_spec. exists a. rewrite <- Hlen.
    replace (take (length w) curr) with w; [exact Ha|].
    rewrite Hb. symmetry. apply take_app_length. }
  split.
  { intros n. split; [apply longest_overlap_unique|intros ->; exact HL]. }
  intros i [Hlt Hi].
  destruct (endswith prev (take i curr)) eqn:E; [|reflexivity].
  apply endswith_spec in E as [a Ha].
  destruct HL as [_ Hmax].
  assert (H : length (take i curr) <= find_overlap prev curr).
  { apply Hmax. split; [eauto|].
    exists (drop i curr). symmetry. apply take_drop. }
  rewrite length_take in H. lia.
Qed.

(** ** Deduplicator: where the output comes from *)

Section OriginFacts.

Lemma dedup_from_length es : forall t p,
  1 <= length (dedup_from t p es) <= S (length es).
Proof.
  induction es as [|[ts text] es IH]; intros t p; simpl; [lia|].
  destruct (merge_text p text) as [p'|].
  - specialize (IH t p'). lia.
  - specialize (IH ts text). simpl. lia.
Qed.

Lemma dedup_from_sublist es : forall t p,
  exists tl, map fst (dedup_from t p es) = t :: tl /\ sublist tl (map fst es).
Proof.
  induction es as [|[ts text] es IH]; intros t p; simpl.
  - exists []. split; [reflexivity|constructor].
  - destruct (merge_text p text) as [p'|].
    + destruct (IH t p') as (tl & -> & Hs). exists tl. split; [reflexivity|].
      apply sublist_cons. exact Hs.
    + destruct (IH ts text) as (tl & Htl & Hs). exists (ts :: tl). split.
      * simpl. rewrite Htl. reflexivity.
      * apply sublist_skip. exact Hs.
Qed.

Lemma dedup_from_origin es : forall t p out,
  out ∈ dedup_from t p es ->
  (fst out = t /\ substr p (snd out)) \/
  (exists e, e ∈ es /\ fst e = fst out /\ substr (snd e) (snd out)).
Proof.
  induction es as [|[ts text] es IH]; intros t p out; simpl.
  - intros ->%list_elem_of_singleton. left. split; [reflexivity|apply substr_refl].
  - destruct (merge_text p text) as [p'|] eqn:E.
    + intros [[-> Hs] | (e & He & H)]%IH.
      * left. split; [reflexivity|].
        eapply substr_trans; [eapply merge_text_extends; exact E|exact Hs].
      * right. exists e. split; [right; exact He|exact H].
    + intros [-> | Hin]%elem_of_cons.
      * left. split; [reflexivity|apply substr_refl].
      * right. apply IH in Hin as [[Ht Hs] | (e & He & H)].
        -- exists (ts, text). split; [left|]. split; [symmetry; exact Ht|exact Hs].
        -- exists e. split; [right; exact He|exact H].
Qed.

End OriginFacts.

(** X2: the deduplicator only ever drops or merges cues.  Its output is
    never longer than its input and is empty only for the empty input; the
    output timestamps are input timestamps in their input order, the first
    one being the first input timestamp; and every output cue stems from an
    input cue with the same timestamp whose text still occurs in it. *)
Theorem dedup_output_from_input (entries : list entry) :
  length (deduplicate_entries entries) <= length entries /\
  (deduplicate_entries entries = [] <-> entries = []) /\
  sublist (map fst (deduplicate_entries entries)) (map fst entries) /\
  head (map fst (deduplicate_entries entries)) = head (map fst entries) /\
  (forall out, out ∈ deduplicate_entries entries ->
     exists e, e ∈ entries /\ fst e = fst out /\ substr (snd e) (snd out)).
Proof.
  destruct entries as [|[t p] es].
  { simpl. repeat split; try constructor; try lia; try tauto.
    intros out Hin. inversion Hin. }
  rewrite deduplicate_entries_cons.
  pose proof (dedup_from_length es t p) as Hlen.
  destruct (dedup_from_sublist es t p) as (tl & Htl & Hs).
  split; [simpl; lia|]. split.
  { split; [|discriminate]. intros H. rewrite H in Hlen. simpl in Hlen. lia. }
  split; [rewrite Htl; simpl; apply sublist_skip; exact Hs|].
  split; [rewrite Htl; reflexivity|].
  intros out [[Ht Hsub] | (e & He & H)]%dedup_from_origin.
  - exists (t, p). split; [left|]. split; [symmetry; exact Ht|exact Hsub].
  - exists e. split; [right; exact He|exact H].
Qed.

(** ** SRT cues *)

Section SrtFacts.

(** The loop of [parse_srt] keeps, in order, the cues of the blocks that
    have one. *)
Lemma parse_srt_omap content :
  parse_srt content = omap srt_block (re_split BLANK_LINES (strip content)).
Proof.
  unfold parse_srt. generalize (re_split BLANK_LINES (strip content)). intros blocks.
  assert (H : forall acc,
    fold_left (fun entries block =>
                 match srt_block block with
                 | Some e => entries ++ [e]
                 | None => entries
                 end) blocks acc = acc ++ omap srt_block blocks).
  { induction blocks as [|b blocks IH]; intros acc; cbn [fold_left omap list_omap].
    - rewrite app_nil_r. reflexivity.
    - rewrite IH. destruct (srt_block b); [|reflexivity].
      rewrite <- app_assoc. reflexivity. }
  apply H.
Qed.

Lemma parse_srt_Forall (P : entry -> Prop) content :
  (forall block e, srt_block block = Some e -> P e) -> Forall P (parse_srt content).
Proof.
  intros H. rewrite parse_srt_omap. apply Forall_forall. intros e He.
  apply list_elem_of_omap in He as (b & _ & Hb). eapply H. exact Hb.
Qed.

Lemma srt_timestamp_hhmmss w : matches SRT_TIMESTAMP w -> is_hhmmss w = true.
Proof.
  change SRT_TIMESTAMP with
    (Seq (times CDigit 2) (Seq (Lit [58%N]) (Seq (times CDigit 2)
       (Seq (Lit [58%N]) (times CDigit 2))))).
  cbn [matches].
  intros (h & ? & -> & Hh & ? & ? & -> & -> & m & ? & -> & Hm & ? & s & -> & -> & Hs).
  apply matches_digits in Hh as [Hh1 Hh2], Hm as [Hm1 Hm2], Hs as [Hs1 Hs2].
  destruct h as [|h1 [|h2 [|? ?]]]; try discriminate.
  destruct m as [|m1 [|m2 [|? ?]]]; try discriminate.
  destruct s as [|s1 [|s2 [|? ?]]]; try discriminate.
  inversion Hh2 as [|? ? Ha Hh3]; inversion Hh3 as [|? ? Hb _]; subst.
  inversion Hm2 as [|? ? Hc Hm3]; inversion Hm3 as [|? ? Hd _]; subst.
  inversion Hs2 as [|? ? He Hs3]; inversion Hs3 as [|? ? Hf _]; subst.
  unfold in_class in Ha, Hb, Hc, Hd, He, Hf.
  cbn [app is_hhmmss]. change (chr ":") with 58%N.
  rewrite Ha, Hb, Hc, Hd, He, Hf. reflexivity.
Qed.

Lemma srt_block_timestamp block e : srt_block block = Some e -> is_hhmmss (fst e) = true.
Proof.
  unfold srt_block. destruct (_ <? 3); [discriminate|].
  destruct (re_match SRT_TIMESTAMP _) as [w|] eqn:E; [|discriminate].
  destruct (nonempty _); [|discriminate].
  intros [= <-]. apply re_match_sound in E as [Hm _].
  apply srt_timestamp_hhmmss. exact Hm.
Qed.

End SrtFacts.

(** X3: every timestamp that [parse_srt] stores reads HH:MM:SS, eight
    characters with two digits in each field, whatever the input text. *)
Theorem srt_timestamps_are_hhmmss (content : str) :
  Forall (fun e => is_hhmmss (fst e) = true /\ length (fst e) = 8) (parse_srt content).
Proof.
  apply parse_srt_Forall. intros block e He.
  apply srt_block_timestamp in He. split; [exact He|].
  destruct (fst e) as [|? [|? [|? [|? [|? [|? [|? [|? [|? ?]]]]]]]]]; try discriminate.
  reflexivity.
Qed.

(** ** Tag removal leaves no tag *)

Section TagFacts.

Lemma re_sub_from_elem r repl : forall s skip x,
  x ∈ re_sub_from r repl skip s -> x ∈ repl \/ x ∈ s.
Proof.
  induction s as [|c rest IH]; intros skip x; cbn [re_sub_from].
  - intros H. inversion H.
  - destruct skip as [|n].
    + destruct (re_match r (c :: rest)) as [[|m0 m]|].
      * intros [-> | H]%elem_of_cons; [right; left|].
        apply IH in H as [H|H]; [left; exact H | right; right; exact H].
      * intros [H | H]%elem_of_app; [left; exact H|].
        apply IH in H as [H|H]; [left; exact H | right; right; exact H].
      * intros [-> | H]%elem_of_cons; [right; left|].
        apply IH in H as [H|H]; [left; exact H | right; right; exact H].
    + intros H. apply IH in H as [H|H]; [left; exact H | right; right; exact H].
Qed.

Lemma has_tag_cons c s :
  has_tag (c :: s) ->
  (c = chr "<" /\ exists body b, s = body ++ chr ">" :: b /\ body <> [] /\
                                 Forall (fun x => x <> chr ">") body) \/
  has_tag s.
Proof.
  intros (a & body & b & H & Hne & Hall). destruct a as [|x a].
  - injection H as -> ->. left. split; [reflexivity|]. eauto.
  - injection H as -> ->. right. exists a, body, b. auto.
Qed.

Lemma re_sub_tag_free_aux n : forall s,
  length s <= n -> ~ has_tag (re_sub_from TAG [] 0 s).
Proof.
  induction n as [|n IH]; intros s Hlen.
  { destruct s; [|simpl in Hlen; lia]. cbn. intros (a & body & b & H & _).
    destruct a; discriminate. }
  destruct s as [|c u].
  { cbn. intros (a & body & b & H & _). destruct a; discriminate. }
  simpl in Hlen.
  destruct (N.eq_dec c (chr "<")) as [->|Hc].
  - destruct (split_at_first (chr ">") u) as [Hno | (body & u' & -> & Hb)].
    + assert (E : re_match TAG (chr "<" :: u) = None).
      { destruct (re_match TAG (chr "<" :: u)) as [w|] eqn:E; [exfalso|reflexivity].
        apply re_match_tag_inv in E as (body & u' & H & _).
        injection H as ->. rewrite Forall_forall in Hno.
        apply (Hno (chr ">")); [|reflexivity].
        apply elem_of_app. right. left. }
      rewrite (re_sub_from_nomatch _ _ _ _ E).
      intros [[_ (body & b & H & _)] | H]%has_tag_cons.
      * rewrite Forall_forall in Hno. apply (Hno (chr ">")); [|reflexivity].
        assert (Hin : chr ">" ∈ re_sub_from TAG [] 0 u)
          by (rewrite H; apply elem_of_app; right; left).
        apply re_sub_from_elem in Hin as [Hin|Hin]; [inversion Hin | exact Hin].
      * revert H. apply IH. lia.
    + destruct body as [|b0 body].
      * cbn [app].
        assert (E : re_match TAG (chr "<" :: chr ">" :: u') = None).
        { destruct (re_match TAG (chr "<" :: chr ">" :: u')) as [w|] eqn:E;
            [exfalso|reflexivity].
          apply re_match_tag_inv in E as (body & u'' & H & Hne & Hall).
          destruct body as [|y body]; [congruence|].
          inversion Hall as [|? ? Hy _]; subst. apply Hy.
          cbn [app] in H. congruence. }
        rewrite (re_sub_from_nomatch _ _ _ _ E).
        assert (E2 : re_match TAG (chr ">" :: u') = None)
          by (apply re_match_tag_other; discriminate).
        intros [[_ (body & b & H & Hne & Hall)] | H]%has_tag_cons.
        -- rewrite (re_sub_from_nomatch _ _ _ _ E2) in H.
           destruct body as [|y body]; [congruence|].
           inversion Hall as [|? ? Hy _]; subst. apply Hy.
           cbn [app] in H. congruence.
        -- revert H. apply IH. cbn [app length] in Hlen |- *. lia.
      * assert (E : re_match TAG (chr "<" :: ((b0 :: body) ++ [chr ">"]) ++ u') =
                    Some (chr "<" :: (b0 :: body) ++ [chr ">"])).
        { rewrite <- app_assoc. apply re_match_tag; [discriminate | exact Hb]. }
        replace ((b0 :: body) ++ chr ">" :: u') with (((b0 :: body) ++ [chr ">"]) ++ u')
          by (rewrite <- app_assoc; reflexivity).
        rewrite (re_sub_from_match _ _ _ _ _ E). cbn [app].
        apply IH. rewrite length_app in Hlen. cbn [length] in Hlen.
        unfold char in *. lia.
  - assert (E : re_match TAG (c :: u) = None) by (apply re_match_tag_other; exact Hc).
    rewrite (re_sub_from_nomatch _ _ _ _ E).
    intros [[H _] | H]%has_tag_cons; [congruence|].
    revert H. apply IH. lia.
Qed.

Lemma re_sub_tag_free s : ~ has_tag (re_sub TAG [] s).
Proof. apply (re_sub_tag_free_aux (length s)). lia. Qed.

End TagFacts.

(** X4: no tag survives in the text of an SRT cue: whatever the input, the
    text of every cue of [parse_srt] holds no [<...>] with a non-empty body
    free of [>]; one pass of the substitution removes them all. *)
Theorem srt_text_has_no_tag (content : str) :
  Forall (fun e => ~ has_tag (snd e)) (parse_srt content).
Proof.
  apply parse_srt_Forall. intros block e. unfold srt_block.
  destruct (_ <? 3); [discriminate|].
  destruct (re_match SRT_TIMESTAMP _); [|discriminate].
  destruct (nonempty _); [|discriminate].
  intros [= <-]. apply re_sub_tag_free.
Qed.

(** ** WebVTT: lines outside cues *)

Section HeaderFacts.

Lemma no_arrow_no_timestamp l :
  contains l (lit "-->") = false -> vtt_timestamp (strip l) = None.
Proof.
  intros H. unfold vtt_timestamp.
  destruct (contains (strip l) (lit "-->")) eqn:E; [|reflexivity].
  apply contains_spec in E.
  assert (Hl : contains l (lit "-->") = true).
  { apply contains_spec. eapply substr_trans; [exact E | apply strip_substr]. }
  congruence.
Qed.

Lemma vtt_skip_header_noop lines : forall entries,
  vtt_cues (vtt_skip_header lines) entries = vtt_cues lines entries.
Proof.
  induction lines as [|l lines IH]; intros entries; cbn [vtt_skip_header]; [reflexivity|].
  destruct (negb (startswith (strip l) (lit "00:"))); cbn [andb]; [|reflexivity].
  destruct (contains l (lit "-->")) eqn:E; cbn [negb]; [reflexivity|].
  rewrite IH, (vtt_cues_cons l), (no_arrow_no_timestamp l E). reflexivity.
Qed.

End HeaderFacts.

(** X5: lines without an arrow never yield a cue unless they follow a
    timestamp line as its text.  The header loop of [parse_vtt] is therefore
    redundant: parsing gives the same cues with and without it; and any
    arrow-free lines in front of a cue (the WEBVTT header, NOTE or STYLE
    blocks, blank lines) leave the result unchanged. *)
Theorem vtt_arrow_free_lines_ignored :
  (forall content, parse_vtt content = vtt_cues (splitlines content) []) /\
  (forall pre rest entries,
     Forall (fun l => contains l (lit "-->") = false) pre ->
     vtt_cues (pre ++ rest) entries = vtt_cues rest entries).
Proof.
  split.
  - intros content. apply vtt_skip_header_noop.
  - intros pre rest entries Hpre. induction Hpre as [|l pre Hl _ IH]; [reflexivity|].
    cbn [app]. rewrite vtt_cues_cons, (no_arrow_no_timestamp l Hl). exact IH.
Qed.

(** ** Cues and transcript lines *)

Section LineFacts.

Lemma no_linebreak_substr (a b : str) : substr a b -> no_linebreak b -> no_linebreak a.
Proof.
  intros Hs Hb. apply Forall_forall. intros x Hx.
  unfold no_linebreak in Hb. rewrite Forall_forall in Hb. apply Hb.
  eapply substr_elem; eassumption.
Qed.

Lemma no_linebreak_app (a b : str) :
  no_linebreak (a ++ b) <-> no_linebreak a /\ no_linebreak b.
Proof. apply Forall_app. Qed.

Lemma no_linebreak_lit_space : no_linebreak (lit " ").
Proof. repeat constructor. Qed.

Lemma no_linebreak_join sep parts :
  no_linebreak sep -> Forall no_linebreak parts -> no_linebreak (join sep parts).
Proof.
  intros Hsep. induction 1 as [|p parts Hp Hparts IH]; [constructor|].
  destruct parts as [|q parts]; [exact Hp|].
  change (no_linebreak (p ++ sep ++ join sep (q :: parts))).
  rewrite !no_linebreak_app. auto.
Qed.

Lemma no_linebreak_re_sub r repl s :
  no_linebreak repl -> no_linebreak s -> no_linebreak (re_sub r repl s).
Proof.
  unfold no_linebreak. rewrite !Forall_forall. intros Hr Hs x Hx.
  apply re_sub_from_elem in Hx as [Hx|Hx]; auto.
Qed.

Lemma no_linebreak_strip s : no_linebreak s -> no_linebreak (strip s).
Proof. apply no_linebreak_substr, strip_substr. Qed.

Lemma splitlines_from_single n : forall s cur,
  length s <= n -> no_linebreak cur -> Forall no_linebreak (splitlines_from cur s).
Proof.
  induction n as [|n IH]; intros s cur Hlen Hcur.
  - destruct s; [|simpl in Hlen; lia]. cbn [splitlines_from].
    destruct (nonempty cur); repeat constructor; exact Hcur.
  - destruct s as [|c rest]; cbn [splitlines_from].
    + destruct (nonempty cur); repeat constructor; exact Hcur.
    + simpl in Hlen. destruct (is_linebreak c) eqn:Ec.
      * destruct rest as [|d rest']; [repeat constructor; exact Hcur|].
        destruct ((c =? 13)%N && (d =? 10)%N); constructor; try exact Hcur;
          apply IH; try constructor; simpl in Hlen |- *; lia.
      * apply IH; [lia|]. apply no_linebreak_app. split; [exact Hcur|].
        repeat constructor. exact Ec.
Qed.

Lemma splitlines_single s : Forall no_linebreak (splitlines s).
Proof. apply (splitlines_from_single (length s)); [lia | constructor]. Qed.

Lemma vtt_clean_line_single s : no_linebreak s -> no_linebreak (vtt_clean_line s).
Proof.
  intros H. unfold vtt_clean_line.
  repeat apply no_linebreak_re_sub; try exact H; repeat constructor.
Qed.

Lemma vtt_text_lines_single ls : forall acc,
  Forall no_linebreak ls -> Forall no_linebreak acc ->
  Forall no_linebreak (fst (vtt_text_lines ls acc)) /\
  Forall no_linebreak (snd (vtt_text_lines ls acc)).
Proof.
  induction ls as [|l ls IH]; intros acc Hls Hacc; cbn [vtt_text_lines].
  - split; [exact Hacc | constructor].
  - destruct (nonempty (strip l)); [|split; [exact Hacc | exact Hls]].
    inversion Hls as [|? ? Hl Hls']; subst.
    apply IH; [exact Hls'|].
    destruct (nonempty (vtt_clean_line (strip l))); [|exact Hacc].
    apply Forall_app. split; [exact Hacc|]. constructor; [|constructor].
    apply vtt_clean_line_single, no_linebreak_strip, Hl.
Qed.

Lemma vtt_timestamp_single line ts :
  no_linebreak line -> vtt_timestamp line = Some ts -> no_linebreak ts.
Proof.
  intros Hline. unfold vtt_timestamp.
  destruct (contains line (lit "-->")); [|discriminate].
  destruct (re_match VTT_TIMESTAMP line) as [w|] eqn:E; [|discriminate].
  apply re_match_sound in E as [_ [s' ->]].
  apply no_linebreak_app in Hline as [Hw _].
  intros Heq.
  assert (Hts : ts = take 8 (if count_char w (chr ":") =? 1 then lit "00:" ++ w else w))
    by congruence.
  rewrite Hts. apply Forall_take.
  destruct (_ =? 1); [|exact Hw].
  apply (no_linebreak_app (lit "00:") w). split; [repeat constructor | exact Hw].
Qed.

Lemma vtt_cues_single lines entries :
  Forall no_linebreak lines -> Forall single_line entries ->
  Forall single_line (vtt_cues lines entries).
Proof.
  funelim (vtt_cues lines entries); simp vtt_cues.
  - intros Hlines Hent. inversion Hlines; subst. apply H; assumption.
  - intros Hlines Hent. inversion Hlines as [|? ? Hl Hrest]; subst.
    pose proof (vtt_text_lines_single rest [] Hrest ltac:(constructor)) as [H1 H2].
    rewrite e in H1, H2. cbn [fst snd] in H1, H2.
    apply H; [exact H2|].
    destruct text_lines as [|t text_lines]; [exact Hent|].
    apply Forall_app. split; [exact Hent|]. constructor; [|constructor]. split.
    + eapply vtt_timestamp_single; [|exact Heq]. apply no_linebreak_strip, Hl.
    + apply no_linebreak_join; [repeat constructor | exact H1].
Qed.

Lemma srt_block_single block e : srt_block block = Some e -> single_line e.
Proof.
  unfold srt_block. pose proof (splitlines_single (strip block)) as Hlines.
  destruct (_ <? 3); [discriminate|].
  destruct (re_match SRT_TIMESTAMP _) as [w|] eqn:E; [|discriminate].
  destruct (nonempty _); [|discriminate].
  intros [= <-]. split; cbn [fst snd].
  - apply re_match_sound in E as [_ [s' E]].
    assert (Hl : no_linebreak (default [] (splitlines (strip block) !! 1))).
    { destruct (splitlines (strip block) !! 1) as [l|] eqn:El; [|constructor].
      cbn. eapply Forall_lookup_1; eassumption. }
    rewrite E in Hl. apply no_linebreak_app in Hl as [Hw _]. exact Hw.
  - apply no_linebreak_re_sub; [constructor|].
    apply no_linebreak_join; [repeat constructor|].
    apply Forall_fmap. apply Forall_forall. intros t Ht. cbn.
    apply no_linebreak_strip. apply list_elem_of_filter in Ht as [_ Ht].
    rewrite Forall_forall in Hlines. apply Hlines.
    eapply (subseteq_drop 2). exact Ht.
Qed.

Lemma parse_subtitle_file_single ext content :
  Forall single_line (parse_subtitle_file ext content).
Proof.
  assert (Hv : Forall single_line (parse_vtt content)).
  { unfold parse_vtt. apply vtt_cues_single; [|constructor].
    apply vtt_skip_header_Forall, splitlines_single. }
  assert (Hs : Forall single_line (parse_srt content)).
  { apply parse_srt_Forall. apply srt_block_single. }
  unfold parse_subtitle_file, parse_subtitle_file_logged.
  destruct (str_eqb ext (lit ".vtt")); [exact Hv|].
  destruct (str_eqb ext (lit ".srt")); [exact Hs|].
  cbn. destruct (parse_vtt content) eqn:E; [exact Hs | exact Hv].
Qed.

Lemma merge_text_single p text p' :
  no_linebreak p -> no_linebreak text -> merge_text p text = Some p' -> no_linebreak p'.
Proof.
  intros Hp Ht. unfold merge_text.
  destruct (str_eqb text p); [intros [= <-]; exact Hp|].
  destruct (contains text p); [intros [= <-]; exact Ht|].
  destruct (contains p text); [intros [= <-]; exact Hp|].
  destruct (5 <? _); [|discriminate].
  destruct (nonempty _); intros Heq; [|injection Heq as <-; exact Hp].
  assert (Hp' : p' = p ++ lit " " ++ strip (drop (find_overlap p text) text))
    by congruence.
  rewrite Hp'. apply no_linebreak_app. split; [exact Hp|].
  apply (no_linebreak_app (lit " ")). split; [repeat constructor|].
  apply no_linebreak_strip. apply Forall_drop. exact Ht.
Qed.

Lemma dedup_from_single es : forall t p,
  single_line (t, p) -> Forall single_line es -> Forall single_line (dedup_from t p es).
Proof.
  induction es as [|[ts text] es IH]; intros t p Htp Hes; simpl.
  - constructor; [exact Htp | constructor].
  - inversion Hes as [|? ? [Hts Htext] Hes']; subst. cbn [fst snd] in Hts, Htext.
    destruct (merge_text p text) as [p'|] eqn:E.
    + apply IH; [|exact Hes']. split; [apply Htp|].
      eapply merge_text_single; [apply Htp | exact Htext | exact E].
    + constructor; [exact Htp|]. apply IH; [split; assumption | exact Hes'].
Qed.

Lemma deduplicate_entries_single entries :
  Forall single_line entries -> Forall single_line (deduplicate_entries entries).
Proof.
  destruct entries as [|[t p] es]; [intros _; constructor|].
  rewrite deduplicate_entries_cons. intros H. inversion H; subst.
  apply dedup_from_single; assumption.
Qed.

Lemma splitlines_from_app cur s rest :
  no_linebreak s -> splitlines_from cur (s ++ rest) = splitlines_from (cur ++ s) rest.
Proof.
  intros Hs. revert cur. induction Hs as [|c s Hc _ IH]; intros cur.
  - rewrite app_nil_r. reflexivity.
  - cbn [app splitlines_from]. rewrite Hc, IH, <- app_assoc. reflexivity.
Qed.

Lemma splitlines_from_join l ls : forall cur,
  Forall no_linebreak (l :: ls) -> List.last (l :: ls) [] <> [] ->
  splitlines_from cur (join [10%N] (l :: ls)) = (cur ++ l) :: ls.
Proof.
  revert l. induction ls as [|l2 ls IH]; intros l cur Hall Hlast.
  - cbn [join]. rewrite <- (app_nil_r l) at 1.
    inversion Hall; subst.
    rewrite splitlines_from_app by assumption. cbn [splitlines_from].
    cbn [List.last] in Hlast. destruct l; [congruence|].
    destruct cur; reflexivity.
  - change (join [10%N] (l :: l2 :: ls)) with (l ++ 10%N :: join [10%N] (l2 :: ls)).
    inversion Hall as [|? ? Hl Hall']; subst.
    rewrite splitlines_from_app by assumption.
    assert (Hrest : splitlines_from [] (join [10%N] (l2 :: ls)) = l2 :: ls).
    { apply (IH l2 []); [exact Hall'|]. exact Hlast. }
    destruct (join [10%N] (l2 :: ls)) as [|d rest'] eqn:Ej.
    + cbn in Hrest. discriminate.
    + change (splitlines_from (cur ++ l) (10%N :: d :: rest'))
        with ((cur ++ l) :: splitlines_from [] (d :: rest')).
      rewrite Hrest. reflexivity.
Qed.

Lemma format_subtitle_output_lines e es lang :
  format_subtitle_output (e :: es) lang =
  join [10%N] (header_line lang :: [] :: map cue_line (e :: es)).
Proof.
  unfold format_subtitle_output.
  assert (Hlabel : match lang with
                   | Some l => if nonempty l then
                                 if startswith l (lit "ko") then LABEL_KO
                                 else if startswith l (lit "en") then LABEL_EN else []
                               else []
                   | None => [] end = lang_label lang).
  { destruct lang as [[|c l]|]; reflexivity. }
  cbv zeta. rewrite Hlabel.
  change (LANG_HEADER ++ default (lit "None") lang ++ lang_label lang ++ lit "*")
    with (header_line lang).
  generalize (e :: es). intros entries. f_equal.
  assert (H : forall acc : list str,
    fold_left (fun lines e => lines ++ [lit "[" ++ fst e ++ lit "] " ++ snd e])
              entries acc = acc ++ map cue_line entries).
  { induction entries as [|x entries IH]; intros acc; cbn [fold_left map].
    - rewrite app_nil_r. reflexivity.
    - rewrite IH. rewrite <- app_assoc. reflexivity. }
  apply H.
Qed.


Lemma header_line_single lang :
  no_linebreak (default (lit "None") lang) -> no_linebreak (header_line lang).
Proof.
  intros H. unfold header_line. rewrite !no_linebreak_app.
  split; [repeat constructor|]. split; [exact H|]. split; [|repeat constructor].
  unfold lang_label. destruct lang as [l|]; [|constructor].
  destruct (startswith l (lit "ko")); [repeat constructor|].
  destruct (startswith l (lit "en")); repeat constructor.
Qed.

Lemma cue_line_single e : single_line e -> no_linebreak (cue_line e).
Proof.
  intros [H1 H2]. unfold cue_line. rewrite !no_linebreak_app.
  split; [repeat constructor|]. split; [exact H1|]. split; [repeat constructor | exact H2].
Qed.

Lemma splitlines_rendered e es lang :
  no_linebreak (default (lit "None") lang) -> Forall single_line (e :: es) ->
  splitlines (format_subtitle_output (e :: es) lang) =
  header_line lang :: [] :: map cue_line (e :: es).
Proof.
  intros Hlang Hes. rewrite format_subtitle_output_lines.
  unfold splitlines. rewrite splitlines_from_join; [reflexivity| |].
  - constructor; [apply header_line_single, Hlang|]. constructor; [constructor|].
    apply Forall_fmap. eapply Forall_impl; [exact Hes|]. intros x. apply cue_line_single.
  - assert (H : forall (x : entry) xs d, List.last (map cue_line (x :: xs)) d <> []).
    { intros x xs. revert x. induction xs as [|y xs IH]; intros x d.
      - discriminate.
      - change (List.last (map cue_line (y :: xs)) d <> []). apply IH. }
    apply (H e es []).
Qed.

End LineFacts.

Lemma vtt_arrow_free_lines_ignored_witness :
  Forall (fun l => contains l (lit "-->") = false)
    (map lit ["WEBVTT"; "Kind: captions"; ""; "NOTE 00:00 is the start"; ""]%string) /\
  vtt_cues (map lit ["WEBVTT"; "Kind: captions"; ""; "NOTE 00:00 is the start"; ""]%string ++
            map lit ["00:00:01.000 --> 00:00:02.000"; "hello"]%string) [] =
  [(lit "00:00:01", lit "hello")].
Proof.
  assert (H : Forall (fun l => contains l (lit "-->") = false)
    (map lit ["WEBVTT"; "Kind: captions"; ""; "NOTE 00:00 is the start"; ""]%string))
    by (repeat constructor).
  split; [exact H|].
  rewrite (proj2 vtt_arrow_free_lines_ignored _ _ _ H). vm_compute. reflexivity.
Defined.

(** X6: no line boundary of [str.splitlines] ever gets into a cue: for
    every input text, the timestamp and the text of every cue of
    [parse_vtt], of [parse_srt], of [parse_subtitle_file] and of the
    deduplicated list are free of line breaks. *)
Theorem cues_are_single_lines (ext content : str) :
  Forall single_line (parse_vtt content) /\
  Forall single_line (parse_srt content) /\
  Forall single_line (parse_subtitle_file ext content) /\
  Forall single_line (deduplicate_entries (parse_subtitle_file ext content)).
Proof.
  split; [|split; [|split]].
  - unfold parse_vtt. apply vtt_cues_single; [|constructor].
    apply vtt_skip_header_Forall, splitlines_single.
  - apply parse_srt_Forall. apply srt_block_single.
  - apply parse_subtitle_file_single.
  - apply deduplicate_entries_single, parse_subtitle_file_single.
Qed.

(** X7: a rendered transcript reads back line by line.  For a non-empty
    list of cues without line breaks, the lines of the text returned by
    [format_subtitle_output] are the language header, one empty line, and
    then exactly one line [[timestamp] text] per cue, in order: two lines
    more than there are cues. *)
Theorem rendered_transcript_lines (entries : list entry) (lang : option str) :
  entries <> [] ->
  no_linebreak (default (lit "None") lang) ->
  Forall single_line entries ->
  splitlines (format_subtitle_output entries lang) =
    header_line lang :: [] :: map cue_line entries /\
  length (splitlines (format_subtitle_output entries lang)) = 2 + length entries.
Proof.
  intros Hne Hlang Hes. destruct entries as [|e es]; [congruence|].
  rewrite splitlines_rendered by assumption.
  split; [reflexivity|]. cbn [length]. rewrite length_map. reflexivity.
Qed.

Lemma rendered_transcript_lines_witness :
  [(lit "00:00:01", lit "Hello there"); (lit "00:01:15", lit "General Kenobi")] <> [] /\
  no_linebreak (default (lit "None") (Some (lit "en-US"))) /\
  Forall single_line
    [(lit "00:00:01", lit "Hello there"); (lit "00:01:15", lit "General Kenobi")] /\
  splitlines (format_subtitle_output
                [(lit "00:00:01", lit "Hello there"); (lit "00:01:15", lit "General Kenobi")]
                (Some (lit "en-US"))) =
    [LANG_HEADER ++ lit "en-US" ++ LABEL_EN ++ lit "*"; [];
     lit "[00:00:01] Hello there"; lit "[00:01:15] General Kenobi"].
Proof.
  assert (H1 : [(lit "00:00:01", lit "Hello there");
                (lit "00:01:15", lit "General Kenobi")] <> []) by discriminate.
  assert (H2 : no_linebreak (default (lit "None") (Some (lit "en-US"))))
    by repeat constructor.
  assert (H3 : Forall single_line
    [(lit "00:00:01", lit "Hello there"); (lit "00:01:15", lit "General Kenobi")])
    by (repeat constructor).
  split; [exact H1|]. split; [exact H2|]. split; [exact H3|].
  exact (proj1 (rendered_transcript_lines _ _ H1 H2 H3)).
Defined.

(** X8: the chain of [main] (parse, deduplicate, render) on any file text:
    either no cue is left and the result is the fixed message, or the
    result has the header line, an empty line and one line per deduplicated
    cue. *)
Theorem transcript_one_line_per_cue (ext content : str) (lang : option str) :
  no_linebreak (default (lit "None") lang) ->
  let cues := deduplicate_entries (parse_subtitle_file ext content) in
  match cues with
  | [] => transcript ext content lang = NO_CAPTIONS
  | _ :: _ =>
      splitlines (transcript ext content lang) =
      header_line lang :: [] :: map cue_line cues
  end.
Proof.
  intros Hlang cues. unfold transcript. fold cues.
  assert (Hc : Forall single_line cues)
    by apply deduplicate_entries_single, parse_subtitle_file_single.
  destruct cues as [|e es]; [reflexivity|].
  apply splitlines_rendered; assumption.
Qed.

Lemma transcript_one_line_per_cue_witness :
  no_linebreak (default (lit "None") (Some (lit "ko"))) /\
  splitlines (transcript (lit ".srt") sample_srt (Some (lit "ko"))) =
    [LANG_HEADER ++ lit "ko" ++ LABEL_KO ++ lit "*"; []; lit "[00:00:01] Hello there"].
Proof.
  assert (H : no_linebreak (default (lit "None") (Some (lit "ko")))) by repeat constructor.
  split; [exact H|].
  exact (transcript_one_line_per_cue (lit ".srt") sample_srt (Some (lit "ko")) H).
Defined.

(** ** Deduplicator: scrolling captions *)

Section ScrollFacts.

Lemma merge_text_grow p text : substr p text -> merge_text p text = Some text.
Proof.
  intros H. unfold merge_text.
  destruct (str_eqb text p) eqn:E; [apply str_eqb_eq in E; congruence|].
  apply contains_spec in H. rewrite H. reflexivity.
Qed.

Lemma dedup_from_grow es : forall t p,
  adjacent substr (p :: map snd es) ->
  dedup_from t p es = [(t, List.last (map snd es) p)].
Proof.
  induction es as [|[ts text] es IH]; intros t p H; [reflexivity|].
  cbn [map snd adjacent] in H. destruct H as [Hsub H].
  cbn [dedup_from]. rewrite (merge_text_grow _ _ Hsub), (IH t text H).
  f_equal. f_equal. cbn [map snd]. clear.
  generalize (map snd es). intros l. destruct l as [|x xs]; [reflexivity|].
  change (List.last (x :: xs) text = List.last (x :: xs) p).
  revert x. induction xs as [|y xs IHxs]; intros x; [reflexivity|].
  exact (IHxs y).
Qed.

End ScrollFacts.

(** X9: scrolling captions collapse into one cue.  When the text of every
    cue contains the text of the cue before it (each caption repeats the
    previous one and may add to it), the deduplicator returns a single cue
    with the first timestamp and the last text. *)
Theorem scrolling_captions_collapse (t p : str) (es : list entry) :
  adjacent substr (p :: map snd es) ->
  deduplicate_entries ((t, p) :: es) = [(t, List.last (map snd es) p)].
Proof. rewrite deduplicate_entries_cons. apply dedup_from_grow. Qed.

Lemma scrolling_captions_collapse_witness :
  adjacent substr (lit "so" :: map snd [(lit "00:00:02", lit "so today");
                                         (lit "00:00:03", lit "so today");
                                         (lit "00:00:04", lit "so today we look")]) /\
  deduplicate_entries [(lit "00:00:01", lit "so"); (lit "00:00:02", lit "so today");
                       (lit "00:00:03", lit "so today");
                       (lit "00:00:04", lit "so today we look")] =
  [(lit "00:00:01", lit "so today we look")].
Proof.
  assert (H : adjacent substr
    (lit "so" :: map snd [(lit "00:00:02", lit "so today");
                           (lit "00:00:03", lit "so today");
                           (lit "00:00:04", lit "so today we look")])).
  { cbn [map snd adjacent]. split; [|split; [|split]]; try exact I.
    - exists [], (lit " today"). reflexivity.
    - apply substr_refl.
    - exists [], (lit " we look"). reflexivity. }
  split; [exact H|]. exact (scrolling_captions_collapse _ _ _ H).
Defined.

(** ** Metadata formatting *)

Section DurationFacts.

Lemma uint_of_str_of_uint u : uint_of_str (str_of_uint u) = Some u.
Proof. induction u; cbn [str_of_uint uint_of_str]; try rewrite IHu; reflexivity. Qed.

Lemma str_of_uint_digits u :
  Forall (fun c => (48 <= c <= 57)%N) (str_of_uint u).
Proof. induction u; cbn [str_of_uint]; constructor; try assumption; lia. Qed.

Lemma to_uint_nonempty p : str_of_uint (Pos.to_uint p) <> [].
Proof.
  intros H. pose proof (DecimalPos.Unsigned.to_uint_nonnil p) as Hn.
  destruct (Pos.to_uint p); try discriminate. congruence.
Qed.

Lemma read_format_d z : (0 <= z)%Z -> read_number (format_d z) = Some z.
Proof.
  intros Hz. unfold format_d, read_number.
  pose proof (DecimalZ.of_to z) as Hof.
  destruct z as [|p|p]; try lia; cbn [Z.to_int] in *.
  - reflexivity.
  - destruct (str_of_uint (Pos.to_uint p)) eqn:E; [exfalso; eapply to_uint_nonempty; exact E|].
    rewrite <- E, uint_of_str_of_uint. cbn [option_map]. f_equal. exact Hof.
Qed.

Lemma split_on_app c : forall a cur b,
  Forall (fun x => x <> c) a ->
  split_on c cur (a ++ c :: b) = (cur ++ a) :: split_on c [] b.
Proof.
  induction a as [|x a IH]; intros cur b Ha; cbn [app split_on].
  - rewrite N.eqb_refl, app_nil_r. reflexivity.
  - inversion Ha as [|? ? Hx Ha']; subst.
    apply N.eqb_neq in Hx. rewrite Hx, IH by assumption.
    rewrite <- app_assoc. reflexivity.
Qed.

Lemma split_on_last c : forall a cur,
  Forall (fun x => x <> c) a -> split_on c cur a = [cur ++ a].
Proof.
  induction a as [|x a IH]; intros cur Ha; cbn [split_on].
  - rewrite app_nil_r. reflexivity.
  - inversion Ha as [|? ? Hx Ha']; subst.
    apply N.eqb_neq in Hx. rewrite Hx, IH by assumption.
    rewrite <- app_assoc. reflexivity.
Qed.

Lemma format_d_no_colon z : (0 <= z)%Z -> Forall (fun x => x <> chr ":") (format_d z).
Proof.
  intros Hz. unfold format_d.
  assert (H : forall u, Forall (fun x => x <> chr ":") (str_of_uint u)).
  { intros u. eapply Forall_impl; [apply str_of_uint_digits|].
    intros x Hx ->. change (chr ":") with 58%N in Hx. lia. }
  destruct z; try lia; apply H.
Qed.

(** The sixty values of a minute or second field, checked one by one. *)
Lemma format_02d_field z :
  (0 <= z < 60)%Z ->
  read_number (format_02d z) = Some z /\ length (format_02d z) = 2 /\
  Forall (fun x => x <> chr ":") (format_02d z).
Proof.
  intros Hz.
  assert (Hall : forallb (fun n =>
            let z := Z.of_nat n in
            match read_number (format_02d z) with
            | Some r => (r =? z)%Z
            | None => false
            end && (length (format_02d z) =? 2) &&
            forallb (fun x => negb (x =? chr ":")%N) (format_02d z)) (seq 0 60) = true)
    by (vm_compute; reflexivity).
  rewrite forallb_forall in Hall. specialize (Hall (Z.to_nat z)).
  rewrite Z2Nat.id in Hall by lia.
  assert (Hin : In (Z.to_nat z) (seq 0 60)) by (apply in_seq; lia).
  apply Hall in Hin. cbv zeta in Hin.
  apply andb_true_iff in Hin as [Hin H3]. apply andb_true_iff in Hin as [H1 H2].
  split; [|split].
  - destruct (read_number (format_02d z)) as [r|]; [|discriminate].
    apply Z.eqb_eq in H1. congruence.
  - apply Nat.eqb_eq. exact H2.
  - apply Forall_forall. intros x Hx. rewrite forallb_forall in H3.
    intros ->. specialize (H3 (chr ":")).
    rewrite N.eqb_refl in H3. 
    assert (In (chr ":") (format_02d z)) by (apply list_elem_of_In; exact Hx).
    apply H3 in H. discriminate.
Qed.

Lemma fields_two m s :
  (0 <= m)%Z -> (0 <= s < 60)%Z ->
  split_on (chr ":") [] (format_d m ++ lit ":" ++ format_02d s) =
  [format_d m; format_02d s].
Proof.
  intros Hm Hs. destruct (format_02d_field s Hs) as (_ & _ & Hc).
  change (lit ":" ++ format_02d s) with (chr ":" :: format_02d s).
  rewrite split_on_app by (apply format_d_no_colon; exact Hm).
  rewrite split_on_last by exact Hc. reflexivity.
Qed.

Lemma fields_three h m s :
  (0 <= h)%Z -> (0 <= m < 60)%Z -> (0 <= s < 60)%Z ->
  split_on (chr ":") []
    (format_d h ++ lit ":" ++ format_02d m ++ lit ":" ++ format_02d s) =
  [format_d h; format_02d m; format_02d s].
Proof.
  intros Hh Hm Hs.
  destruct (format_02d_field m Hm) as (_ & _ & Hcm).
  destruct (format_02d_field s Hs) as (_ & _ & Hcs).
  change (lit ":" ++ format_02d m ++ lit ":" ++ format_02d s)
    with (chr ":" :: format_02d m ++ chr ":" :: format_02d s).
  rewrite split_on_app by (apply format_d_no_colon; exact Hh).
  rewrite split_on_app by exact Hcm.
  rewrite split_on_last by exact Hcs. reflexivity.
Qed.

End DurationFacts.

(** X10: a duration is printed so that it can be read back.  For every
    integer number of seconds that is not negative, the text returned by
    [format_duration] is M:SS below one hour and H:MM:SS from one hour on,
    with exactly two digits in every field after the first, and its fields
    stand for exactly that number of seconds.  A negative number is
    neither rejected nor signed: it is printed as the M:SS text of its
    remainder modulo 3600. *)
Theorem format_duration_reads_back (seconds : Z) :
  let text := format_duration (Some seconds) in
  clock_seconds text =
    Some (if (0 <=? seconds)%Z then seconds else seconds mod 3600)%Z /\
  tail (map length (split_on (chr ":") [] text)) =
    (if (3600 <=? seconds)%Z then [2; 2] else [2]).
Proof.
  cbv zeta. unfold clock_seconds, format_duration.
  set (h := (seconds / 3600)%Z). set (m := ((seconds mod 3600) / 60)%Z).
  set (s := (seconds mod 60)%Z).
  assert (Hm : (0 <= m < 60)%Z) by (subst m; Z.div_mod_to_equations; lia).
  assert (Hs : (0 <= s < 60)%Z) by (subst s; Z.div_mod_to_equations; lia).
  destruct (format_02d_field m Hm) as (Hrm & Hlm & _).
  destruct (format_02d_field s Hs) as (Hrs & Hls & _).
  destruct (0 <? h)%Z eqn:Eh.
  - apply Z.ltb_lt in Eh. rewrite fields_three by lia.
    cbn [map tail]. rewrite read_format_d by lia. rewrite Hrm, Hrs, Hlm, Hls.
    assert (H0 : (0 <= seconds)%Z) by (subst h; Z.div_mod_to_equations; lia).
    assert (H1 : (3600 <= seconds)%Z) by (subst h; Z.div_mod_to_equations; lia).
    apply Z.leb_le in H0, H1. rewrite H0, H1. split; [|reflexivity].
    f_equal. subst h m s. Z.div_mod_to_equations. lia.
  - apply Z.ltb_ge in Eh. rewrite fields_two by lia.
    cbn [map tail]. rewrite read_format_d by lia. rewrite Hrs, Hls.
    assert (H1 : (3600 <=? seconds)%Z = false)
      by (apply Z.leb_gt; subst h; Z.div_mod_to_equations; lia).
    rewrite H1. split; [|reflexivity]. f_equal.
    destruct (0 <=? seconds)%Z eqn:E0.
    + apply Z.leb_le in E0. subst h m s. Z.div_mod_to_equations. lia.
    + subst h m s. Z.div_mod_to_equations. lia.
Qed.

(** X11: [format_date] only inserts two dashes.  An eight-character string
    comes back ten characters long with a dash at positions 4 and 7, and
    taking the dashes out gives the input back, whether or not it is a
    date; any other non-empty string comes back unchanged; the placeholder
    is returned for [None] and for the empty string (and for the
    placeholder itself) only; the result is never empty. *)
Theorem format_date_keeps_the_text :
  (forall d, length d = 8 ->
     let out := format_date (Some d) in
     length out = 10 /\ out !! 4 = Some (chr "-") /\ out !! 7 = Some (chr "-") /\
     take 4 out ++ take 2 (drop 5 out) ++ drop 8 out = d) /\
  (forall d, d <> [] -> length d <> 8 -> format_date (Some d) = d) /\
  (forall date_str, format_date date_str = UNKNOWN <->
     (date_str = None \/ date_str = Some [] \/ date_str = Some UNKNOWN)) /\
  (forall date_str, format_date date_str <> []).
Proof.
  split; [|split; [|split]].
  - intros d Hlen.
    destruct d as [|y1 [|y2 [|y3 [|y4 [|m1 [|m2 [|d1 [|d2 [|? ?]]]]]]]]]; try discriminate.
    cbv zeta. repeat split.
  - intros d Hne Hlen. unfold format_date.
    destruct d as [|c d]; [congruence|]. cbn [nonempty].
    apply Nat.eqb_neq in Hlen. rewrite Hlen. reflexivity.
  - intros [d|]; cbn [format_date]; [|split; auto].
    destruct d as [|c d]; cbn [nonempty]; [split; auto|].
    destruct (length (c :: d) =? 8) eqn:E.
    + apply Nat.eqb_eq in E.
      destruct d as [|y2 [|y3 [|y4 [|m1 [|m2 [|d1 [|d2 [|? ?]]]]]]]]; try discriminate.
      split; [discriminate|]. intros [H|[H|H]]; discriminate.
    + split; [intros ->; auto|]. intros [H|[H|H]]; try discriminate.
      congruence.
  - intros [d|]; cbn [format_date]; [|discriminate].
    destruct d as [|c d]; cbn [nonempty]; [discriminate|].
    destruct (length (c :: d) =? 8) eqn:E; [|discriminate].
    apply Nat.eqb_eq in E.
    destruct d as [|y2 [|y3 [|y4 [|m1 [|m2 [|d1 [|d2 [|? ?]]]]]]]]; discriminate.
Qed.

(** ** Caption section of the report *)

Section CaptionFacts.
Context {track : Type}.
Implicit Types w : provider track.

Lemma first_candidate_none exts glob :
  first_candidate exts glob = None <-> Forall (fun ext => glob ext = []) exts.
Proof.
  induction exts as [|ext exts IH]; cbn [first_candidate].
  - split; [constructor | reflexivity].
  - destruct (glob ext) as [|f fs] eqn:E.
    + rewrite IH. split; [intros H; constructor; assumption|].
      intros H. inversion H; subst. assumption.
    + split; [discriminate|]. intros H. inversion H; subst. congruence.
Qed.

Lemma first_candidate_elem exts glob f :
  first_candidate exts glob = Some f -> exists ext, ext ∈ exts /\ f ∈ glob ext.
Proof.
  induction exts as [|ext exts IH]; cbn [first_candidate]; [discriminate|].
  destruct (glob ext) as [|f0 fs] eqn:E.
  - intros (e & He & Hf)%IH. exists e. split; [right; exact He | exact Hf].
  - intros [= <-]. exists ext. split; [left|]. rewrite E. left.
Qed.

Lemma first_available_elem (langs : list str) (available : gmap str track) lang :
  first_available langs available = Some lang -> lang ∈ langs.
Proof.
  intros (before & after & -> & _)%first_available_ranked.
  apply elem_of_app. right. left.
Qed.

Lemma select_track_nonempty (info : video_info track) lang is_auto :
  select_track info = Some (lang, is_auto) -> lang <> [].
Proof.
  unfold select_track. intros H.
  assert (Hin : lang ∈ @preferred_langs).
  { destruct (first_available preferred_langs (default ∅ (subtitles info))) eqn:E1.
    - injection H as <- _. eapply first_available_elem; exact E1.
    - destruct (first_available preferred_langs (default ∅ (automatic_captions info))) eqn:E2;
        [|discriminate].
      injection H as <- _. eapply first_available_elem; exact E2. }
  unfold preferred_langs in Hin.
  repeat (apply elem_of_cons in Hin as [-> | Hin]; [discriminate|]).
  inversion Hin.
Qed.

Lemma report_error e : report_of_text (EXTRACT_ERROR ++ e ++ lit "*") = Some ExtractError.
Proof.
  unfold report_of_text.
  change (startswith (EXTRACT_ERROR ++ e ++ lit "*") LANG_HEADER) with false.
  change (str_eqb (EXTRACT_ERROR ++ e ++ lit "*") NO_CAPTIONS) with false.
  change (startswith (EXTRACT_ERROR ++ e ++ lit "*") DOWNLOAD_FAILED_1) with false.
  change (str_eqb (EXTRACT_ERROR ++ e ++ lit "*") NO_SUBTITLES) with false.
  cbv iota. rewrite startswith_app. reflexivity.
Qed.

Lemma report_download_failed lang :
  report_of_text (DOWNLOAD_FAILED_1 ++ lang ++ DOWNLOAD_FAILED_2) = Some DownloadFailed.
Proof.
  unfold report_of_text.
  change (startswith (DOWNLOAD_FAILED_1 ++ lang ++ DOWNLOAD_FAILED_2) LANG_HEADER) with false.
  change (str_eqb (DOWNLOAD_FAILED_1 ++ lang ++ DOWNLOAD_FAILED_2) NO_CAPTIONS) with false.
  cbv iota. rewrite startswith_app. reflexivity.
Qed.

Lemma report_transcript ext content lang :
  report_of_text (transcript ext content lang) =
  Some (match deduplicate_entries (parse_subtitle_file ext content) with
        | [] => NoCues
        | _ :: _ => Transcript
        end) /\
  transcript ext content lang <> [].
Proof.
  unfold transcript.
  destruct (deduplicate_entries (parse_subtitle_file ext content)) as [|e es].
  - split; [reflexivity | discriminate].
  - rewrite format_subtitle_output_lines.
    change (join [10%N] (header_line lang :: [] :: map cue_line (e :: es)))
      with (header_line lang ++ [10%N] ++ join [10%N] ([] :: map cue_line (e :: es))).
    unfold header_line. rewrite <- !app_assoc. split.
    + unfold report_of_text. rewrite startswith_app. reflexivity.
    + discriminate.
Qed.

End CaptionFacts.

Section ReportFacts.
Context {track : Type}.
Implicit Types w : provider track.

Lemma run_of_unique w r1 r2 : run_of w r1 -> run_of w r2 -> r1 = r2.
Proof.
  intros H1 H2.
  destruct H1; destruct H2; try reflexivity; try congruence;
    repeat match goal with
    | A : ?x = Returned _, B : ?x = Returned _ |- _ =>
        rewrite A in B; injection B as <-
    | A : ?x = Some (_, _), B : ?x = Some (_, _) |- _ =>
        rewrite A in B; injection B as <- <-
    | A : ?x = Some _, B : ?x = Some _ |- _ =>
        rewrite A in B; injection B as <-
    | A : Forall _ SUBTITLE_EXTS |- _ => apply first_candidate_none in A
    end; try reflexivity; try congruence.
Qed.

Lemma caption_section_run w :
  (forall lang is_auto glob ext f,
     download w lang is_auto = Returned glob -> f ∈ glob ext -> f <> []) ->
  exists r, run_of w r /\ report_of_text (caption_section w) = Some r /\
            caption_section w <> [].
Proof.
  intros Hnames. unfold caption_section, subtitle_text, extract_subtitles.
  destruct (yt_dlp_installed w) eqn:Ei; cbn [negb].
  2:{ exists NoCaptions. split; [apply run_not_installed; exact Ei|].
      split; [reflexivity | discriminate]. }
  destruct (extract_info w) as [info|msg] eqn:Einfo.
  2:{ exists ExtractError. split; [eapply run_info_raised; eassumption|].
      cbn [truthy default from_option id EXTRACT_ERROR app].
      split; [apply report_error | discriminate]. }
  destruct (select_track info) as [[lang is_auto]|] eqn:Esel.
  2:{ exists NoCaptions. split; [eapply run_no_track; eassumption|].
      split; [reflexivity | discriminate]. }
  pose proof (select_track_nonempty _ _ _ Esel) as Hlang.
  destruct (download w lang is_auto) as [glob|msg] eqn:Edl.
  2:{ exists ExtractError. split; [eapply run_download_raised; eassumption|].
      cbn [truthy default from_option id EXTRACT_ERROR app].
      split; [apply report_error | discriminate]. }
  destruct (first_candidate SUBTITLE_EXTS glob) as [f|] eqn:Ef.
  2:{ exists DownloadFailed.
      split; [eapply run_no_file; try eassumption; apply first_candidate_none; exact Ef|].
      destruct lang as [|c lang]; [congruence|].
      cbn [truthy default from_option id DOWNLOAD_FAILED_1 app].
      split; [apply (report_download_failed (c :: lang)) | discriminate]. }
  assert (Hf : f <> []).
  { apply first_candidate_elem in Ef as (ext & _ & Hin). eapply Hnames; eassumption. }
  destruct f as [|c f]; [congruence|]. cbn [truthy default from_option id].
  destruct (read_text w (c :: f)) as [content|msg] eqn:Er.
  2:{ exists ExtractError. split; [eapply run_read_raised; eassumption|].
      cbn [truthy default from_option id EXTRACT_ERROR app].
      split; [apply report_error | discriminate]. }
  destruct (report_transcript (suffix w (c :: f)) content (Some lang)) as [Hrep Hne].
  eexists. split; [eapply run_parsed; eassumption|].
  destruct (transcript (suffix w (c :: f)) content (Some lang)) as [|x t] eqn:Et;
    [congruence|].
  cbn [truthy default from_option id]. split; [exact Hrep | discriminate].
Qed.

End ReportFacts.

(** X12: the caption section of the report is never empty and tells what
    happened.  Its first characters identify one of five reports, and the
    report is the one of the run: the error text when the provider call,
    the download or the file read raised; the no-captions sentence when
    yt-dlp is missing or no preferred language has a track; the
    download-failed sentence when a track was chosen and no file of the
    four extensions appeared; the parse-failure message when the file
    leaves no cue; and the transcript otherwise. *)
Theorem caption_section_reports {track : Type} (w : provider track) :
  (forall lang is_auto glob ext f,
     download w lang is_auto = Returned glob -> f ∈ glob ext -> f <> []) ->
  caption_section w <> [] /\
  (forall r, report_of_text (caption_section w) = Some r <-> run_of w r).
Proof.
  intros Hnames. destruct (caption_section_run w Hnames) as (r0 & Hrun & Hrep & Hne).
  split; [exact Hne|]. intros r. rewrite Hrep. split.
  - intros [= <-]. exact Hrun.
  - intros Hr. f_equal. eapply run_of_unique; eassumption.
Qed.

Lemma caption_section_reports_witness :
  (forall lang is_auto glob ext f,
     download sample_provider lang is_auto = Returned glob -> f ∈ glob ext -> f <> []) /\
  caption_section sample_provider =
    join [10%N] [LANG_HEADER ++ lit "en-US" ++ LABEL_EN ++ lit "*"; [];
                 lit "[00:00:01] Hello & World"] /\
  report_of_text (caption_section sample_provider) = Some Transcript /\
  run_of sample_provider Transcript.
Proof.
  assert (H : forall lang is_auto glob ext f,
     download sample_provider lang is_auto = Returned glob -> f ∈ glob ext -> f <> []).
  { intros lang is_auto glob ext f [= <-].
    match goal with |- context [if ?b then _ else _] => destruct b end; intros Hin.
    - apply elem_of_cons in Hin as [-> | Hin]; [discriminate | inversion Hin].
    - inversion Hin. }
  split; [exact H|]. split; [vm_compute; reflexivity|].
  split; [vm_compute; reflexivity|].
  apply (proj2 (caption_section_reports sample_provider H)). vm_compute. reflexivity.
Defined.

(** X13: which downloaded file is parsed.  The extensions are tried in the
    order vtt, srt, srv3, ttml; the file taken is the first one listed for
    the first extension that has any, and no file is reported exactly when
    none of the four extensions has one. *)
Theorem subtitle_file_priority (glob : str -> list str) :
  (first_candidate SUBTITLE_EXTS glob = None <->
   Forall (fun ext => glob ext = []) SUBTITLE_EXTS) /\
  (forall f, first_candidate SUBTITLE_EXTS glob = Some f <->
     exists before ext after,
       SUBTITLE_EXTS = before ++ ext :: after /\
       Forall (fun e => glob e = []) before /\ head (glob ext) = Some f).
Proof.
  split; [apply first_candidate_none|].
  generalize SUBTITLE_EXTS. intros exts f.
  induction exts as [|ext exts IH]; cbn [first_candidate].
  - split; [discriminate|]. intros (before & e & after & H & _).
    destruct before; discriminate.
  - destruct (glob ext) as [|f0 fs] eqn:E.
    + rewrite IH. split.
      * intros (before & e & after & -> & Hb & Hh).
        exists (ext :: before), e, after. split; [reflexivity|].
        split; [constructor; assumption | exact Hh].
      * intros (before & e & after & H & Hb & Hh). destruct before as [|b before].
        -- injection H as <- <-. rewrite E in Hh. discriminate.
        -- injection H as <- ->. inversion Hb; subst. eauto 6.
    + split.
      * intros [= <-]. exists [], ext, exts. split; [reflexivity|].
        split; [constructor | rewrite E; reflexivity].
      * intros (before & e & after & H & Hb & Hh). destruct before as [|b before].
        -- injection H as <- <-. rewrite E in Hh. exact Hh.
        -- injection H as <- ->. inversion Hb; subst. congruence.
Qed.

(** ** SRT blocks *)

(** X14: the blocks of an SRT text are parsed one by one, without any state
    carried from block to block.  The result lists, in block order, the cue
    of every block that has one; a block of fewer than three lines, or
    whose second line does not start with a timestamp, or whose text is
    empty once the tags are removed, has none and is skipped without
    touching the cues of the other blocks. *)
Theorem srt_blocks_are_independent (content : str) :
  let blocks := re_split BLANK_LINES (strip content) in
  parse_srt content = omap srt_block blocks /\
  length (parse_srt content) <= length blocks /\
  (forall block e,
     srt_block block = Some e <->
     let lines := splitlines (strip block) in
     3 <= length lines /\
     exists timestamp_line,
       lines !! 1 = Some timestamp_line /\
       re_match SRT_TIMESTAMP timestamp_line = Some (fst e) /\
       snd e = re_sub TAG []
                 (join (lit " ")
                    (map strip (filter (fun t => nonempty (strip t) = true) (drop 2 lines)))) /\
       snd e <> []).
Proof.
  intros blocks.
  assert (Hfold : forall (bs : list str) acc,
    fold_left (fun entries block =>
                 match srt_block block with
                 | Some e => entries ++ [e]
                 | None => entries
                 end) bs acc = acc ++ omap srt_block bs).
  { induction bs as [|b bs IH]; intros acc; cbn [fold_left omap list_omap].
    - rewrite app_nil_r. reflexivity.
    - rewrite IH. destruct (srt_block b); [|reflexivity].
      rewrite <- app_assoc. reflexivity. }
  assert (Heq : parse_srt content = omap srt_block blocks) by apply Hfold.
  split; [exact Heq|]. split.
  { rewrite Heq. clear. induction blocks as [|b bs IH]; [constructor|].
    cbn [omap list_omap]. destruct (srt_block b); cbn [length]; lia. }
  intros block [ts text]. cbv zeta. unfold srt_block. cbn [fst snd].
  set (lines := splitlines (strip block)).
  destruct (length lines <? 3) eqn:Elen.
  { apply Nat.ltb_lt in Elen. split; [discriminate|]. intros [H _].
    exfalso. clearbody lines. lia. }
  apply Nat.ltb_ge in Elen.
  destruct (lines !! 1) as [l1|] eqn:El1.
  2:{ apply lookup_ge_None in El1. exfalso. clearbody lines. clear - Elen El1.
      unfold str, char in *. lia. }
  cbn [default from_option id].
  set (text' := re_sub TAG [] _).
  destruct (re_match SRT_TIMESTAMP l1) as [w|] eqn:Em.
  - destruct (nonempty text') eqn:Ene.
    + split.
      * intros H. assert (Hts : ts = w) by congruence.
        assert (Htext : text = text') by congruence. subst ts text.
        split; [exact Elen|]. exists l1.
        split; [reflexivity|]. split; [exact Em|]. split; [reflexivity|].
        apply nonempty_true. exact Ene.
      * intros (_ & l & Hl & Hm & Ht & _).
        assert (l = l1) by congruence. subst l.
        assert (w = ts) by congruence. subst w. rewrite Ht. reflexivity.
    + split; [discriminate|].
      intros (_ & l & Hl & Hm & Ht & Hne). exfalso. apply Hne.
      rewrite Ht. fold text'. destruct text'; [reflexivity | discriminate].
  - split; [discriminate|].
    intros (_ & l & Hl & Hm & _). assert (l = l1) by congruence. subst l. congruence.
Qed.

(** ** Caption Selector: no track *)

(** X15: a language outside the preference list is never chosen.  The
    selector reports a language of the list, and it reports none exactly
    when no language of the list has a manual or an automatic track,
    whatever other languages the two dictionaries hold. *)
Theorem select_track_only_preferred {track : Type} (info : video_info track) :
  (forall lang is_auto, select_track info = Some (lang, is_auto) ->
     lang ∈ @preferred_langs /\
     is_Some ((if is_auto then default ∅ (automatic_captions info)
               else default ∅ (subtitles info)) !! lang)) /\
  (select_track info = None <->
   Forall (fun l => default ∅ (subtitles info) !! l = None /\
                    default ∅ (automatic_captions info) !! l = None) preferred_langs).
Proof.
  unfold select_track. split.
  - intros lang is_auto.
    destruct (first_available preferred_langs (default ∅ (subtitles info))) as [l|] eqn:E1.
    + intros H. assert (l = lang /\ is_auto = false) as [-> ->]
        by (split; congruence).
      apply first_available_ranked in E1 as (before & after & Heq & Hs & _).
      split; [rewrite Heq; apply elem_of_app; right; left | exact Hs].
    + destruct (first_available preferred_langs (default ∅ (automatic_captions info)))
        as [l|] eqn:E2; [|discriminate].
      intros H. assert (l = lang /\ is_auto = true) as [-> ->]
        by (split; congruence).
      apply first_available_ranked in E2 as (before & after & Heq & Hs & _).
      split; [rewrite Heq; apply elem_of_app; right; left | exact Hs].
  - destruct (first_available preferred_langs (default ∅ (subtitles info))) as [l|] eqn:E1.
    + split; [discriminate|]. intros H.
      apply first_available_ranked in E1 as (before & after & Heq & [x Hs] & _).
      rewrite Forall_forall in H. destruct (H l) as [H1 _]; [|congruence].
      rewrite Heq. apply elem_of_app. right. left.
    + destruct (first_available preferred_langs (default ∅ (automatic_captions info)))
        as [l|] eqn:E2.
      * split; [discriminate|]. intros H.
        apply first_available_ranked in E2 as (before & after & Heq & [x Hs] & _).
        rewrite Forall_forall in H. destruct (H l) as [_ H2]; [|congruence].
        rewrite Heq. apply elem_of_app. right. left.
      * split; [|reflexivity]. intros _.
        apply first_available_none in E1, E2.
        rewrite Forall_forall in E1, E2. apply Forall_forall. intros x Hx. split; auto.
Qed.

(** ** WebVTT: one cue block *)

Section BlockFacts.

Lemma vtt_text_lines_rest ls : forall acc,
  length (snd (vtt_text_lines ls acc)) <= length ls.
Proof.
  induction ls as [|x ls IH]; intros acc; cbn [vtt_text_lines]; [cbn; lia|].
  destruct (nonempty (strip x)); [|cbn; lia].
  specialize (IH (if nonempty (vtt_clean_line (strip x))
                  then acc ++ [vtt_clean_line (strip x)] else acc)).
  cbn [length]. lia.
Qed.

(** The entries found so far are a prefix of the result. *)
Lemma vtt_cues_acc_aux n : forall lines entries,
  length lines <= n -> vtt_cues lines entries = entries ++ vtt_cues lines [].
Proof.
  induction n as [|n IH]; intros lines entries Hlen.
  - destruct lines; [|cbn in Hlen; lia]. simp vtt_cues. rewrite app_nil_r. reflexivity.
  - destruct lines as [|l rest]; [simp vtt_cues; rewrite app_nil_r; reflexivity|].
    cbn [length] in Hlen. rewrite !vtt_cues_cons.
    destruct (vtt_timestamp (strip l)) as [timestamp|]; [|apply IH; lia].
    pose proof (vtt_text_lines_rest rest []) as Hrest.
    destruct (vtt_text_lines rest []) as [text_lines rest'] eqn:E. cbn [snd] in Hrest.
    rewrite (IH rest' (match text_lines with
                       | [] => entries
                       | _ :: _ => entries ++ [(timestamp, join (lit " ") text_lines)]
                       end)) by lia.
    destruct text_lines as [|t text_lines]; [reflexivity|].
    rewrite (IH rest' ([] ++ _)) by lia. cbn [app]. rewrite <- app_assoc. reflexivity.
Qed.

Lemma vtt_cues_acc lines entries : vtt_cues lines entries = entries ++ vtt_cues lines [].
Proof. apply (vtt_cues_acc_aux (length lines)). lia. Qed.

End BlockFacts.

(** X22: one cue block of a WebVTT text.  After a timestamp line, all the
    lines up to the next blank line (or the end of the text) are text lines
    of that cue, whatever they contain, a further timestamp line included:
    the cue text is the cleaned, non-empty ones joined by single spaces, no
    cue is added when none is left, and parsing goes on after the block
    independently of it.  The cues found so far are never changed by what
    follows. *)
Theorem vtt_cue_block (l : str) (body rest : list str) (timestamp : str) :
  vtt_timestamp (strip l) = Some timestamp ->
  Forall (fun t => nonempty (strip t) = true) body ->
  match rest with [] => True | b :: _ => strip b = [] end ->
  let text_lines :=
    filter (fun t => nonempty t = true) (map (fun t => vtt_clean_line (strip t)) body) in
  vtt_cues (l :: body ++ rest) [] =
    match text_lines with
    | [] => []
    | _ :: _ => [(timestamp, join (lit " ") text_lines)]
    end ++ vtt_cues rest [] /\
  (forall lines entries, vtt_cues lines entries = entries ++ vtt_cues lines []).
Proof.
  intros Hts Hbody Hrest text_lines. split; [|apply vtt_cues_acc].
  rewrite vtt_cues_cons, Hts.
  rewrite (vtt_text_lines_body body rest [] Hbody Hrest). cbn [app].
  fold text_lines. rewrite vtt_cues_acc. destruct text_lines; reflexivity.
Qed.

Lemma vtt_cue_block_witness :
  vtt_timestamp (strip (lit "00:00:01.000 --> 00:00:02.000")) = Some (lit "00:00:01") /\
  Forall (fun t => nonempty (strip t) = true)
    (map lit ["first line"; "00:00:03.000 --> 00:00:04.000"; "<i>second</i> line"]%string) /\
  vtt_cues (map lit ["00:00:01.000 --> 00:00:02.000"; "first line";
                     "00:00:03.000 --> 00:00:04.000"; "<i>second</i> line"; "";
                     "00:00:05.000 --> 00:00:06.000"; "third line"]%string) [] =
    [(lit "00:00:01", lit "first line 00:00:03.000 --> 00:00:04.000 second line");
     (lit "00:00:05", lit "third line")].
Proof.
  assert (H1 : vtt_timestamp (strip (lit "00:00:01.000 --> 00:00:02.000")) =
               Some (lit "00:00:01")) by (vm_compute; reflexivity).
  assert (H2 : Forall (fun t => nonempty (strip t) = true)
    (map lit ["first line"; "00:00:03.000 --> 00:00:04.000"; "<i>second</i> line"]%string))
    by (repeat constructor).
  split; [exact H1|]. split; [exact H2|].
  etrans;
    [exact (proj1 (vtt_cue_block _ _
              (map lit [""; "00:00:05.000 --> 00:00:06.000"; "third line"]%string) _
              H1 H2 eq_refl))|].
  vm_compute. reflexivity.
Defined.

(** ** SRT: texts without an empty line *)

Section SplitFacts.

Lemma blank_lines_match s w :
  re_match BLANK_LINES s = Some w -> w = [] \/ exists u, s = 10%N :: 10%N :: u.
Proof.
  intros [Hm [s' ->]]%re_match_sound. right.
  cbn [BLANK_LINES matches] in Hm.
  destruct Hm as (w1 & w2 & -> & -> & Hlo & _ & Hall).
  destruct w2 as [|c w2]; [cbn in Hlo; lia|].
  inversion Hall as [|? ? Hc _]; subst. cbn in Hc. apply N.eqb_eq in Hc as ->.
  eexists. reflexivity.
Qed.

Lemma re_split_no_blank_line s : forall cur,
  ~ substr [10; 10]%N s -> re_split_from BLANK_LINES cur 0 s = [cur ++ s].
Proof.
  induction s as [|c rest IH]; intros cur Hno; cbn [re_split_from].
  - rewrite app_nil_r. reflexivity.
  - assert (Hrest : ~ substr [10; 10]%N rest).
    { intros H. apply Hno. apply (substr_app_r _ [c]). exact H. }
    destruct (re_match BLANK_LINES (c :: rest)) as [[|m0 m]|] eqn:E.
    + rewrite IH by exact Hrest. rewrite <- app_assoc. reflexivity.
    + exfalso. apply blank_lines_match in E as [E | [u E]]; [discriminate|].
      apply Hno. rewrite E. exists [], u. reflexivity.
    + rewrite IH by exact Hrest. rewrite <- app_assoc. reflexivity.
Qed.

End SplitFacts.

(** X23: an SRT text without two consecutive line feeds is one block.  The
    blocks are cut at [\n\n+] only, so when every line between two cues
    holds a character, a space for one, no cut is made: at most one cue
    comes out, the one of the first block, and the numbers, timestamp lines
    and texts of all later blocks end up in its text. *)
Theorem srt_without_blank_line_is_one_block (content : str) :
  ~ substr [10; 10]%N (strip content) ->
  parse_srt content = match srt_block (strip content) with
                      | Some e => [e]
                      | None => []
                      end /\
  length (parse_srt content) <= 1.
Proof.
  intros Hno. rewrite parse_srt_omap. unfold re_split.
  rewrite (re_split_no_blank_line _ [] Hno). cbn [app omap list_omap].
  destruct (srt_block (strip content)); cbn; split; try reflexivity; lia.
Qed.

Lemma srt_without_blank_line_is_one_block_witness :
  (substr [10; 10]%N (strip sample_srt_spaced) -> False) /\
  parse_srt sample_srt_spaced =
    [(lit "00:00:01", lit "Hello 2 00:00:03,000 --> 00:00:04,000 World")].
Proof.
  assert (H : ~ substr [10; 10]%N (strip sample_srt_spaced)).
  { intros H. apply contains_spec in H. vm_compute in H. discriminate. }
  split; [exact H|].
  rewrite (proj1 (srt_without_blank_line_is_one_block _ H)). vm_compute. reflexivity.
Defined.

(** * Properties of the state-file migrations *)

Import Wtm.

(** ** Dictionaries *)

Section DictFacts.

Lemma setdefault_mono (k : string) (v : json) (d : dict) : d ⊆ setdefault k v d.
Proof.
  unfold setdefault. destruct (d !! lit k) eqn:E; [reflexivity|].
  apply insert_subseteq. exact E.
Qed.

Lemma setdefault_has (k : string) (v : json) (d : dict) : is_Some (setdefault k v d !! lit k).
Proof.
  unfold setdefault. destruct (d !! lit k) eqn:E; [rewrite E; eauto|].
  rewrite lookup_insert_eq. eauto.
Qed.

Lemma setdefault_new (k : string) (v : json) (d : dict) :
  d !! lit k = None -> setdefault k v d !! lit k = Some v.
Proof. intros E. unfold setdefault. rewrite E. apply lookup_insert_eq. Qed.

Lemma setdefault_other (k k' : string) (v : json) (d : dict) :
  lit k <> lit k' -> setdefault k v d !! lit k' = d !! lit k'.
Proof.
  intros Hne. unfold setdefault. destruct (d !! lit k); [reflexivity|].
  apply lookup_insert_ne. exact Hne.
Qed.

Lemma is_dict_true v : is_dict v = true <-> exists d, v = JDict d.
Proof.
  destruct v; cbn; split; try discriminate; try (intros [? ?]; discriminate); eauto.
Qed.

Lemma for_each_dict_Some (body : dict -> dict) (items items' : dict) :
  for_each_dict body items = Some items' ->
  forall id,
    match items !! id with
    | Some item => exists d, item = JDict d /\ items' !! id = Some (JDict (body d))
    | None => items' !! id = None
    end.
Proof.
  unfold for_each_dict.
  destruct (forallb _ _) eqn:E; [|discriminate]. intros [= <-] id.
  rewrite forallb_forall in E. rewrite lookup_fmap.
  destruct (items !! id) as [item|] eqn:Ei; [|reflexivity].
  assert (Hd : is_dict item = true).
  { apply (E (id, item)). apply list_elem_of_In. apply elem_of_map_to_list. exact Ei. }
  apply is_dict_true in Hd as [d ->]. exists d. split; reflexivity.
Qed.

Lemma for_each_dict_dicts (body : dict -> dict) (items : dict) :
  map_Forall (fun _ item => is_dict item = true) items ->
  for_each_dict body items =
  Some ((fun item => match item with JDict d => JDict (body d) | _ => item end) <$> items).
Proof.
  intros H. unfold for_each_dict.
  assert (E : forallb (fun kv : str * json => is_dict (snd kv)) (map_to_list items) = true).
  { apply forallb_forall. intros [id item] Hin.
    apply list_elem_of_In, elem_of_map_to_list in Hin. exact (H id item Hin). }
  rewrite E. reflexivity.
Qed.

End DictFacts.

(** ** Scripts 001 and 003: sessions *)

(** A literal key differs from another one. *)
Ltac lit_neq := let H := fresh in intros H; vm_compute in H; discriminate H.

(** Presence of a key after a chain of [setdefault]. *)
Ltac has_key :=
  repeat first
    [ apply setdefault_has
    | eapply lookup_weaken_is_Some; [|apply setdefault_mono] ].

Ltac chain_mono :=
  first [ reflexivity | etrans; [|apply setdefault_mono]; chain_mono ].

Section SessionFacts.

Lemma session_v1_to_v2_mono (s : dict) : s ⊆ session_v1_to_v2 s.
Proof. unfold session_v1_to_v2. cbv zeta. chain_mono. Qed.

Lemma session_v2_to_v3_mono (machine_id : str) (s : dict) :
  s ⊆ session_v2_to_v3 machine_id s.
Proof. unfold session_v2_to_v3. cbv zeta. chain_mono. Qed.

Lemma migrate_sessions_Written (version : Z) (body : dict -> dict) (data data' : json) :
  migrate_sessions version body data = Written data' ->
  exists d,
    data = JDict d /\
    ge_int (dict_get "version" (JInt 0) d) version = Some false /\
    ((d !! lit "sessions" = None /\
      data' = JDict (<[lit "version" := JInt version]> d)) \/
     (exists ss ss',
        d !! lit "sessions" = Some (JDict ss) /\
        for_each_dict body ss = Some ss' /\
        data' = JDict (<[lit "version" := JInt version]>
                         (<[lit "sessions" := JDict ss']> d)))).
Proof.
  unfold migrate_sessions. destruct data as [| | | | | |d]; try discriminate.
  destruct (ge_int (dict_get "version" (JInt 0) d) version) as [[|]|] eqn:Ev;
    try discriminate.
  intros H. exists d. split; [reflexivity|]. split; [exact Ev|].
  destruct (d !! lit "sessions") as [[| | | | | |ss]|] eqn:Es; try discriminate.
  - destruct (for_each_dict body ss) as [ss'|] eqn:Ef; [|discriminate].
    right. exists ss, ss'. split; [reflexivity|]. split; [exact Ef|]. congruence.
  - left. split; [reflexivity|]. congruence.
Qed.

Lemma migrate_sessions_only_adds (version : Z) (body : dict -> dict) (data data' : json) :
  (forall s, s ⊆ body s) ->
  migrate_sessions version body data = Written data' ->
  untouched ["version"; "sessions"]%string data data' /\
  members_grow "sessions" data data' /\
  field "version" data' = Some (JInt version) /\
  (forall id s', entries_of "sessions" data' !! id = Some (JDict s') ->
     exists s, entries_of "sessions" data !! id = Some (JDict s) /\ s' = body s).
Proof.
  intros Hmono (d & -> & _ & H)%migrate_sessions_Written.
  assert (Hvs : lit "version" <> lit "sessions") by lit_neq.
  destruct H as [[Es ->] | (ss & ss' & Es & Ef & ->)].
  - assert (E' : entries_of "sessions" (JDict (<[lit "version" := JInt version]> d)) = ∅).
    { unfold entries_of, field. rewrite lookup_insert_ne by exact Hvs. rewrite Es.
      reflexivity. }
    assert (E0 : entries_of "sessions" (JDict d) = ∅).
    { unfold entries_of, field. rewrite Es. reflexivity. }
    split; [|split; [|split]].
    + intros key Hk. inversion Hk as [|? ? Hk1 _]; subst.
      apply lookup_insert_ne. congruence.
    + split.
      * intros id. rewrite E', E0. reflexivity.
      * intros id item. rewrite E0, lookup_empty. discriminate.
    + cbn [field]. apply lookup_insert_eq.
    + intros id s'. rewrite E', lookup_empty. discriminate.
  - assert (E' : entries_of "sessions"
                   (JDict (<[lit "version" := JInt version]>
                             (<[lit "sessions" := JDict ss']> d))) = ss').
    { unfold entries_of, field. rewrite lookup_insert_ne by exact Hvs.
      rewrite lookup_insert_eq. reflexivity. }
    assert (E0 : entries_of "sessions" (JDict d) = ss).
    { unfold entries_of, field. rewrite Es. reflexivity. }
    pose proof (for_each_dict_Some _ _ _ Ef) as Hf.
    split; [|split; [|split]].
    + intros key Hk. inversion Hk as [|? ? Hk1 Hk']; subst.
      inversion Hk' as [|? ? Hk2 _]; subst.
      rewrite !lookup_insert_ne by congruence. reflexivity.
    + split.
      * intros id. rewrite E', E0. specialize (Hf id).
        destruct (ss !! id) as [item|] eqn:Ei.
        -- destruct Hf as (s & -> & ->). split; eauto.
        -- rewrite Hf. reflexivity.
      * intros id item. rewrite E0, E'. intros Ei. specialize (Hf id).
        rewrite Ei in Hf. destruct Hf as (s & -> & Hs').
        exists s, (body s). split; [reflexivity|]. split; [exact Hs' | apply Hmono].
    + cbn [field]. apply lookup_insert_eq.
    + intros id s'. rewrite E', E0. intros Ei. specialize (Hf id).
      destruct (ss !! id) as [item|] eqn:Ei0.
      * destruct Hf as (s & -> & Hs'). exists s. split; [reflexivity|]. congruence.
      * congruence.
Qed.

End SessionFacts.

(** X16: the session migrations 001 and 003 only add.  When a run rewrites
    the file, nothing outside ["version"] and ["sessions"] changes, no
    session appears or disappears, every session keeps each key it had with
    its value, and afterwards every session has all the fields of the new
    version; a session without ["last_activity_at"] gets the value of its
    ["created_at"] (null when it has none), and a session without
    ["machine"] gets the host name as its origin. *)
Theorem session_migrations_only_add (data data' : json) :
  (migrate_001 data = Written data' ->
   untouched ["version"; "sessions"]%string data data' /\
   members_grow "sessions" data data' /\ field "version" data' = Some (JInt 2) /\
   (forall id s', entries_of "sessions" data' !! id = Some (JDict s') ->
      has_keys ["last_activity_at"; "ttl_hours"; "tags"; "template";
                "parent_session"; "metrics"; "health"]%string s') /\
   (forall id s, entries_of "sessions" data !! id = Some (JDict s) ->
      s !! lit "last_activity_at" = None ->
      exists s', entries_of "sessions" data' !! id = Some (JDict s') /\
                 s' !! lit "last_activity_at" = Some (default JNull (s !! lit "created_at")))) /\
  (forall machine_id, migrate_003 machine_id data = Written data' ->
   untouched ["version"; "sessions"]%string data data' /\
   members_grow "sessions" data data' /\ field "version" data' = Some (JInt 3) /\
   (forall id s', entries_of "sessions" data' !! id = Some (JDict s') ->
      has_keys ["child_sessions"; "session_group"; "session_chain"; "context";
                "cross_project"; "machine"]%string s') /\
   (forall id s, entries_of "sessions" data !! id = Some (JDict s) ->
      s !! lit "machine" = None ->
      exists s' machine,
        entries_of "sessions" data' !! id = Some (JDict s') /\
        s' !! lit "machine" = Some (JDict machine) /\
        machine !! lit "origin_machine" = Some (JStr machine_id))).
Proof.
  split.
  - intros H.
    destruct (migrate_sessions_only_adds 2 session_v1_to_v2 data data'
                session_v1_to_v2_mono H) as (Hun & Hadd & Hver & Hbody).
    split; [exact Hun|]. split; [exact Hadd|]. split; [exact Hver|]. split.
    + intros id s' (s & _ & ->)%Hbody.
      unfold has_keys, session_v1_to_v2. cbv zeta.
      repeat (constructor; [has_key|]). constructor.
    + intros id s Hs Hnone. destruct Hadd as (_ & Hitems).
      destruct (Hitems id _ Hs) as (s0 & s' & [= <-] & Hs' & _).
      destruct (Hbody id s' Hs') as (s1 & Hs1 & ->).
      assert (s1 = s) by congruence. subst s1.
      exists (session_v1_to_v2 s). split; [exact Hs'|].
      unfold session_v1_to_v2. cbv zeta.
      eapply lookup_weaken; [apply setdefault_new; exact Hnone | chain_mono].
  - intros machine_id H.
    destruct (migrate_sessions_only_adds 3 (session_v2_to_v3 machine_id) data data'
                (session_v2_to_v3_mono machine_id) H) as (Hun & Hadd & Hver & Hbody).
    split; [exact Hun|]. split; [exact Hadd|]. split; [exact Hver|]. split.
    + intros id s' (s & _ & ->)%Hbody.
      unfold has_keys, session_v2_to_v3. cbv zeta.
      repeat (constructor; [has_key|]). constructor.
    + intros id s Hs Hnone. destruct Hadd as (_ & Hitems).
      destruct (Hitems id _ Hs) as (s0 & s' & [= <-] & Hs' & _).
      destruct (Hbody id s' Hs') as (s1 & Hs1 & ->).
      assert (s1 = s) by congruence. subst s1.
      eexists (session_v2_to_v3 machine_id s), _. split; [exact Hs'|]. split.
      * unfold session_v2_to_v3. cbv zeta. apply setdefault_new.
        rewrite !setdefault_other by lit_neq. exact Hnone.
      * vm_compute. reflexivity.
Qed.

(** ** Scripts 002 and 004: projects *)

Section ProjectFacts.

Lemma project_v0_to_v2_mono (default_cleanup : json) (p : dict) :
  p ⊆ project_v0_to_v2 default_cleanup p.
Proof. unfold project_v0_to_v2. cbv zeta. chain_mono. Qed.

Lemma project_v2_to_v3_mono (p : dict) : p ⊆ project_v2_to_v3 p.
Proof. unfold project_v2_to_v3. cbv zeta. chain_mono. Qed.

Lemma defaults_v0_to_v2_mono (d : dict) : d ⊆ defaults_v0_to_v2 d.
Proof. unfold defaults_v0_to_v2. cbv zeta. chain_mono. Qed.

Lemma defaults_v2_to_v3_mono (d : dict) : d ⊆ defaults_v2_to_v3 d.
Proof. unfold defaults_v2_to_v3. cbv zeta. chain_mono. Qed.

Lemma migrate_projects_Written (version : Z) (project_body : dict -> dict -> dict)
    (defaults_body : dict -> dict) (extra_key : string) (data data' : json) :
  migrate_projects version project_body defaults_body extra_key data = Written data' ->
  exists d defaults aliases aliases',
    data = JDict d /\
    ge_int (dict_get "version" (JInt 0) d) version = Some false /\
    dict_get "defaults" (JDict ∅) d = JDict defaults /\
    dict_get "aliases" (JDict ∅) d = JDict aliases /\
    for_each_dict (project_body defaults) aliases = Some aliases' /\
    data' =
      JDict (<[lit "version" := JInt version]>
               (setdefault extra_key (JDict ∅)
                  (<[lit "defaults" := JDict (defaults_body defaults)]>
                     match d !! lit "aliases" with
                     | Some _ => <[lit "aliases" := JDict aliases']> d
                     | None => d
                     end))).
Proof.
  unfold migrate_projects. destruct data as [| | | | | |d]; try discriminate.
  destruct (ge_int (dict_get "version" (JInt 0) d) version) as [[|]|] eqn:Ev;
    try discriminate.
  destruct (dict_get "defaults" (JDict ∅) d) as [| | | | | |defaults] eqn:Ed;
    try discriminate.
  destruct (dict_get "aliases" (JDict ∅) d) as [| | | | | |aliases] eqn:Ea;
    try discriminate.
  destruct (for_each_dict (project_body defaults) aliases) as [aliases'|] eqn:Ef;
    [|discriminate].
  intros [= <-]. exists d, defaults, aliases, aliases'. repeat split; assumption.
Qed.

Lemma entries_of_get (k : string) (d : dict) (entries : dict) :
  dict_get k (JDict ∅) d = JDict entries -> entries_of k (JDict d) = entries.
Proof.
  unfold dict_get, entries_of, field. destruct (d !! lit k) as [v|]; cbn.
  - intros ->. reflexivity.
  - intros [= <-]. reflexivity.
Qed.

Lemma migrate_projects_only_adds (version : Z) (project_body : dict -> dict -> dict)
    (defaults_body : dict -> dict) (extra_key : string) (data data' : json) :
  (forall defaults p, p ⊆ project_body defaults p) ->
  lit extra_key <> lit "version" -> lit extra_key <> lit "defaults" ->
  lit extra_key <> lit "aliases" ->
  migrate_projects version project_body defaults_body extra_key data = Written data' ->
  untouched ["version"; "aliases"; "defaults"; extra_key]%string data data' /\
  members_grow "aliases" data data' /\
  field "version" data' = Some (JInt version) /\
  entries_of "defaults" data' = defaults_body (entries_of "defaults" data) /\
  field extra_key data' = Some (default (JDict ∅) (field extra_key data)) /\
  (forall id p', entries_of "aliases" data' !! id = Some (JDict p') ->
     exists p, entries_of "aliases" data !! id = Some (JDict p) /\
               p' = project_body (entries_of "defaults" data) p).
Proof.
  intros Hmono Hev Hed Hea
    (d & defaults & aliases & aliases' & -> & _ & Ed & Ea & Ef & ->)%migrate_projects_Written.
  assert (Hvd : lit "version" <> lit "defaults") by lit_neq.
  assert (Hva : lit "version" <> lit "aliases") by lit_neq.
  assert (Hda : lit "defaults" <> lit "aliases") by lit_neq.
  pose proof (entries_of_get _ _ _ Ed) as E0d.
  pose proof (entries_of_get _ _ _ Ea) as E0a.
  set (d1 := match d !! lit "aliases" with
             | Some _ => <[lit "aliases" := JDict aliases']> d
             | None => d
             end).
  assert (Hd1 : forall key, key <> lit "aliases" -> d1 !! key = d !! key).
  { intros key Hk. subst d1. destruct (d !! lit "aliases"); [|reflexivity].
    apply lookup_insert_ne. congruence. }
  assert (Hd1a : entries_of "aliases" (JDict d1) = aliases').
  { unfold entries_of, field. subst d1. unfold dict_get in Ea.
    destruct (d !! lit "aliases") as [v|] eqn:E.
    - rewrite lookup_insert_eq. reflexivity.
    - rewrite E. cbn in Ea. injection Ea as <-.
      unfold for_each_dict in Ef. rewrite map_to_list_empty in Ef. cbn in Ef.
      rewrite fmap_empty in Ef. congruence. }
  set (d2 := <[lit "defaults" := JDict (defaults_body defaults)]> d1).
  set (d3 := setdefault extra_key (JDict ∅) d2).
  assert (Hd3 : forall key, key <> lit extra_key -> d3 !! key = d2 !! key).
  { intros key Hk. subst d3. unfold setdefault. destruct (d2 !! lit extra_key); [reflexivity|].
    apply lookup_insert_ne. congruence. }
  pose proof (for_each_dict_Some _ _ _ Ef) as Hf.
  assert (Ea' : entries_of "aliases" (JDict (<[lit "version" := JInt version]> d3)) = aliases').
  { rewrite <- Hd1a. unfold entries_of, field.
    rewrite lookup_insert_ne by exact Hva. rewrite Hd3 by congruence.
    subst d2. rewrite lookup_insert_ne by exact Hda. reflexivity. }
  split; [|split; [|split; [|split; [|split]]]].
  - intros key Hk. apply Forall_cons in Hk as [Hk1 Hk].
    apply Forall_cons in Hk as [Hk2 Hk]. apply Forall_cons in Hk as [Hk3 Hk].
    apply Forall_cons in Hk as [Hk4 _].
    rewrite lookup_insert_ne by congruence. rewrite Hd3 by exact Hk4.
    subst d2. rewrite lookup_insert_ne by congruence. apply Hd1. exact Hk2.
  - split.
    + intros id. rewrite Ea', E0a. specialize (Hf id).
      destruct (aliases !! id) as [item|] eqn:Ei.
      * destruct Hf as (p & -> & ->). split; eauto.
      * rewrite Hf. reflexivity.
    + intros id item. rewrite E0a, Ea'. intros Ei. specialize (Hf id).
      rewrite Ei in Hf. destruct Hf as (p & -> & Hp').
      exists p, (project_body defaults p). split; [reflexivity|].
      split; [exact Hp' | apply Hmono].
  - cbn [field]. apply lookup_insert_eq.
  - rewrite E0d. unfold entries_of, field.
    rewrite lookup_insert_ne by exact Hvd. rewrite Hd3 by congruence.
    subst d2. rewrite lookup_insert_eq. reflexivity.
  - cbn [field]. rewrite lookup_insert_ne by congruence.
    subst d3. unfold setdefault.
    assert (Hd2 : d2 !! lit extra_key = d !! lit extra_key).
    { subst d2. rewrite lookup_insert_ne by congruence. apply Hd1. exact Hea. }
    destruct (d2 !! lit extra_key) as [v|] eqn:E.
    + rewrite E, <- Hd2. reflexivity.
    + rewrite lookup_insert_eq, <- Hd2. reflexivity.
  - intros id p'. rewrite Ea', E0a, E0d. intros Ei. specialize (Hf id).
    destruct (aliases !! id) as [item|] eqn:Ei0.
    + destruct Hf as (p & -> & Hp'). exists p. split; [reflexivity|]. congruence.
    + congruence.
Qed.

End ProjectFacts.

(** X17: the project migrations 002 and 004 only add.  When a run rewrites
    the file, nothing outside ["version"], ["aliases"], ["defaults"] and the
    new top-level collection changes; no project appears or disappears and
    every project and the defaults keep each key they had with its value;
    afterwards every project and the defaults have all the fields of the new
    version, and the new collection exists (an existing one is kept).  In
    002 a project without ["auto_cleanup_days"] gets the value that
    ["cleanup_after_days"] has in the defaults after the run: the file's own
    value when it has one, 14 otherwise. *)
Theorem project_migrations_only_add (data data' : json) :
  (migrate_002 data = Written data' ->
   untouched ["version"; "aliases"; "defaults"; "templates"]%string data data' /\
   members_grow "aliases" data data' /\
   field "version" data' = Some (JInt 2) /\
   entries_of "defaults" data ⊆ entries_of "defaults" data' /\
   has_keys ["worktree_root"; "cleanup_after_days"; "health_check_interval_minutes";
             "max_sessions_per_project"; "disk_warning_gb"]%string
            (entries_of "defaults" data') /\
   field "templates" data' = Some (default (JDict ∅) (field "templates" data)) /\
   (forall id p', entries_of "aliases" data' !! id = Some (JDict p') ->
      has_keys ["branch_naming"; "conventional_commits"; "pr_template";
                "auto_cleanup_days"; "symlink_patterns"; "hooks"]%string p') /\
   (forall id p, entries_of "aliases" data !! id = Some (JDict p) ->
      p !! lit "auto_cleanup_days" = None ->
      exists p', entries_of "aliases" data' !! id = Some (JDict p') /\
                 p' !! lit "auto_cleanup_days" =
                 entries_of "defaults" data' !! lit "cleanup_after_days" /\
                 p' !! lit "auto_cleanup_days" =
                 Some (default (JInt 14)
                         (entries_of "defaults" data !! lit "cleanup_after_days")))) /\
  (migrate_004 data = Written data' ->
   untouched ["version"; "aliases"; "defaults"; "machines"]%string data data' /\
   members_grow "aliases" data data' /\
   field "version" data' = Some (JInt 3) /\
   entries_of "defaults" data ⊆ entries_of "defaults" data' /\
   has_keys ["auto_discover"; "discovery_paths"; "sync_remote";
             "sync_branch_prefix"]%string (entries_of "defaults" data') /\
   field "machines" data' = Some (default (JDict ∅) (field "machines" data)) /\
   (forall id p', entries_of "aliases" data' !! id = Some (JDict p') ->
      has_keys ["dependencies"; "monorepo_packages"; "discovery_paths"]%string p')).
Proof.
  split.
  - intros H.
    destruct (migrate_projects_only_adds 2 _ _ "templates" data data'
                (fun defaults => project_v0_to_v2_mono _)
                ltac:(lit_neq) ltac:(lit_neq) ltac:(lit_neq) H)
      as (Hun & Hadd & Hver & Hdef & Hextra & Hbody).
    split; [exact Hun|]. split; [exact Hadd|]. split; [exact Hver|].
    split; [rewrite Hdef; apply defaults_v0_to_v2_mono|].
    split.
    { rewrite Hdef. unfold has_keys, defaults_v0_to_v2. cbv zeta.
      repeat (constructor; [has_key|]). constructor. }
    split; [exact Hextra|]. split.
    + intros id p' (p & _ & ->)%Hbody.
      unfold has_keys, project_v0_to_v2. cbv zeta.
      repeat (constructor; [has_key|]). constructor.
    + intros id p Hp Hnone. destruct Hadd as (_ & Hitems).
      destruct (Hitems id _ Hp) as (p0 & p' & [= <-] & Hp' & _).
      destruct (Hbody id p' Hp') as (p1 & Hp1 & ->).
      assert (p1 = p) by congruence. subst p1.
      eexists. split; [exact Hp'|].
      set (defaults := entries_of "defaults" data) in *.
      assert (Hauto : project_v0_to_v2 (dict_get "cleanup_after_days" (JInt 14) defaults) p
                        !! lit "auto_cleanup_days" =
                      Some (default (JInt 14) (defaults !! lit "cleanup_after_days"))).
      { unfold project_v0_to_v2. cbv zeta.
        rewrite !setdefault_other by lit_neq.
        apply setdefault_new. rewrite !setdefault_other by lit_neq. exact Hnone. }
      split; [|exact Hauto]. rewrite Hauto, Hdef.
      unfold defaults_v0_to_v2. cbv zeta. symmetry.
      destruct (defaults !! lit "cleanup_after_days") as [v|] eqn:Ec; cbn [default].
      * eapply lookup_weaken; [exact Ec | chain_mono].
      * rewrite !setdefault_other by lit_neq.
        apply setdefault_new. rewrite !setdefault_other by lit_neq. exact Ec.
  - intros H.
    destruct (migrate_projects_only_adds 3 _ _ "machines" data data'
                (fun defaults => project_v2_to_v3_mono)
                ltac:(lit_neq) ltac:(lit_neq) ltac:(lit_neq) H)
      as (Hun & Hadd & Hver & Hdef & Hextra & Hbody).
    split; [exact Hun|]. split; [exact Hadd|]. split; [exact Hver|].
    split; [rewrite Hdef; apply defaults_v2_to_v3_mono|].
    split.
    { rewrite Hdef. unfold has_keys, defaults_v2_to_v3. cbv zeta.
      repeat (constructor; [has_key|]). constructor. }
    split; [exact Hextra|].
    intros id p' (p & _ & ->)%Hbody.
    unfold has_keys, project_v2_to_v3. cbv zeta.
    repeat (constructor; [has_key|]). constructor.
Qed.

(** ** A second run changes nothing *)

Section RerunFacts.

Lemma ge_int_same (v : Z) : ge_int (JInt v) v = Some true.
Proof. cbn. rewrite Z.leb_refl. reflexivity. Qed.

Lemma migrate_sessions_rerun (version : Z) (body body' : dict -> dict) (data data' : json) :
  migrate_sessions version body data = Written data' ->
  migrate_sessions version body' data' = AlreadyCurrent.
Proof.
  intros (d & -> & _ & H)%migrate_sessions_Written.
  destruct H as [[_ ->] | (ss & ss' & _ & _ & ->)];
    unfold migrate_sessions, dict_get; rewrite lookup_insert_eq; cbn [default from_option id];
    rewrite ge_int_same; reflexivity.
Qed.

Lemma migrate_projects_rerun (version : Z) (project_body : dict -> dict -> dict)
    (defaults_body : dict -> dict) (extra_key : string) (data data' : json) :
  migrate_projects version project_body defaults_body extra_key data = Written data' ->
  migrate_projects version project_body defaults_body extra_key data' = AlreadyCurrent.
Proof.
  intros (d & defaults & aliases & aliases' & -> & _ & _ & _ & _ & ->)%migrate_projects_Written.
  unfold migrate_projects, dict_get. rewrite lookup_insert_eq. cbn [default from_option id].
  rewrite ge_int_same. reflexivity.
Qed.

Lemma migrate_005_Written (data data' : json) :
  migrate_005 data = Written data' ->
  exists d sessions sessions',
    data = JDict d /\
    ge_int (dict_get "version" (JInt 0) d) 4 = Some false /\
    lt_int (dict_get "version" (JInt 0) d) 3 = Some false /\
    dict_get "sessions" (JDict ∅) d = JDict sessions /\
    for_each_dict migrate_session sessions = Some sessions' /\
    data' = JDict (<[lit "sessions" := JDict sessions']> (<[lit "version" := JInt 4]> d)).
Proof.
  unfold migrate_005. destruct data as [| | | | | |d]; try discriminate. cbv zeta.
  destruct (ge_int (dict_get "version" (JInt 0) d) 4) as [[|]|] eqn:Ev; try discriminate.
  destruct (lt_int (dict_get "version" (JInt 0) d) 3) as [[|]|] eqn:El; try discriminate.
  destruct (dict_get "sessions" (JDict ∅) d) as [| | | | | |sessions] eqn:Es;
    try discriminate.
  destruct (for_each_dict migrate_session sessions) as [sessions'|] eqn:Ef; [|discriminate].
  intros [= <-]. exists d, sessions, sessions'. repeat split; assumption.
Qed.

End RerunFacts.

(** X18: every migration is idempotent on its own output.  Whatever a run
    of one of the five scripts writes, a second run of the same script on
    the written file leaves through its version guard without writing
    (for 003 also on a machine with another host name). *)
Theorem migrations_run_once (data data' : json) :
  (migrate_001 data = Written data' -> migrate_001 data' = AlreadyCurrent) /\
  (migrate_002 data = Written data' -> migrate_002 data' = AlreadyCurrent) /\
  (forall machine_id machine_id',
     migrate_003 machine_id data = Written data' ->
     migrate_003 machine_id' data' = AlreadyCurrent) /\
  (migrate_004 data = Written data' -> migrate_004 data' = AlreadyCurrent) /\
  (migrate_005 data = Written data' -> migrate_005 data' = AlreadyCurrent).
Proof.
  split; [apply migrate_sessions_rerun|].
  split; [apply migrate_projects_rerun|].
  split; [intros m m'; apply migrate_sessions_rerun|].
  split; [apply migrate_projects_rerun|].
  intros (d & ss & ss' & -> & _ & _ & _ & _ & ->)%migrate_005_Written.
  unfold migrate_005, dict_get. cbv zeta.
  rewrite lookup_insert_ne by lit_neq. rewrite lookup_insert_eq. reflexivity.
Qed.

(** ** Script 005: one session *)

Section TerminalFacts.

Lemma terminal_is_dict (name : json) :
  is_dict (if py_bool name then TMUX_TERMINAL name else UNKNOWN_TERMINAL) = true.
Proof. destruct (py_bool name); reflexivity. Qed.

End TerminalFacts.

(** X19: what [migrate_session] does to one session.  Every key other than
    ["terminal"] and ["health"] keeps its value, the old ["tmux"] and
    ["tmux_session"] among them; afterwards ["terminal"] is a dictionary,
    so that migrating again changes nothing; a session that already has a
    dictionary there is returned as it is.  Otherwise the terminal is the
    tmux one named by ["tmux"] when that value is truthy, else by
    ["tmux_session"] when that one is, and the unknown terminal when
    neither is; and a ["health"] dictionary with ["tmux_ok"] gains
    ["terminal_ok"] with the same value and keeps everything else. *)
Theorem migrate_session_spec (session : dict) :
  let session' := migrate_session session in
  let tmux := dict_get "tmux" JNull session in
  let tmux_session := dict_get "tmux_session" JNull session in
  (forall key, key <> lit "terminal" -> key <> lit "health" ->
     session' !! key = session !! key) /\
  is_dict (dict_get "terminal" JNull session') = true /\
  migrate_session session' = session' /\
  (is_dict (dict_get "terminal" JNull session) = true -> session' = session) /\
  (is_dict (dict_get "terminal" JNull session) = false ->
   session' !! lit "terminal" =
     Some (if py_bool tmux then TMUX_TERMINAL tmux
           else if py_bool tmux_session then TMUX_TERMINAL tmux_session
           else UNKNOWN_TERMINAL) /\
   session' !! lit "health" =
     match session !! lit "health" with
     | Some (JDict health) =>
         match health !! lit "tmux_ok" with
         | Some tmux_ok => Some (JDict (<[lit "terminal_ok" := tmux_ok]> health))
         | None => Some (JDict health)
         end
     | other => other
     end).
Proof.
  cbv zeta.
  assert (Hth : lit "terminal" <> lit "health") by lit_neq.
  destruct (is_dict (dict_get "terminal" JNull session)) eqn:Et.
  { assert (E : migrate_session session = session)
      by (unfold migrate_session; rewrite Et; reflexivity).
    rewrite E. split; [reflexivity|]. split; [exact Et|]. split; [exact E|].
    split; [reflexivity | discriminate]. }
  set (name := py_or (py_or (dict_get "tmux" JNull session)
                            (dict_get "tmux_session" JNull session)) (JStr [])).
  set (terminal := if py_bool name then TMUX_TERMINAL name else UNKNOWN_TERMINAL).
  set (s1 := <[lit "terminal" := terminal]> session).
  assert (E : migrate_session session =
              match s1 !! lit "health" with
              | Some (JDict health) =>
                  match health !! lit "tmux_ok" with
                  | Some tmux_ok =>
                      <[lit "health" := JDict (<[lit "terminal_ok" := tmux_ok]> health)]> s1
                  | None => s1
                  end
              | _ => s1
              end).
  { unfold migrate_session. rewrite Et. fold name. subst s1 terminal.
    destruct (py_bool name); reflexivity. }
  assert (Hh1 : s1 !! lit "health" = session !! lit "health")
    by (subst s1; apply lookup_insert_ne; exact Hth).
  assert (Hterm : migrate_session session !! lit "terminal" = Some terminal).
  { rewrite E. destruct (s1 !! lit "health") as [[| | | | | |health]|];
      try (subst s1; apply lookup_insert_eq).
    destruct (health !! lit "tmux_ok");
      [rewrite lookup_insert_ne by congruence|]; subst s1; apply lookup_insert_eq. }
  assert (Hdict : is_dict (dict_get "terminal" JNull (migrate_session session)) = true).
  { unfold dict_get. rewrite Hterm. apply terminal_is_dict. }
  split; [|split; [exact Hdict|split; [|split; [discriminate|]]]].
  - intros key Hk1 Hk2. rewrite E.
    destruct (s1 !! lit "health") as [[| | | | | |health]|];
      try (subst s1; apply lookup_insert_ne; congruence).
    destruct (health !! lit "tmux_ok");
      [rewrite lookup_insert_ne by congruence|]; subst s1; apply lookup_insert_ne;
      congruence.
  - unfold migrate_session at 1. rewrite Hdict. reflexivity.
  - intros _. split.
    + rewrite Hterm. f_equal. subst terminal name. unfold py_or.
      destruct (py_bool (dict_get "tmux" JNull session)) eqn:E1.
      * repeat (cbv iota; rewrite E1). reflexivity.
      * cbv iota. destruct (py_bool (dict_get "tmux_session" JNull session)) eqn:E2.
        -- repeat (cbv iota; rewrite E2). reflexivity.
        -- reflexivity.
    + rewrite E, Hh1.
      destruct (session !! lit "health") as [v|] eqn:Eh; [|exact Hh1].
      destruct v as [| | | | | |health]; try exact Hh1.
      destruct (health !! lit "tmux_ok"); [apply lookup_insert_eq | exact Hh1].
Qed.

(** ** Script 005: the file *)

(** X20: the version guards of script 005 and what it writes.  A file whose
    version is 4 or more is left alone; a file below version 3, or without
    a version, is refused with exit status 1 (the four earlier scripts
    treat a missing version as 0 and migrate); a version-3 file whose
    sessions are dictionaries is rewritten.  What is written has version 4
    and a ["sessions"] entry, the same session ids, every session being
    [migrate_session] of the old one, and nothing else changed. *)
Theorem migrate_005_gate (d : dict) (data' : json) :
  (d !! lit "version" = None -> migrate_005 (JDict d) = Refused) /\
  (forall v, d !! lit "version" = Some (JInt v) ->
     (4 <= v -> migrate_005 (JDict d) = AlreadyCurrent)%Z /\
     (v < 3 -> migrate_005 (JDict d) = Refused)%Z /\
     (v = 3%Z ->
      forall sessions,
        dict_get "sessions" (JDict ∅) d = JDict sessions ->
        map_Forall (fun _ item => is_dict item = true) sessions ->
        exists written, migrate_005 (JDict d) = Written written)) /\
  (migrate_005 (JDict d) = Written data' ->
   untouched ["version"; "sessions"]%string (JDict d) data' /\
   field "version" data' = Some (JInt 4) /\
   field "sessions" data' = Some (JDict (entries_of "sessions" data')) /\
   (forall id, is_Some (entries_of "sessions" data' !! id) <->
               is_Some (entries_of "sessions" (JDict d) !! id)) /\
   (forall id s', entries_of "sessions" data' !! id = Some (JDict s') ->
      exists s, entries_of "sessions" (JDict d) !! id = Some (JDict s) /\
                s' = migrate_session s)).
Proof.
  split; [|split].
  - intros Hv. unfold migrate_005, dict_get. rewrite Hv. reflexivity.
  - intros v Hv. unfold migrate_005. cbv zeta.
    replace (dict_get "version" (JInt 0) d) with (JInt v)
      by (unfold dict_get; rewrite Hv; reflexivity).
    cbn [ge_int lt_int]. split; [|split].
    + intros H. apply Z.leb_le in H. rewrite H. reflexivity.
    + intros H. assert (H1 : (4 <=? v)%Z = false) by (apply Z.leb_gt; lia).
      apply Z.ltb_lt in H. rewrite H1, H. reflexivity.
    + intros -> sessions Hs Hall. cbn. rewrite Hs.
      rewrite (for_each_dict_dicts _ _ Hall). eauto.
  - intros (d0 & ss & ss' & [= <-] & _ & _ & Es & Ef & ->)%migrate_005_Written.
    assert (Hvs : lit "sessions" <> lit "version") by lit_neq.
    pose proof (entries_of_get _ _ _ Es) as E0.
    assert (E' : entries_of "sessions"
                   (JDict (<[lit "sessions" := JDict ss']> (<[lit "version" := JInt 4]> d)))
                 = ss').
    { unfold entries_of, field. rewrite lookup_insert_eq. reflexivity. }
    pose proof (for_each_dict_Some _ _ _ Ef) as Hf.
    split; [|split; [|split; [|split]]].
    + intros key Hk. apply Forall_cons in Hk as [Hk1 Hk]. apply Forall_cons in Hk as [Hk2 _].
      rewrite !lookup_insert_ne by congruence. reflexivity.
    + cbn [field]. rewrite lookup_insert_ne by exact Hvs. apply lookup_insert_eq.
    + rewrite E'. cbn [field]. apply lookup_insert_eq.
    + intros id. rewrite E', E0. specialize (Hf id).
      destruct (ss !! id) as [item|] eqn:Ei.
      * destruct Hf as (s & -> & ->). split; eauto.
      * rewrite Hf. reflexivity.
    + intros id s'. rewrite E', E0. intros Ei. specialize (Hf id).
      destruct (ss !! id) as [item|] eqn:Ei0.
      * destruct Hf as (s & -> & Hs'). exists s. split; [reflexivity|]. congruence.
      * congruence.
Qed.

(** ** The chain 001, 003, 005 on a sessions file *)

Section ChainFacts.

Lemma for_each_dict_fmap (body : dict -> dict) (f : json -> json) (items : dict) :
  (forall item, is_dict item = true -> is_dict (f item) = true) ->
  map_Forall (fun _ item => is_dict item = true) items ->
  map_Forall (fun _ item => is_dict item = true) (f <$> items).
Proof.
  intros Hf Hall id item. rewrite lookup_fmap.
  destruct (items !! id) as [x|] eqn:E; [|discriminate].
  intros [= <-]. apply Hf. exact (Hall id x E).
Qed.

End ChainFacts.

(** X21: the three session migrations compose.  On a sessions file of
    version 1 (or without a version) whose sessions are dictionaries, runs
    of 001, 003 and 005 in this order all write, and the last one writes
    the original file with version 4 and every session replaced by
    [migrate_session] of the 003 upgrade of the 001 upgrade of it. *)
Theorem sessions_migration_chain (d sessions : dict) (machine_id : str) :
  (d !! lit "version" = None \/
   exists v, d !! lit "version" = Some (JInt v) /\ (v < 2)%Z) ->
  d !! lit "sessions" = Some (JDict sessions) ->
  map_Forall (fun _ item => is_dict item = true) sessions ->
  exists data1 data2,
    migrate_001 (JDict d) = Written data1 /\
    migrate_003 machine_id data1 = Written data2 /\
    migrate_005 data2 =
      Written
        (JDict
           (<[lit "sessions" :=
                JDict ((fun item =>
                          match item with
                          | JDict s =>
                              JDict (migrate_session
                                       (session_v2_to_v3 machine_id (session_v1_to_v2 s)))
                          | _ => item
                          end) <$> sessions)]>
              (<[lit "version" := JInt 4]> d))).
Proof.
  intros Hv Hs Hall.
  assert (Hvs : lit "version" <> lit "sessions") by lit_neq.
  assert (Hv2 : ge_int (dict_get "version" (JInt 0) d) 2 = Some false).
  { unfold dict_get. destruct Hv as [-> | (v & -> & Hlt)]; cbn; [reflexivity|].
    f_equal. apply Z.leb_gt. exact Hlt. }
  set (f1 := fun item => match item with
                         | JDict s => JDict (session_v1_to_v2 s)
                         | _ => item
                         end).
  set (f3 := fun item => match item with
                         | JDict s => JDict (session_v2_to_v3 machine_id s)
                         | _ => item
                         end).
  set (f5 := fun item => match item with
                         | JDict s => JDict (migrate_session s)
                         | _ => item
                         end).
  assert (Hd : forall (f : json -> json) (g : dict -> dict),
            (forall item, f item = match item with JDict s => JDict (g s) | _ => item end) ->
            forall item, is_dict item = true -> is_dict (f item) = true).
  { intros f g Hfg item [s ->]%is_dict_true. rewrite Hfg. reflexivity. }
  assert (Hall1 : map_Forall (fun _ item => is_dict item = true) (f1 <$> sessions)).
  { apply (for_each_dict_fmap session_v1_to_v2); [|exact Hall].
    apply (Hd f1 session_v1_to_v2). reflexivity. }
  assert (Hall3 : map_Forall (fun _ item => is_dict item = true) (f3 <$> (f1 <$> sessions))).
  { apply (for_each_dict_fmap (session_v2_to_v3 machine_id)); [|exact Hall1].
    apply (Hd f3 (session_v2_to_v3 machine_id)). reflexivity. }
  eexists _, _. split; [|split].
  - unfold migrate_001, migrate_sessions. rewrite Hv2, Hs.
    rewrite (for_each_dict_dicts _ _ Hall). reflexivity.
  - unfold migrate_003, migrate_sessions, dict_get.
    rewrite lookup_insert_eq. cbn [default from_option id ge_int].
    change (3 <=? 2)%Z with false.
    rewrite lookup_insert_ne by exact Hvs. rewrite lookup_insert_eq.
    rewrite (for_each_dict_dicts _ _ Hall1). reflexivity.
  - unfold migrate_005, dict_get. cbv zeta.
    rewrite lookup_insert_eq. cbn [default from_option id ge_int lt_int].
    change (4 <=? 3)%Z with false. change (3 <? 3)%Z with false.
    rewrite lookup_insert_ne by exact Hvs. rewrite lookup_insert_eq.
    cbn [default from_option id].
    rewrite (for_each_dict_dicts _ _ Hall3). f_equal. f_equal.
    fold f1 f3 f5.
    apply map_eq. intros key.
    destruct (decide (key = lit "sessions")) as [->|Hk1].
    + rewrite !lookup_insert_eq. f_equal. f_equal.
      rewrite <- !map_fmap_compose. apply map_fmap_ext.
      intros id item _. destruct item; reflexivity.
    + rewrite !(lookup_insert_ne _ (lit "sessions")) by congruence.
      destruct (decide (key = lit "version")) as [->|Hk2].
      * rewrite !lookup_insert_eq. reflexivity.
      * rewrite !lookup_insert_ne by congruence. reflexivity.
Qed.

Lemma sessions_migration_chain_witness :
  (exists v, field "version" sample_sessions = Some (JInt v) /\ (v < 2)%Z) /\
  map_Forall (fun _ item => is_dict item = true) (entries_of "sessions" sample_sessions) /\
  exists data1 data2 data3,
    migrate_001 sample_sessions = Written data1 /\
    migrate_003 (lit "devbox") data1 = Written data2 /\
    migrate_005 data2 = Written data3 /\
    field "version" data3 = Some (JInt 4) /\
    session_field "feature-a" "terminal" data3 = Some (TMUX_TERMINAL (jstr "wtm_feature-a")) /\
    session_field "feature-a" "tags" data3 = Some (JList [jstr "urgent"]) /\
    session_field "feature-a" "last_activity_at" data3 = Some (jstr "2024-05-01T10:00:00") /\
    session_field "feature-b" "terminal" data3 = Some UNKNOWN_TERMINAL /\
    session_field "feature-b" "last_activity_at" data3 = Some JNull.
Proof.
  assert (H1 : exists v, field "version" sample_sessions = Some (JInt v) /\ (v < 2)%Z).
  { exists 1%Z. split; [vm_compute; reflexivity | lia]. }
  assert (H3 : map_Forall (fun _ item => is_dict item = true)
                 (entries_of "sessions" sample_sessions)).
  { apply map_Forall_to_list. vm_compute. repeat constructor. }
  split; [exact H1|]. split; [exact H3|].
  assert (H2 : field "sessions" sample_sessions =
               Some (JDict (entries_of "sessions" sample_sessions)))
    by (vm_compute; reflexivity).
  destruct (sessions_migration_chain _ _ (lit "devbox") (or_intror H1) H2 H3)
    as (data1 & data2 & E1 & E2 & E3).
  exists data1, data2. eexists.
  split; [exact E1|]. split; [exact E2|]. split; [exact E3|].
  repeat split; vm_compute; reflexivity.
Defined.
